(** * wildcard-domain-finder: the candidate generator and the probing engine

    A shallow embedding of [app.js]: the [DomainFinder] class
    ([isDomainAvailable], [generateDomains], [processDomainBatch],
    [findAvailableDomains]) and the validation done by [main].

    Conventions.
    - A JavaScript string is the list of its code units ([jsstring]); a
      JavaScript number used as a counter, an index or a size is a [Z].
    - [Array.prototype.slice] and [String.prototype.slice] share one
      definition, [slice], with the relative (negative) indices written out.
    - The world outside the object ([dns], the write stream, timers, the
      console) is explicit state, see [World].
    - An [async] function is cut at its [await]: the part before it
      ([_begin]) and the part run when the awaited promise has settled
      ([_resume]). Between the two, other callbacks may run.
    - What is left to the environment is a parameter: the answers of the
      resolver, the order in which the answers to one batch arrive, the
      result of sorting with a random comparator, the rounded arithmetic
      behind the progress bar.
    - A timer that fires changes the list of timers and the flag of its
      controller, and nothing else, and no code of the program reads
      either. The functions of the scheduler follow a run in which a reply
      is handled before the timer of its probe is due; the timers on the
      clock are the subject of [Timing], and the events of a run
      ([Event]) include a timer that fires at any moment.
    - Not modelled: the limits of the engine (stack depth, memory), and a
      write stream that fails. *)

From Stdlib Require Import ZArith List Ascii String Bool Lia Permutation.
From stdpp Require Import base list relations.
Import ListNotations.

Set Default Proof Using "Type".

(** ** JavaScript values *)

Definition jsstring : Type := list ascii.

(** String literals of the source, as code-unit lists. *)
Definition js (s : string) : jsstring := list_ascii_of_string s.

Definition js_length {A : Type} (l : list A) : Z := Z.of_nat (length l).

(** The index clamping of [slice]: a negative index counts from the end. *)
Definition relativeIndex (len k : Z) : Z :=
  if (k <? 0)%Z then Z.max (len + k) 0 else Z.min k len.

(** [l.slice(start, fin)] for arrays and strings alike. *)
Definition slice {A : Type} (l : list A) (start fin : Z) : list A :=
  let len := js_length l in
  let k := relativeIndex len start in
  let final := relativeIndex len fin in
  firstn (Z.to_nat (final - k)) (skipn (Z.to_nat k) l).

(** [l.slice(start)]: the end defaults to the length. *)
Definition sliceFrom {A : Type} (l : list A) (start : Z) : list A :=
  slice l start (js_length l).

(** [s[index]], [None] standing for [undefined]. *)
Definition charAt (s : jsstring) (index : Z) : option ascii :=
  if (index <? 0)%Z then None else nth_error s (Z.to_nat index).

(** [s.includes(c)] for a one-character needle. *)
Definition includes (c : ascii) (s : jsstring) : bool :=
  existsb (Ascii.eqb c) s.

(** [s.split("")]: one one-character string per code unit. *)
Definition split_chars (s : jsstring) : list jsstring :=
  map (fun c => [c]) s.

(** A parameter with a default value: [undefined] takes the default. *)
Definition defaultArg {A : Type} (d : A) (o : option A) : A :=
  match o with Some v => v | None => d end.

Definition WILDCARD : ascii := "*"%char.

(** ** Configuration *)

Record Configuration : Type := {
  ALPHABET : jsstring;
  CONCURRENT_CHECKS : Z;
  TIMEOUT : Z;
  OUTPUT_FILE : jsstring;
  PROGRESS_UPDATE_INTERVAL : Z
}.

Definition CONFIG : Configuration := {|
  ALPHABET := js "abcdefghijklmnopqrstuvwxyz0123456789";
  CONCURRENT_CHECKS := 10;
  TIMEOUT := 5000;
  OUTPUT_FILE := js "available_domains.txt";
  PROGRESS_UPDATE_INTERVAL := 50
|}.

(** ** The candidate generator *)

Section Generator.

(** The configuration object the class reads. *)
Variable cfg : Configuration.

(** [chars.sort(() => Math.random() - 0.5)]: the engine's sort under a
    comparator that answers at random. Its result is some rearrangement of
    the array; which one is left open. *)
Variable sort_random : list jsstring -> list jsstring.

(** The inner closure [generateWithWildcard(domain, index)]. It captures
    [chars] and pushes on the array [domains], which is threaded here as
    the last argument and returned. [fuel] bounds the recursion depth; the
    call made by [generateDomains] never exhausts it
    ([generateWithWildcard_expansions]). *)
Fixpoint generateWithWildcard (fuel : nat) (chars : list jsstring)
    (domain : jsstring) (index : Z) (domains : list jsstring)
    : list jsstring :=
  match fuel with
  | O => domains
  | S fuel' =>
      if (index =? js_length domain)%Z then domains ++ [domain]
      else
        match charAt domain index with
        | Some c =>
            if Ascii.eqb c WILDCARD then
              fold_left
                (fun domains' char =>
                   generateWithWildcard fuel' chars
                     (slice domain 0 index ++ char
                        ++ sliceFrom domain (index + 1))
                     (index + 1) domains')
                chars domains
            else generateWithWildcard fuel' chars domain (index + 1) domains
        | None => generateWithWildcard fuel' chars domain (index + 1) domains
        end
  end.

(** [generateDomains(baseDomain, randomize = true)]. *)
Definition generateDomains (baseDomain : jsstring) (randomize : option bool)
    : list jsstring :=
  if negb (includes WILDCARD baseDomain) then [baseDomain]
  else
    let chars := split_chars (ALPHABET cfg) in
    let chars :=
      if defaultArg true randomize then sort_random chars else chars in
    generateWithWildcard (S (length baseDomain)) chars baseDomain 0 [].

End Generator.

(** *** What the generator is compared with *)

(** Number of wildcard markers of a pattern. *)
Definition wildcards (pattern : jsstring) : nat :=
  count_occ ascii_dec pattern WILDCARD.

(** [candidate] is [pattern] with every marker replaced by a character of
    [alphabet] and every other position unchanged. *)
Definition instantiates (alphabet pattern candidate : jsstring) : Prop :=
  Forall2
    (fun p c => if Ascii.eqb p WILDCARD then In c alphabet else c = p)
    pattern candidate.

(** The depth-first enumeration, by recursion on the pattern: the leftmost
    marker varies slowest. *)
Fixpoint expansions (alphabet pattern : jsstring) : list jsstring :=
  match pattern with
  | [] => [[]]
  | p :: rest =>
      if Ascii.eqb p WILDCARD then
        flat_map (fun a => map (cons a) (expansions alphabet rest)) alphabet
      else map (cons p) (expansions alphabet rest)
  end.

(** ** The finder object and its surroundings *)

(** A thrown or rejected value: only its [code] property is ever read. *)
Record JsError : Type := { code : option jsstring }.

(** How a call ends: with a value, or by throwing. *)
Inductive Completion (A : Type) : Type :=
| Normal (value : A)
| Throw (error : JsError).
Arguments Normal {A} value.
Arguments Throw {A} error.

(** How the promise of [dns.resolve(domain)] settles. *)
Inductive DnsOutcome : Type :=
| Resolved (records : list jsstring)
| Failed (error : JsError).

(** [this.stats]. *)
Record Stats : Type := {
  total : Z;
  checked : Z;
  available : Z;
  errors : Z;
  startTime : option Z
}.

Record DomainFinder : Type := {
  concurrentChecks : Z;
  timeout : Z;
  outputFile : jsstring;
  stats : Stats;
  recentlyFound : list jsstring;
  currentlyChecking : jsstring
}.

(** A pending [setTimeout(() => controller.abort(), delay)]. *)
Record Timer : Type := {
  timeoutId : nat;
  delay : Z;
  controller : nat
}.

(** One rendering of [displayProgress], without the clock-derived figures. *)
Record Frame : Type := {
  shown_checked : Z;
  shown_total : Z;
  shown_available : Z;
  shown_errors : Z;
  shown_recent : list jsstring;
  shown_current : jsstring
}.

(** The object together with what it acts on.
    - [written]: the chunks passed to [writer.write], oldest first;
    - [queries]: the names handed to [dns.resolve], oldest first;
    - [controllers]: the [aborted] flag of every [AbortController] made;
    - [timers]: the timers armed and neither cleared nor fired. *)
Record World : Type := {
  this : DomainFinder;
  written : list jsstring;
  ended : bool;
  queries : list jsstring;
  controllers : list bool;
  timers : list Timer;
  timersMade : nat;
  console : list Frame
}.

Definition withStats (f : Stats -> Stats) (o : DomainFinder) : DomainFinder :=
  {| concurrentChecks := concurrentChecks o; timeout := timeout o;
     outputFile := outputFile o; stats := f (stats o);
     recentlyFound := recentlyFound o;
     currentlyChecking := currentlyChecking o |}.

Definition withRecentlyFound (f : list jsstring -> list jsstring)
    (o : DomainFinder) : DomainFinder :=
  {| concurrentChecks := concurrentChecks o; timeout := timeout o;
     outputFile := outputFile o; stats := stats o;
     recentlyFound := f (recentlyFound o);
     currentlyChecking := currentlyChecking o |}.

Definition withCurrentlyChecking (d : jsstring) (o : DomainFinder)
    : DomainFinder :=
  {| concurrentChecks := concurrentChecks o; timeout := timeout o;
     outputFile := outputFile o; stats := stats o;
     recentlyFound := recentlyFound o; currentlyChecking := d |}.

Definition withThis (f : DomainFinder -> DomainFinder) (w : World) : World :=
  {| this := f (this w); written := written w; ended := ended w;
     queries := queries w; controllers := controllers w; timers := timers w;
     timersMade := timersMade w; console := console w |}.

Definition withWritten (f : list jsstring -> list jsstring) (w : World)
    : World :=
  {| this := this w; written := f (written w); ended := ended w;
     queries := queries w; controllers := controllers w; timers := timers w;
     timersMade := timersMade w; console := console w |}.

Definition withEnded (b : bool) (w : World) : World :=
  {| this := this w; written := written w; ended := b;
     queries := queries w; controllers := controllers w; timers := timers w;
     timersMade := timersMade w; console := console w |}.

Definition withQueries (f : list jsstring -> list jsstring) (w : World)
    : World :=
  {| this := this w; written := written w; ended := ended w;
     queries := f (queries w); controllers := controllers w;
     timers := timers w; timersMade := timersMade w; console := console w |}.

Definition withControllers (f : list bool -> list bool) (w : World) : World :=
  {| this := this w; written := written w; ended := ended w;
     queries := queries w; controllers := f (controllers w);
     timers := timers w; timersMade := timersMade w; console := console w |}.

Definition withTimers (f : list Timer -> list Timer) (made : nat) (w : World)
    : World :=
  {| this := this w; written := written w; ended := ended w;
     queries := queries w; controllers := controllers w;
     timers := f (timers w); timersMade := made; console := console w |}.

Definition withConsole (f : list Frame -> list Frame) (w : World) : World :=
  {| this := this w; written := written w; ended := ended w;
     queries := queries w; controllers := controllers w; timers := timers w;
     timersMade := timersMade w; console := f (console w) |}.

(** Field increments of [this.stats]. *)
Definition incChecked (s : Stats) : Stats :=
  {| total := total s; checked := checked s + 1; available := available s;
     errors := errors s; startTime := startTime s |}.

Definition incAvailable (s : Stats) : Stats :=
  {| total := total s; checked := checked s; available := available s + 1;
     errors := errors s; startTime := startTime s |}.

Definition incErrors (s : Stats) : Stats :=
  {| total := total s; checked := checked s; available := available s;
     errors := errors s + 1; startTime := startTime s |}.

Definition startRun (n : Z) (now : Z) (s : Stats) : Stats :=
  {| total := n; checked := checked s; available := available s;
     errors := errors s; startTime := Some now |}.

(** *** Statements that read and write the world, and may throw *)

Definition M (A : Type) : Type := World -> Completion A * World.

Definition ret {A : Type} (a : A) : M A := fun w => (Normal a, w).

Definition bind {A B : Type} (m : M A) (k : A -> M B) : M B :=
  fun w =>
    match m w with
    | (Normal a, w') => k a w'
    | (Throw e, w') => (Throw e, w')
    end.

(** [try { body } catch (error) { handler }]. *)
Definition try_catch {A : Type} (body : M A) (handler : JsError -> M A)
    : M A :=
  fun w =>
    match body w with
    | (Normal a, w') => (Normal a, w')
    | (Throw e, w') => handler e w'
    end.

Definition update (f : World -> World) : M unit := fun w => (Normal tt, f w).

Definition gets {A : Type} (f : World -> A) : M A := fun w => (Normal (f w), w).

Declare Scope js_scope.
Delimit Scope js_scope with js.
Notation "x <- m ;; k" := (bind m (fun x => k))
  (at level 100, m at next level, right associativity) : js_scope.
Notation "m ;; k" := (bind m (fun _ => k))
  (at level 100, right associativity) : js_scope.
Open Scope js_scope.

(** [a === b] on strings. *)
Definition strictEq (a b : jsstring) : bool :=
  if List.list_eq_dec ascii_dec a b then true else false.

(** [error.code === name]; an absent [code] equals no string. *)
Definition codeIs (error : JsError) (name : string) : bool :=
  match code error with
  | Some c => strictEq c (js name)
  | None => false
  end.

(** [new AbortController()]: a fresh controller, not aborted, whose signal
    nobody holds. *)
Definition newAbortController : M nat :=
  fun w =>
    (Normal (length (controllers w)),
     withControllers (fun cs => cs ++ [false]) w).

(** [setTimeout(() => controller.abort(), delay)]. *)
Definition setTimeout (ctl : nat) (ms : Z) : M nat :=
  fun w =>
    let id := timersMade w in
    (Normal id,
     withTimers
       (fun ts => ts ++ [{| timeoutId := id; delay := ms; controller := ctl |}])
       (S id) w).

(** [clearTimeout(timeoutId)]. *)
Definition clearTimeout (id : nat) : M unit :=
  update (fun w =>
    withTimers (List.filter (fun t => negb (Nat.eqb (timeoutId t) id)))
      (timersMade w) w).

(** [dns.resolve(domain)]: the query goes out; the promise it returns is
    named by the rank of the query. *)
Definition dns_resolve (domain : jsstring) : M nat :=
  fun w =>
    (Normal (length (queries w)), withQueries (fun q => q ++ [domain]) w).

(** [await promise], once the promise has settled as [reply]. *)
Definition await (reply : DnsOutcome) : M (list jsstring) :=
  fun w =>
    match reply with
    | Resolved records => (Normal records, w)
    | Failed error => (Throw error, w)
    end.

(** [writer.write(chunk)]. *)
Definition writer_write (chunk : jsstring) : M unit :=
  update (withWritten (fun out => out ++ [chunk])).

Definition NEWLINE : ascii := "010"%char.

(** *** [isDomainAvailable] *)

(** The local variables of a suspended call of [isDomainAvailable]. *)
Record ProbeFrame : Type := {
  probe_domain : jsstring;
  probe_timeoutId : nat;
  probe_query : nat
}.

(** Lines 36 to 39, up to the [await]: the controller, the timer, and the
    query. The controller's signal is passed to nothing. *)
Definition isDomainAvailable_begin (domain : jsstring) : M ProbeFrame :=
  ctl <- newAbortController ;;
  ms <- gets (fun w => timeout (this w)) ;;
  id <- setTimeout ctl ms ;;
  q <- dns_resolve domain ;;
  ret {| probe_domain := domain; probe_timeoutId := id; probe_query := q |}.

(** The rest of the [try] and the [catch], once [dns.resolve] has settled. *)
Definition isDomainAvailable_resume (frame : ProbeFrame) (reply : DnsOutcome)
    : M bool :=
  try_catch
    (await reply ;;
     clearTimeout (probe_timeoutId frame) ;;
     ret false)
    (fun error =>
       if codeIs error "ENOTFOUND" || codeIs error "ENODATA" then ret true
       else
         update (withThis (withStats incErrors)) ;;
         ret false).

(** A whole call, for a resolution that settles as [reply] before the
    timer of the call is due. For a reply that comes later the timer fires
    in between: that is [Timing.probeReturns], which differs in the timers
    and the controllers only. *)
Definition isDomainAvailable (domain : jsstring) (reply : DnsOutcome)
    : M bool :=
  frame <- isDomainAvailable_begin domain ;;
  isDomainAvailable_resume frame reply.

(** ** The batch scheduler *)

(** The value of one callback of [batch.map]: [{ domain, available }]. *)
Record ProbeResult : Type := {
  res_domain : jsstring;
  res_available : bool
}.

(** An entry of the array [Promise.allSettled] resolves to. *)
Inductive Settlement : Type :=
| fulfilled (value : ProbeResult)
| rejected (reason : JsError).

(** A promise of [batchPromises]: its callback is suspended at the [await],
    or it has settled. *)
Inductive Promise : Type :=
| Awaiting (frame : ProbeFrame)
| Done (result : Settlement).

Definition settlement (c : Completion ProbeResult) : Settlement :=
  match c with
  | Normal v => fulfilled v
  | Throw e => rejected e
  end.

(** The callback of [batch.map], up to the [await] inside
    [isDomainAvailable]. *)
Definition callback_begin (domain : jsstring) : M ProbeFrame :=
  update (withThis (withCurrentlyChecking domain)) ;;
  isDomainAvailable_begin domain.

(** The callback from the [await] on, run when the resolution of its domain
    has settled as [reply]. The catch block of [isDomainAvailable] runs one
    microtask before the rest; it touches [stats.errors] only, which nothing
    else writes, so running the two in one piece loses no interleaving. *)
Definition callback_resume (frame : ProbeFrame) (reply : DnsOutcome)
    : M ProbeResult :=
  let domain := probe_domain frame in
  avail <- isDomainAvailable_resume frame reply ;;
  update (withThis (withStats incChecked)) ;;
  (if avail : bool then
     update (withThis (withStats incAvailable)) ;;
     writer_write (domain ++ [NEWLINE]) ;;
     update (withThis (withRecentlyFound (cons domain))) ;;
     len <- gets (fun w => js_length (recentlyFound (this w))) ;;
     if (3 <? len)%Z
     then update (withThis (withRecentlyFound (@removelast jsstring)))
     else ret tt
   else ret tt) ;;
  ret {| res_domain := domain; res_available := avail |}.

(** One call of the callback by [batch.map]: a new promise at the end of
    [batchPromises]. *)
Definition launch (st : list Promise * World) (domain : jsstring)
    : list Promise * World :=
  let (promises, w) := st in
  match callback_begin domain w with
  | (Normal frame, w') => (promises ++ [Awaiting frame], w')
  | (Throw e, w') => (promises ++ [Done (rejected e)], w')
  end.

(** The suspended callbacks of [batchPromises], each with its index. *)
Fixpoint suspended (k : nat) (promises : list Promise)
    : list (nat * ProbeFrame) :=
  match promises with
  | [] => []
  | Awaiting frame :: rest => (k, frame) :: suspended (S k) rest
  | Done _ :: rest => suspended (S k) rest
  end.

(** [Promise.allSettled(batchPromises)], [None] while a promise is pending. *)
Fixpoint allSettled (promises : list Promise) : option (list Settlement) :=
  match promises with
  | [] => Some []
  | Awaiting _ :: _ => None
  | Done s :: rest => option_map (cons s) (allSettled rest)
  end.

(** A number that need not be finite: what [Math.round] may return. *)
Inductive jsnumber : Type :=
| Finite (n : Z)
| PlusInfinity
| MinusInfinity
| NaN.

(** [a - x]. *)
Definition minusFrom (a : Z) (x : jsnumber) : jsnumber :=
  match x with
  | Finite n => Finite (a - n)
  | PlusInfinity => MinusInfinity
  | MinusInfinity => PlusInfinity
  | NaN => NaN
  end.

(** [String.prototype.repeat(count)] returns for a finite count that is not
    negative, and for [NaN], which counts as 0; it throws a [RangeError] for
    a negative or infinite count. *)
Definition repeatAccepts (count : jsnumber) : bool :=
  match count with
  | Finite n => (0 <=? n)%Z
  | NaN => true
  | PlusInfinity => false
  | MinusInfinity => false
  end.

Definition RangeError : JsError := {| code := None |}.

(** The filled width of the bar in exact arithmetic: [40 * checked / total]
    rounded to the nearest integer, halves up; a division by zero gives
    [NaN] or an infinity. One of the functions the engine's rounded
    arithmetic may be. *)
Definition idealFill (checked total : Z) : jsnumber :=
  if (total =? 0)%Z then
    if (checked =? 0)%Z then NaN
    else if (0 <? checked)%Z then PlusInfinity else MinusInfinity
  else Finite ((80 * checked + total) / (2 * total)).

(** What [displayProgress] prints once the bar is built: it reads the
    object and writes to the console only. *)
Definition printProgress (w : World) : World :=
  let o := this w in
  withConsole
    (fun frames =>
       frames ++
       [{| shown_checked := checked (stats o); shown_total := total (stats o);
           shown_available := available (stats o);
           shown_errors := errors (stats o);
           shown_recent := recentlyFound o;
           shown_current := currentlyChecking o |}])
    w.

(** [new DomainFinder(options)]: what [options] may hold. *)
Record FinderOptions : Type := {
  opt_concurrentChecks : option Z;
  opt_timeout : option Z;
  opt_outputFile : option jsstring
}.

(** [value || fallback] on numbers: [undefined] and [0] are falsy. *)
Definition orNumber (value : option Z) (fallback : Z) : Z :=
  match value with
  | Some n => if (n =? 0)%Z then fallback else n
  | None => fallback
  end.

(** [value || fallback] on strings: [undefined] and [""] are falsy. *)
Definition orString (value : option jsstring) (fallback : jsstring)
    : jsstring :=
  match value with
  | Some (c :: s) => c :: s
  | _ => fallback
  end.

(** [new DomainFinder()]: no option given. *)
Definition noOptions : FinderOptions :=
  {| opt_concurrentChecks := None; opt_timeout := None;
     opt_outputFile := None |}.

(** The surroundings of a finder nothing has run on yet. *)
Definition freshWorld (o : DomainFinder) : World :=
  {| this := o; written := []; ended := false; queries := [];
     controllers := []; timers := []; timersMade := 0; console := [] |}.

(** What [parseArguments] hands to [main]. *)
Record ParsedArgs : Type := {
  arg_domain : option jsstring;
  arg_concurrentChecks : Z;
  arg_timeout : Z;
  arg_outputFile : option jsstring;
  arg_help : bool
}.

(** How [main] ends: [process.exit(status)], or by returning. *)
Inductive Exit : Type :=
| exited (status : Z)
| returned.

Section Engine.

Variable cfg : Configuration.
Variable sort_random : list jsstring -> list jsstring.

(** The resolver: how the query of a given rank, for a given name,
    settles. Every query of a batch is answered, with a success or an
    error; a resolver that answers late or never is the subject of
    [Timing]. *)
Variable dns : nat -> jsstring -> DnsOutcome.

(** The order in which the replies to the queries of one batch arrive: a
    rearrangement of the suspended callbacks. *)
Variable arrival : list (nat * ProbeFrame) -> list (nat * ProbeFrame).

(** [Date.now()] when the run starts, and whether reading the output file
    back fails in the final summary. *)
Variable Date_now : Z.
Variable readFileSync_throws : bool.

(** [Math.round((((checked / total) * 100) / 100) * barWidth)] with
    [barWidth = 40], as the double-precision arithmetic of the engine gives
    it for the counters [checked] and [total]. *)
Variable roundedFill : Z -> Z -> jsnumber.

(** [displayProgress()]. The two calls of [repeat] that build the bar
    throw when handed a negative or infinite width; otherwise the snapshot
    is printed. *)
Definition displayProgress : M unit :=
  fun w =>
    let s := stats (this w) in
    let filledWidth := roundedFill (checked s) (total s) in
    let emptyWidth := minusFrom 40 filledWidth in
    if repeatAccepts filledWidth && repeatAccepts emptyWidth
    then (Normal tt, printProgress w)
    else (Throw RangeError, w).

(** The reply to a suspended callback arrives: the callback runs to its
    end and settles its promise. *)
Definition settle (st : list Promise * World) (task : nat * ProbeFrame)
    : list Promise * World :=
  let (promises, w) := st in
  let (slot, frame) := task in
  let (c, w') :=
    callback_resume frame (dns (probe_query frame) (probe_domain frame)) w in
  (<[slot := Done (settlement c)]> promises, w').

(** A batch of [processDomainBatch], from [batch.map] to the point where
    [await Promise.allSettled] can resume: every callback is started in
    turn, then the replies arrive. *)
Definition runBatch (batch : list jsstring) (w : World)
    : list Promise * World :=
  let (batchPromises, w1) := fold_left launch batch ([], w) in
  fold_left settle (arrival (suspended 0 batchPromises)) (batchPromises, w1).

(** The body of the [for] loop after the [slice]: the batch runs, its
    settlements are pushed on [results], and progress is shown when due.
    [None]: a promise of the batch stays pending. *)
Definition turn (batch : list jsstring) (results : list Settlement)
    (w : World) : option (Completion (list Settlement) * World) :=
  let (promises, w') := runBatch batch w in
  match allSettled promises with
  | None => None
  | Some batchResults =>
      let s := stats (this w') in
      if (Z.rem (checked s) 5 =? 0)%Z || (checked s =? total s)%Z then
        match displayProgress w' with
        | (Normal _, w'') => Some (Normal (results ++ batchResults), w'')
        | (Throw e, w'') => Some (Throw e, w'')
        end
      else Some (Normal (results ++ batchResults), w')
  end.

(** The loop [for (let i = 0; i < domains.length; i += concurrentChecks)].
    [None]: the loop does not end within [fuel] turns, or a turn does not
    end. *)
Fixpoint batchLoop (fuel : nat) (domains : list jsstring) (i : Z)
    (results : list Settlement) (w : World)
    : option (Completion (list Settlement) * World) :=
  if (i <? js_length domains)%Z then
    match fuel with
    | O => None
    | S fuel' =>
        match
          turn (slice domains i (i + concurrentChecks (this w))) results w
        with
        | None => None
        | Some (Throw e, w') => Some (Throw e, w')
        | Some (Normal results', w') =>
            batchLoop fuel' domains (i + concurrentChecks (this w'))
              results' w'
        end
    end
  else Some (Normal results, w).

(** The turns of the loop on a given list of batches, one after the
    other. *)
Fixpoint turns (todo : list (list jsstring)) (results : list Settlement)
    (w : World) : option (Completion (list Settlement) * World) :=
  match todo with
  | [] => Some (Normal results, w)
  | batch :: rest =>
      match turn batch results w with
      | None => None
      | Some (Throw e, w') => Some (Throw e, w')
      | Some (Normal results', w') => turns rest results' w'
      end
  end.

(** [processDomainBatch(domains, writer)]. With a positive batch size the
    loop takes at most one turn per domain; with one that is not positive
    it never ends on a non-empty list, which is the [None] it gives here. *)
Definition processDomainBatch (domains : list jsstring) (w : World)
    : option (Completion (list Settlement) * World) :=
  batchLoop (length domains) domains 0 [] w.

(** The constructor. *)
Definition constructor (options : FinderOptions) : DomainFinder :=
  {| concurrentChecks :=
       orNumber (opt_concurrentChecks options) (CONCURRENT_CHECKS cfg);
     timeout := orNumber (opt_timeout options) (TIMEOUT cfg);
     outputFile := orString (opt_outputFile options) (OUTPUT_FILE cfg);
     stats := {| total := 0; checked := 0; available := 0; errors := 0;
                 startTime := None |};
     recentlyFound := [];
     currentlyChecking := [] |}.

(** The final summary: it prints, and on two of its paths reverses
    [recentlyFound] in place. *)
Definition printSummary (w : World) : World :=
  let o := this w in
  if (0 <? js_length (recentlyFound o))%Z then
    if (available (stats o) <=? 10)%Z then
      if readFileSync_throws
      then withThis (withRecentlyFound (@rev jsstring)) w else w
    else withThis (withRecentlyFound (@rev jsstring)) w
  else w.

(** [findAvailableDomains(baseDomain)]: the generator is called with one
    argument, the file is opened anew, the batches run, the summary is
    printed, and the stream is ended in the [finally], also when the [try]
    block threw. *)
Definition findAvailableDomains (baseDomain : jsstring) (w : World)
    : option (Completion unit * World) :=
  let domains := generateDomains cfg sort_random baseDomain None in
  let w1 := withThis (withStats (startRun (js_length domains) Date_now)) w in
  let w2 := withEnded false (withWritten (fun _ => []) w1) in
  match processDomainBatch domains w2 with
  | None => None
  | Some (Normal _, w3) => Some (Normal tt, withEnded true (printSummary w3))
  | Some (Throw e, w3) => Some (Throw e, withEnded true w3)
  end.

(** [main()], from the parsed arguments and the line the operator types
    when asked. [w] is the process's surroundings; its object is the one
    [main] constructs. *)
Definition main (options : ParsedArgs) (answer : jsstring) (w : World)
    : option (Exit * World) :=
  if arg_help options then Some (returned, w)
  else
    let domain :=
      match arg_domain options with
      | Some (c :: s) => c :: s
      | _ => answer
      end in
    match domain with
    | [] => Some (exited 1, w)
    | _ :: _ =>
        if negb (includes "."%char domain) then Some (exited 1, w)
        else
          let finder :=
            constructor
              {| opt_concurrentChecks := Some (arg_concurrentChecks options);
                 opt_timeout := Some (arg_timeout options);
                 opt_outputFile := arg_outputFile options |} in
          match findAvailableDomains domain (withThis (fun _ => finder) w)
          with
          | None => None
          | Some (Normal _, w') => Some (returned, w')
          | Some (Throw _, w') => Some (exited 1, w')
          end
    end.

End Engine.

(** The finder [main] makes when no option is given, before anything has
    run on it. *)
Definition newFinder : World := freshWorld (constructor CONFIG noOptions).

(** The steps a run is made of. *)
Inductive run_step : World -> World -> Prop :=
| step_launch (domain : jsstring) (w : World) :
    run_step w (snd (callback_begin domain w))
| step_settle (frame : ProbeFrame) (reply : DnsOutcome) (w : World) :
    run_step w (snd (callback_resume frame reply w))
| step_display (w : World) :
    run_step w (printProgress w).

(** The consecutive batches the loop takes from [domains], for a positive
    batch size. *)
Fixpoint batches (fuel : nat) (size : Z) (domains : list jsstring) (i : Z)
    : list (list jsstring) :=
  if (i <? js_length domains)%Z then
    match fuel with
    | O => []
    | S fuel' =>
        slice domains i (i + size) :: batches fuel' size domains (i + size)
    end
  else [].

(** *** The probe outcomes of the specification *)

Inductive Outcome : Type :=
| Available
| Unavailable
| Error.

(** The failure is of the name-not-found or no-data class. *)
Definition notFoundClass (error : JsError) : bool :=
  codeIs error "ENOTFOUND" || codeIs error "ENODATA".

(** The outcome the specification gives a resolution: success is
    [Unavailable], a failure of the not-found class is [Available], any
    other failure is [Error]. *)
Definition classify (reply : DnsOutcome) : Outcome :=
  match reply with
  | Resolved _ => Unavailable
  | Failed error => if notFoundClass error then Available else Error
  end.

(** The line the scheduler writes for a domain. *)
Definition line (domain : jsstring) : jsstring := domain ++ [NEWLINE].

(** Whether the outcome of a resolution is [Available]. *)
Definition isAvailable (reply : DnsOutcome) : bool :=
  match classify reply with
  | Available => true
  | _ => false
  end.

(** Whether the outcome of a resolution is [Error]. *)
Definition isError (reply : DnsOutcome) : bool :=
  match classify reply with
  | Error => true
  | _ => false
  end.

(** The object a callback is expected to return. *)
Definition probeValue (frame : ProbeFrame) (reply : DnsOutcome)
    : ProbeResult :=
  {| res_domain := probe_domain frame; res_available := isAvailable reply |}.

(** What the callback suspended on [frame] returns once the resolver has
    answered its query. *)
Definition valueOf (dns : nat -> jsstring -> DnsOutcome) (frame : ProbeFrame)
    : ProbeResult :=
  probeValue frame (dns (probe_query frame) (probe_domain frame)).

(** A promise of a batch is suspended on its own frame, or fulfilled with
    its own value. *)
Definition slot_ok (dns : nat -> jsstring -> DnsOutcome) (frame : ProbeFrame)
    (p : Promise) : Prop :=
  p = Awaiting frame \/ p = Done (fulfilled (valueOf dns frame)).

(** Pushing on a ring of capacity 3: [unshift], then [pop] when too long. *)
Definition pushRecent (domain : jsstring) (ring : list jsstring)
    : list jsstring :=
  if (3 <? js_length (domain :: ring))%Z then removelast (domain :: ring)
  else domain :: ring.

(** The ring holds the domains of the lines last written to the sink,
    newest first. *)
Definition ring_reflects_sink (w : World) : Prop :=
  map line (recentlyFound (this w)) = firstn 3 (rev (written w)).

(** A new finder with batches of 2, as [findAvailableDomains] leaves it
    for a list of 5 candidates before it calls the scheduler. *)
Definition batchDemo : World :=
  withThis (withStats (startRun 5 0))
    (freshWorld (constructor CONFIG
       {| opt_concurrentChecks := Some 2%Z; opt_timeout := None;
          opt_outputFile := None |})).

(** ** One probe on the clock *)

Module Timing.

(** When, after the call, the resolver answers, if ever. *)
Inductive DnsReply : Type :=
| repliesAfter (latency : Z) (outcome : DnsOutcome)
| neverReplies.

(** The timer [id] fires: its callback runs [controller.abort()], which
    sets the controller's flag and tells the listeners of its signal. The
    signal was given to no one, so nothing else happens. A cleared timer
    does not fire. *)
Definition fireTimer (id : nat) (w : World) : World :=
  match List.find (fun t => Nat.eqb (timeoutId t) id) (timers w) with
  | Some t =>
      withControllers (fun cs => <[controller t := true]> cs)
        (withTimers (List.filter (fun t => negb (Nat.eqb (timeoutId t) id)))
           (timersMade w) w)
  | None => w
  end.

(** What became of a call of [isDomainAvailable]. *)
Record ProbeRun : Type := {
  settledAt : option Z;
  result : option (Completion bool);
  final : World
}.

(** A call of [isDomainAvailable(domain)] made at time 0, followed until
    nothing is left to happen. The timer is due at [this.timeout]; the
    reply, if any, at its latency. *)
Definition runProbe (domain : jsstring) (reply : DnsReply) (w : World)
    : ProbeRun :=
  match isDomainAvailable_begin domain w with
  | (Throw e, w1) =>
      {| settledAt := Some 0%Z; result := Some (Throw e); final := w1 |}
  | (Normal frame, w1) =>
      let id := probe_timeoutId frame in
      match reply with
      | neverReplies =>
          {| settledAt := None; result := None; final := fireTimer id w1 |}
      | repliesAfter latency outcome =>
          let w2 :=
            if (timeout (this w) <=? latency)%Z then fireTimer id w1
            else w1 in
          let (c, w3) := isDomainAvailable_resume frame outcome w2 in
          {| settledAt := Some latency; result := Some c;
             final := fireTimer id w3 |}
      end
  end.

(** The same call up to its return, for a reply that arrives after
    [latency]: the timer has fired before the reply is handled when it was
    due by then. *)
Definition probeReturns (domain : jsstring) (latency : Z)
    (outcome : DnsOutcome) (w : World) : Completion bool * World :=
  match isDomainAvailable_begin domain w with
  | (Throw e, w1) => (Throw e, w1)
  | (Normal frame, w1) =>
      isDomainAvailable_resume frame outcome
        (if (timeout (this w) <=? latency)%Z
         then fireTimer (probe_timeoutId frame) w1
         else w1)
  end.

End Timing.

(** ** The events of a run *)

(** What happens between the start of a run and its summary: the scheduler
    starts the callback of a candidate; the reply to a suspended callback
    arrives and the callback runs to its end; a timer fires; the scheduler
    shows the progress. *)
Inductive Event : Type :=
| callbackStarts (domain : jsstring)
| replyArrives (frame : ProbeFrame) (reply : DnsOutcome)
| timerFires (id : nat)
| progressShown.

Definition happen (w : World) (event : Event) : World :=
  match event with
  | callbackStarts domain => snd (callback_begin domain w)
  | replyArrives frame reply => snd (callback_resume frame reply w)
  | timerFires id => Timing.fireTimer id w
  | progressShown => printProgress w
  end.

(** The world after a sequence of events, the first of the list first. *)
Definition replay (events : list Event) (w : World) : World :=
  fold_left happen events w.

(** The domains a sequence of events discovers, oldest first: those of the
    replies whose outcome is [Available]. *)
Definition discovered (events : list Event) : list jsstring :=
  flat_map
    (fun event =>
       match event with
       | replyArrives frame reply =>
           if isAvailable reply then [probe_domain frame] else []
       | _ => []
       end)
    events.

(** A run on a new finder: the callbacks of [a.io] and [taken.com] start,
    [a.io] is answered [ENOTFOUND] and [taken.com] with an address, a timer
    fires, progress is shown, and [b.io], [c.io] and [d.io] are answered
    as not found. *)
Definition ringEvents : list Event :=
  [ callbackStarts (js "a.io");
    callbackStarts (js "taken.com");
    replyArrives
      {| probe_domain := js "a.io"; probe_timeoutId := 0; probe_query := 0 |}
      (Failed {| code := Some (js "ENOTFOUND") |});
    replyArrives
      {| probe_domain := js "taken.com"; probe_timeoutId := 1;
         probe_query := 1 |}
      (Resolved [js "192.0.2.1"]);
    timerFires 0;
    progressShown;
    replyArrives
      {| probe_domain := js "b.io"; probe_timeoutId := 2; probe_query := 2 |}
      (Failed {| code := Some (js "ENOTFOUND") |});
    replyArrives
      {| probe_domain := js "c.io"; probe_timeoutId := 3; probe_query := 3 |}
      (Failed {| code := Some (js "ENODATA") |});
    replyArrives
      {| probe_domain := js "d.io"; probe_timeoutId := 4; probe_query := 4 |}
      (Failed {| code := Some (js "ENOTFOUND") |}) ].

(** ** The accounts of a run *)

(** The candidates of [domains] whose query, the queries being ranked from
    [rank] on, gets an answer that satisfies [p]. *)
Fixpoint selectFrom (p : DnsOutcome -> bool)
    (dns : nat -> jsstring -> DnsOutcome) (rank : nat)
    (domains : list jsstring) : list jsstring :=
  match domains with
  | [] => []
  | domain :: rest =>
      (if p (dns rank domain) then [domain] else [])
      ++ selectFrom p dns (S rank) rest
  end.

(** The domains of the suspended callbacks whose answer satisfies [p]. *)
Definition picked (p : DnsOutcome -> bool)
    (dns : nat -> jsstring -> DnsOutcome) (frames : list ProbeFrame)
    : list jsstring :=
  map probe_domain
    (List.filter
       (fun frame => p (dns (probe_query frame) (probe_domain frame)))
       frames).

(** Counters that add up: none is negative, and the domains found
    available and those in error are among the checked ones. *)
Definition counters_add_up (checked available errors : Z) : Prop :=
  (0 <= available)%Z /\ (0 <= errors)%Z /\ (available + errors <= checked)%Z.

Definition stats_add_up (w : World) : Prop :=
  counters_add_up (checked (stats (this w))) (available (stats (this w)))
    (errors (stats (this w))).

Definition frame_adds_up (f : Frame) : Prop :=
  counters_add_up (shown_checked f) (shown_available f) (shown_errors f).

(** What running the batch [batch] from [w] to [w'] must have done: the
    lines added to the sink are, in some order, those of the candidates
    answered as [Available]; each candidate was queried once, in order;
    [available] and [errors] grew by the numbers of candidates answered as
    [Available] and as [Error]. *)
Definition accounted (dns : nat -> jsstring -> DnsOutcome)
    (batch : list jsstring) (w w' : World) : Prop :=
  exists new,
    written w' = written w ++ new
    /\ Permutation new
         (map line (selectFrom isAvailable dns (length (queries w)) batch))
    /\ queries w' = queries w ++ batch
    /\ available (stats (this w'))
       = (available (stats (this w))
          + js_length
              (selectFrom isAvailable dns (length (queries w)) batch))%Z
    /\ errors (stats (this w'))
       = (errors (stats (this w))
          + js_length (selectFrom isError dns (length (queries w)) batch))%Z.

(** The candidates answered as [Available], batch by batch, the queries
    being ranked from [rank] on. *)
Fixpoint hitsByBatch (dns : nat -> jsstring -> DnsOutcome) (rank : nat)
    (todo : list (list jsstring)) : list (list jsstring) :=
  match todo with
  | [] => []
  | batch :: rest =>
      selectFrom isAvailable dns rank batch
      :: hitsByBatch dns (rank + length batch) rest
  end.

(** The timers of a world are well numbered: their identifiers are
    pairwise distinct and below the number of timers made. *)
Definition timers_numbered (w : World) : Prop :=
  List.NoDup (map timeoutId (timers w))
  /\ Forall (fun t => timeoutId t < timersMade w) (timers w).

(** ** The command line *)

Module Cli.

(** The object [parseArguments] builds. [domain] and [outputFile] are
    [None] for [null] and [undefined]; the two numbers are what
    [parseInt(...) || default] leaves. *)
Record Options : Type := {
  domain : option jsstring;
  concurrentChecks : jsnumber;
  timeout : jsnumber;
  outputFile : option jsstring;
  help : bool
}.

Definition withDomain (v : option jsstring) (o : Options) : Options :=
  {| domain := v; concurrentChecks := concurrentChecks o;
     timeout := timeout o; outputFile := outputFile o; help := help o |}.

Definition withConcurrentChecks (v : jsnumber) (o : Options) : Options :=
  {| domain := domain o; concurrentChecks := v; timeout := timeout o;
     outputFile := outputFile o; help := help o |}.

Definition withTimeout (v : jsnumber) (o : Options) : Options :=
  {| domain := domain o; concurrentChecks := concurrentChecks o;
     timeout := v; outputFile := outputFile o; help := help o |}.

Definition withOutputFile (v : option jsstring) (o : Options) : Options :=
  {| domain := domain o; concurrentChecks := concurrentChecks o;
     timeout := timeout o; outputFile := v; help := help o |}.

Definition withHelp (o : Options) : Options :=
  {| domain := domain o; concurrentChecks := concurrentChecks o;
     timeout := timeout o; outputFile := outputFile o; help := true |}.

(** [number || fallback]: [NaN] and zero are falsy. *)
Definition orDefault (number : jsnumber) (fallback : Z) : jsnumber :=
  match number with
  | NaN => Finite fallback
  | Finite n => if (n =? 0)%Z then Finite fallback else Finite n
  | PlusInfinity => PlusInfinity
  | MinusInfinity => MinusInfinity
  end.

(** A number is truthy unless it is [NaN] or zero. *)
Definition truthy (number : jsnumber) : bool :=
  match number with
  | NaN => false
  | Finite n => negb (n =? 0)%Z
  | PlusInfinity => true
  | MinusInfinity => true
  end.

(** [!value] for a string that may be [null] or [undefined]. *)
Definition falsy (value : option jsstring) : bool :=
  match value with
  | Some (_ :: _) => false
  | Some [] => true
  | None => true
  end.

(** [arg.startsWith('-')]. *)
Definition startsWithDash (arg : jsstring) : bool :=
  match arg with
  | c :: _ => Ascii.eqb c "-"%char
  | [] => false
  end.

(** [case short: case long:] of the [switch]. *)
Definition isFlag (arg : jsstring) (short long : string) : bool :=
  strictEq arg (js short) || strictEq arg (js long).

Section Parsing.

Variable cfg : Configuration.

(** The built-in [parseInt], applied to a string or to [undefined]. *)
Variable parseInt : option jsstring -> jsnumber.

(** The [for] loop of [parseArguments] from the argument at hand on. A flag
    that takes a value reads [args[++i]], which is [undefined] past the
    end, and the loop goes on after that value. *)
Fixpoint parseFrom (args : list jsstring) (options : Options) : Options :=
  match args with
  | [] => options
  | arg :: rest =>
      if isFlag arg "-d" "--domain" then
        match rest with
        | value :: rest' => parseFrom rest' (withDomain (Some value) options)
        | [] => withDomain None options
        end
      else if isFlag arg "-c" "--concurrent" then
        match rest with
        | value :: rest' =>
            parseFrom rest'
              (withConcurrentChecks
                 (orDefault (parseInt (Some value)) (CONCURRENT_CHECKS cfg))
                 options)
        | [] =>
            withConcurrentChecks
              (orDefault (parseInt None) (CONCURRENT_CHECKS cfg)) options
        end
      else if isFlag arg "-t" "--timeout" then
        match rest with
        | value :: rest' =>
            parseFrom rest'
              (withTimeout (orDefault (parseInt (Some value)) (TIMEOUT cfg))
                 options)
        | [] => withTimeout (orDefault (parseInt None) (TIMEOUT cfg)) options
        end
      else if isFlag arg "-o" "--output" then
        match rest with
        | value :: rest' =>
            parseFrom rest' (withOutputFile (Some value) options)
        | [] => withOutputFile None options
        end
      else if isFlag arg "-h" "--help" then parseFrom rest (withHelp options)
      else
        parseFrom rest
          (if falsy (domain options) && negb (startsWithDash arg)
           then withDomain (Some arg) options else options)
  end.

(** [parseArguments()], [args] being [process.argv.slice(2)]. *)
Definition parseArguments (args : list jsstring) : Options :=
  parseFrom args
    {| domain := None;
       concurrentChecks := Finite (CONCURRENT_CHECKS cfg);
       timeout := Finite (TIMEOUT cfg);
       outputFile := Some (OUTPUT_FILE cfg);
       help := false |}.

End Parsing.

(** The parsed options as [main] takes them, when both numbers are
    finite. *)
Definition toMain (o : Options) : option ParsedArgs :=
  match concurrentChecks o, timeout o with
  | Finite c, Finite t =>
      Some {| arg_domain := domain o; arg_concurrentChecks := c;
              arg_timeout := t; arg_outputFile := outputFile o;
              arg_help := help o |}
  | _, _ => None
  end.

(** A [parseInt] for the examples: decimal digits, with an optional sign,
    up to the first other character; [NaN] when there is no digit.
    White space, a hexadecimal prefix and values beyond the finite range,
    which the built-in also handles, are left out. *)
Fixpoint digitsValue (acc : Z) (seen : bool) (s : jsstring) : jsnumber :=
  match s with
  | c :: rest =>
      let n := Z.of_nat (nat_of_ascii c) in
      if (48 <=? n)%Z && (n <=? 57)%Z
      then digitsValue (10 * acc + (n - 48)) true rest
      else if seen then Finite acc else NaN
  | [] => if seen then Finite acc else NaN
  end.

Definition negate (x : jsnumber) : jsnumber :=
  match x with
  | Finite n => Finite (- n)
  | PlusInfinity => MinusInfinity
  | MinusInfinity => PlusInfinity
  | NaN => NaN
  end.

Definition parseDecimal (value : option jsstring) : jsnumber :=
  match value with
  | None => NaN
  | Some (c :: rest) =>
      if Ascii.eqb c "-"%char then negate (digitsValue 0 false rest)
      else if Ascii.eqb c "+"%char then digitsValue 0 false rest
      else digitsValue 0 false (c :: rest)
  | Some [] => NaN
  end.

End Cli.

(** * Properties *)

(** ** Arithmetic on indices *)

Ltac case_Z :=
  repeat match goal with
  | |- context [(?a <? ?b)%Z] => destruct (Z.ltb_spec a b)
  | |- context [(?a <=? ?b)%Z] => destruct (Z.leb_spec a b)
  | |- context [(?a =? ?b)%Z] => destruct (Z.eqb_spec a b)
  end; try lia.

Lemma slice_bounds {A : Type} (l : list A) (a b : nat) :
  a <= b <= length l ->
  slice l (Z.of_nat a) (Z.of_nat b) = firstn (b - a) (skipn a l).
Proof.
  intros H. unfold slice, relativeIndex, js_length. case_Z.
  f_equal; [lia|]. f_equal. lia.
Qed.

Lemma slice_prefix {A : Type} (pre rest : list A) :
  slice (pre ++ rest) 0 (js_length pre) = pre.
Proof.
  unfold js_length.
  rewrite (slice_bounds _ 0 (length pre)) by (rewrite length_app; lia).
  rewrite Nat.sub_0_r. simpl. apply take_app_length.
Qed.

Lemma sliceFrom_suffix {A : Type} (pre : list A) (c : A) (rest : list A) :
  sliceFrom (pre ++ c :: rest) (js_length pre + 1) = rest.
Proof.
  unfold sliceFrom, js_length.
  replace (Z.of_nat (length pre) + 1)%Z with (Z.of_nat (length (pre ++ [c])))
    by (rewrite length_app; simpl; lia).
  replace (pre ++ c :: rest) with ((pre ++ [c]) ++ rest)
    by (rewrite <- app_assoc; reflexivity).
  rewrite slice_bounds by (rewrite !length_app; simpl; lia).
  rewrite drop_app_length. apply firstn_all2. rewrite !length_app. simpl. lia.
Qed.

Lemma charAt_middle (pre : jsstring) (c : ascii) (rest : jsstring) :
  charAt (pre ++ c :: rest) (js_length pre) = Some c.
Proof.
  unfold charAt, js_length. case_Z.
  rewrite Nat2Z.id. rewrite nth_error_app2 by lia. rewrite Nat.sub_diag.
  reflexivity.
Qed.

(** Pushing the expansions of every character in turn. *)
Lemma fold_left_push {A : Type} (f : A -> list jsstring)
    (step : list jsstring -> A -> list jsstring) (l : list A) :
  (forall acc a, In a l -> step acc a = acc ++ f a) ->
  forall acc, fold_left step l acc = acc ++ flat_map f l.
Proof.
  induction l as [|a l IH]; intros Hstep acc; simpl.
  - now rewrite app_nil_r.
  - rewrite Hstep by now left. rewrite IH by (intros; apply Hstep; now right).
    now rewrite app_assoc.
Qed.

Lemma fold_left_over_map {A B C : Type} (g : A -> B) (step : C -> B -> C)
    (l : list A) :
  forall acc, fold_left step (map g l) acc
              = fold_left (fun c a => step c (g a)) l acc.
Proof.
  induction l as [|a l IH]; intros acc; simpl; [reflexivity | apply IH].
Qed.

Lemma map_flat_map {A B C : Type} (f : B -> C) (g : A -> list B) (l : list A) :
  map f (flat_map g l) = flat_map (fun a => map f (g a)) l.
Proof.
  induction l as [|a l IH]; simpl; [reflexivity|].
  now rewrite map_app, IH.
Qed.

Lemma generateWithWildcard_expansions (alphabet : jsstring) :
  forall (rest pre : jsstring) (fuel : nat) (domains : list jsstring),
    length rest < fuel ->
    generateWithWildcard fuel (split_chars alphabet) (pre ++ rest)
      (js_length pre) domains
    = domains ++ map (app pre) (expansions alphabet rest).
Proof.
  induction rest as [|c rest IH]; intros pre fuel domains Hfuel;
    (destruct fuel as [|fuel]; [simpl in Hfuel; lia|]); simpl.
  - rewrite app_nil_r. case_Z. reflexivity.
  - unfold js_length at 2. rewrite length_app. simpl length.
    unfold js_length at 1. case_Z.
    rewrite charAt_middle.
    assert (Hnext : forall a : ascii,
               (js_length pre + 1)%Z = js_length (pre ++ [a])).
    { intros a. unfold js_length. rewrite length_app. simpl. lia. }
    destruct (Ascii.eqb c WILDCARD) eqn:Ec.
    + unfold split_chars at 2. rewrite fold_left_over_map.
      rewrite (fold_left_push
                 (fun a => map (app (pre ++ [a])) (expansions alphabet rest))).
      * f_equal. rewrite map_flat_map. apply flat_map_ext. intros a.
        rewrite map_map. apply map_ext. intros s. now rewrite <- app_assoc.
      * intros acc a _. rewrite slice_prefix, sliceFrom_suffix.
        rewrite (Hnext a). simpl app at 2.
        replace (pre ++ a :: rest) with ((pre ++ [a]) ++ rest)
          by now rewrite <- app_assoc.
        apply IH. simpl in Hfuel. lia.
    + rewrite (Hnext c).
      replace (pre ++ c :: rest) with ((pre ++ [c]) ++ rest)
        by now rewrite <- app_assoc.
      rewrite IH by (simpl in Hfuel; lia).
      f_equal. rewrite map_map. apply map_ext. intros s.
      now rewrite <- app_assoc.
Qed.

(** ** The enumeration [expansions] *)

Lemma wildcards_cons (c : ascii) (pattern : jsstring) :
  wildcards (c :: pattern)
  = if Ascii.eqb c WILDCARD then S (wildcards pattern) else wildcards pattern.
Proof.
  unfold wildcards. simpl. destruct (Ascii.eqb_spec c WILDCARD) as [->|Hne].
  - now destruct (ascii_dec WILDCARD WILDCARD).
  - now destruct (ascii_dec c WILDCARD).
Qed.

Lemma length_flat_map_const {A B : Type} (f : A -> list B) (n : nat)
    (l : list A) :
  (forall a, length (f a) = n) -> length (flat_map f l) = length l * n.
Proof.
  intros Hf. induction l as [|a l IH]; simpl; [reflexivity|].
  rewrite length_app, Hf, IH. lia.
Qed.

Lemma expansions_length (alphabet pattern : jsstring) :
  length (expansions alphabet pattern) = length alphabet ^ wildcards pattern.
Proof.
  induction pattern as [|c pattern IH]; [reflexivity|].
  rewrite wildcards_cons. simpl. destruct (Ascii.eqb c WILDCARD).
  - rewrite (length_flat_map_const _ (length (expansions alphabet pattern)))
      by (intros a; apply length_map).
    rewrite IH. simpl. lia.
  - now rewrite length_map.
Qed.

Lemma NoDup_map_cons (a : ascii) (l : list jsstring) :
  List.NoDup l -> List.NoDup (map (cons a) l).
Proof.
  induction 1 as [|s l Hs _ IH]; simpl; constructor; [|exact IH].
  rewrite in_map_iff. intros (s' & Heq & Hin).
  injection Heq as ->. contradiction.
Qed.

Lemma NoDup_flat_map_cons (alphabet : jsstring) (l : list jsstring) :
  List.NoDup alphabet -> List.NoDup l ->
  List.NoDup (flat_map (fun a => map (cons a) l) alphabet).
Proof.
  intros Ha Hl.
  induction Ha as [|a alphabet Hnotin _ IH]; simpl; [constructor|].
  apply List.NoDup_app; [now apply NoDup_map_cons | exact IH |].
  intros s Hs Hs'. rewrite in_map_iff in Hs. destruct Hs as (t & <- & _).
  rewrite in_flat_map in Hs'. destruct Hs' as (b & Hb & Hin).
  rewrite in_map_iff in Hin. destruct Hin as (t' & Heq & _).
  injection Heq as -> _. contradiction.
Qed.

Lemma expansions_NoDup (alphabet pattern : jsstring) :
  List.NoDup alphabet -> List.NoDup (expansions alphabet pattern).
Proof.
  intros Ha. induction pattern as [|c pattern IH]; simpl.
  - repeat constructor. intros [].
  - destruct (Ascii.eqb c WILDCARD).
    + now apply NoDup_flat_map_cons.
    + now apply NoDup_map_cons.
Qed.

Lemma expansions_instantiate (alphabet pattern : jsstring) :
  Forall (instantiates alphabet pattern) (expansions alphabet pattern).
Proof.
  induction pattern as [|c pattern IH]; simpl.
  - repeat constructor.
  - rewrite List.Forall_forall in IH |- *.
    destruct (Ascii.eqb c WILDCARD) eqn:Ec; intros s Hs.
    + rewrite in_flat_map in Hs. destruct Hs as (a & Ha & Hs).
      rewrite in_map_iff in Hs. destruct Hs as (t & <- & Ht).
      constructor; [now rewrite Ec | now apply IH].
    + rewrite in_map_iff in Hs. destruct Hs as (t & <- & Ht).
      constructor; [now rewrite Ec | now apply IH].
Qed.

Lemma includes_wildcards (pattern : jsstring) :
  includes WILDCARD pattern = false <-> wildcards pattern = 0.
Proof.
  induction pattern as [|c pattern IH]; [now split|].
  rewrite wildcards_cons. unfold includes in *. cbn [existsb].
  rewrite (Ascii.eqb_sym WILDCARD c).
  destruct (Ascii.eqb c WILDCARD); simpl; [split; discriminate | exact IH].
Qed.

Lemma expansions_no_wildcard (alphabet pattern : jsstring) :
  wildcards pattern = 0 -> expansions alphabet pattern = [pattern].
Proof.
  induction pattern as [|c pattern IH]; [reflexivity|].
  rewrite wildcards_cons. simpl.
  destruct (Ascii.eqb c WILDCARD); [discriminate|].
  intros H. now rewrite IH.
Qed.

Lemma instantiates_perm (alphabet alphabet' pattern candidate : jsstring) :
  Permutation alphabet alphabet' ->
  instantiates alphabet' pattern candidate ->
  instantiates alphabet pattern candidate.
Proof.
  intros Hp. unfold instantiates. intros H.
  induction H as [|p c pattern candidate Hpc _ IH]; constructor; [|exact IH].
  destruct (Ascii.eqb p WILDCARD); [|exact Hpc].
  apply Permutation_in with (l := alphabet'); [now symmetry | exact Hpc].
Qed.

(** ** [generateDomains] *)

(** The call made by [generateDomains] has fuel to spare. *)
Lemma generateWithWildcard_top (alphabet baseDomain : jsstring) :
  generateWithWildcard (S (length baseDomain)) (split_chars alphabet)
    baseDomain 0 []
  = expansions alphabet baseDomain.
Proof.
  pose proof (generateWithWildcard_expansions alphabet baseDomain []
                (S (length baseDomain)) [] (Nat.lt_succ_diag_r _)) as H.
  change ([] ++ baseDomain) with baseDomain in H.
  change (js_length (@nil ascii)) with 0%Z in H.
  rewrite H. cbn [app]. clear H.
  induction (expansions alphabet baseDomain) as [|s l IH]; [reflexivity|].
  cbn [map app]. now rewrite IH.
Qed.

Section GeneratorFacts.

Variable cfg : Configuration.
Variable sort_random : list jsstring -> list jsstring.
Hypothesis sort_random_perm : forall l, Permutation l (sort_random l).

(** The shuffled array of characters is the split of a rearranged
    alphabet. *)
Lemma sort_random_split (alphabet : jsstring) :
  exists alphabet',
    sort_random (split_chars alphabet) = split_chars alphabet'
    /\ Permutation alphabet alphabet'.
Proof using sort_random_perm.
  destruct (Permutation_map_inv (fun c => [c]) alphabet
              (l1 := sort_random (split_chars alphabet)))
    as (alphabet' & Heq & Hp).
  - symmetry. apply sort_random_perm.
  - exists alphabet'. split; [exact Heq | exact Hp].
Qed.

(** The generator returns the depth-first enumeration over the alphabet in
    the order the sort left it, or as configured when nothing is shuffled. *)
Lemma generateDomains_expansions (baseDomain : jsstring)
    (randomize : option bool) :
  exists alphabet',
    Permutation (ALPHABET cfg) alphabet'
    /\ (defaultArg true randomize = false -> alphabet' = ALPHABET cfg)
    /\ generateDomains cfg sort_random baseDomain randomize
       = expansions alphabet' baseDomain.
Proof using sort_random_perm.
  unfold generateDomains.
  destruct (includes WILDCARD baseDomain) eqn:Hinc; cbn [negb].
  - destruct (defaultArg true randomize).
    + destruct (sort_random_split (ALPHABET cfg)) as (alphabet' & -> & Hp).
      exists alphabet'. repeat split; [exact Hp | discriminate |].
      apply generateWithWildcard_top.
    + exists (ALPHABET cfg). repeat split; [reflexivity|].
      apply generateWithWildcard_top.
  - exists (ALPHABET cfg). repeat split; [reflexivity|].
    symmetry. apply expansions_no_wildcard. now apply includes_wildcards.
Qed.

End GeneratorFacts.

(** ** The prober and the callback *)

Lemma isDomainAvailable_resume_eq (frame : ProbeFrame) (reply : DnsOutcome)
    (w : World) :
  isDomainAvailable_resume frame reply w
  = match reply with
    | Resolved _ => (Normal false, snd (clearTimeout (probe_timeoutId frame) w))
    | Failed error =>
        if notFoundClass error then (Normal true, w)
        else (Normal false, withThis (withStats incErrors) w)
    end.
Proof.
  destruct reply as [records|error]; [reflexivity|].
  unfold isDomainAvailable_resume, try_catch, notFoundClass. cbn.
  now destruct (codeIs error "ENOTFOUND" || codeIs error "ENODATA").
Qed.

Lemma callback_begin_eq (domain : jsstring) (w : World) :
  fst (callback_begin domain w)
  = Normal {| probe_domain := domain; probe_timeoutId := timersMade w;
              probe_query := length (queries w) |}.
Proof. reflexivity. Qed.

Lemma callback_begin_effect (domain : jsstring) (w : World) :
  let w' := snd (callback_begin domain w) in
  queries w' = queries w ++ [domain]
  /\ stats (this w') = stats (this w)
  /\ concurrentChecks (this w') = concurrentChecks (this w)
  /\ recentlyFound (this w') = recentlyFound (this w)
  /\ written w' = written w.
Proof. cbn. repeat split. Qed.

Lemma callback_resume_effect (frame : ProbeFrame) (reply : DnsOutcome)
    (w : World) :
  let w' := snd (callback_resume frame reply w) in
  fst (callback_resume frame reply w) = Normal (probeValue frame reply)
  /\ queries w' = queries w
  /\ concurrentChecks (this w') = concurrentChecks (this w)
  /\ total (stats (this w')) = total (stats (this w))
  /\ checked (stats (this w')) = (checked (stats (this w)) + 1)%Z
  /\ available (stats (this w'))
     = (available (stats (this w)) + if isAvailable reply then 1 else 0)%Z
  /\ errors (stats (this w'))
     = (errors (stats (this w)) + if isError reply then 1 else 0)%Z
  /\ written w'
     = written w ++ (if isAvailable reply then [line (probe_domain frame)]
                     else [])
  /\ recentlyFound (this w')
     = if isAvailable reply
       then pushRecent (probe_domain frame) (recentlyFound (this w))
       else recentlyFound (this w).
Proof.
  unfold callback_resume, bind, probeValue, isAvailable, isError, classify.
  rewrite isDomainAvailable_resume_eq.
  destruct reply as [records|error].
  - cbn. rewrite app_nil_r, !Z.add_0_r. repeat split; reflexivity.
  - destruct (notFoundClass error); cbn.
    + unfold pushRecent, js_length. cbn [length].
      destruct (3 <? Z.of_nat (S (length (recentlyFound (this w)))))%Z;
        cbn; rewrite !Z.add_0_r; repeat split; reflexivity.
    + rewrite app_nil_r, !Z.add_0_r. repeat split; reflexivity.
Qed.

(** ** One batch *)

Lemma rtc_run_step_trans (w1 w2 w3 : World) :
  rtc run_step w1 w2 -> rtc run_step w2 w3 -> rtc run_step w1 w3.
Proof. apply rtc_trans. Qed.

(** Starting the callbacks of a batch: one suspended promise per domain, one
    query per domain, in order; the counters are left alone. *)
Lemma launch_all (batch : list jsstring) :
  forall (promises : list Promise) (w : World),
  exists (frames : list ProbeFrame) (w' : World),
    fold_left launch batch (promises, w)
    = (promises ++ map Awaiting frames, w')
    /\ map probe_domain frames = batch
    /\ queries w' = queries w ++ batch
    /\ stats (this w') = stats (this w)
    /\ concurrentChecks (this w') = concurrentChecks (this w)
    /\ rtc run_step w w'
    /\ map probe_query frames = seq (length (queries w)) (length batch).
Proof.
  induction batch as [|domain batch IH]; intros promises w.
  - exists [], w. cbn. rewrite !app_nil_r. repeat split. apply rtc_refl.
  - cbn [fold_left]. unfold launch at 2.
    rewrite (surjective_pairing (callback_begin domain w)), callback_begin_eq.
    destruct (callback_begin_effect domain w) as (Hq & Hs & Hc & _).
    destruct (IH (promises ++
                  [Awaiting {| probe_domain := domain;
                               probe_timeoutId := timersMade w;
                               probe_query := length (queries w) |}])
                 (snd (callback_begin domain w)))
      as (frames & w' & Heq & Hd & Hq' & Hs' & Hc' & Hsteps & Hn).
    eexists (_ :: frames), w'. rewrite Heq. cbn [map].
    rewrite <- app_assoc. cbn [app]. split; [reflexivity|].
    split; [now rewrite Hd|].
    split; [now rewrite Hq', Hq, <- app_assoc|].
    split; [congruence|]. split; [congruence|].
    split; [eapply rtc_l; [apply (step_launch domain w) | exact Hsteps]|].
    cbn [probe_query length seq]. f_equal.
    rewrite Hn, Hq, length_app. cbn [length]. f_equal. lia.
Qed.

Lemma suspended_lookup (frames : list ProbeFrame) :
  forall (k slot : nat) (frame : ProbeFrame),
    In (slot, frame) (suspended k (map Awaiting frames))
    <-> k <= slot /\ frames !! (slot - k) = Some frame.
Proof.
  induction frames as [|f frames IH]; intros k slot frame; cbn.
  - split; [tauto | intros [_ H]; discriminate].
  - rewrite IH. split.
    + intros [Heq | [Hle Hl]].
      * injection Heq as -> ->. rewrite Nat.sub_diag. now split.
      * split; [lia|]. replace (slot - k) with (S (slot - S k)) by lia.
        exact Hl.
    + intros [Hle Hl]. destruct (slot - k) as [|j] eqn:Hj.
      * left. cbn in Hl. injection Hl as ->. f_equal. lia.
      * right. split; [lia|]. replace (slot - S k) with j by lia. exact Hl.
Qed.

Lemma allSettled_map_Done (results : list Settlement) :
  allSettled (map Done results) = Some results.
Proof.
  induction results as [|s results IH]; cbn; [reflexivity|]. now rewrite IH.
Qed.

Section BatchFacts.

Variable dns : nat -> jsstring -> DnsOutcome.
Variable arrival : list (nat * ProbeFrame) -> list (nat * ProbeFrame).
Hypothesis arrival_perm : forall l, Permutation l (arrival l).

Local Abbreviation valueOf := (valueOf dns).
Local Abbreviation slot_ok := (slot_ok dns).

Lemma settle_eq (promises : list Promise) (w : World) (slot : nat)
    (frame : ProbeFrame) :
  settle dns (promises, w) (slot, frame)
  = (<[slot := Done (fulfilled (valueOf frame))]> promises,
     snd (callback_resume frame
            (dns (probe_query frame) (probe_domain frame)) w)).
Proof.
  unfold settle.
  rewrite (surjective_pairing (callback_resume frame _ w)).
  destruct (callback_resume_effect frame
              (dns (probe_query frame) (probe_domain frame)) w) as (-> & _).
  reflexivity.
Qed.

(** The replies of a batch, in any order: every promise named in the
    order ends fulfilled with its own value, each reply counts one check. *)
Lemma settle_all (frames : list ProbeFrame) :
  forall (order : list (nat * ProbeFrame)) (promises : list Promise)
         (w : World),
    Forall (fun t => frames !! fst t = Some (snd t)) order ->
    Forall2 slot_ok frames promises ->
    exists (promises' : list Promise) (w' : World),
      fold_left (settle dns) order (promises, w) = (promises', w')
      /\ Forall2 slot_ok frames promises'
      /\ (forall k frame,
            frames !! k = Some frame ->
            promises !! k = Some (Done (fulfilled (valueOf frame)))
            \/ In (k, frame) order ->
            promises' !! k = Some (Done (fulfilled (valueOf frame))))
      /\ queries w' = queries w
      /\ concurrentChecks (this w') = concurrentChecks (this w)
      /\ total (stats (this w')) = total (stats (this w))
      /\ checked (stats (this w'))
         = (checked (stats (this w)) + js_length order)%Z
      /\ rtc run_step w w'.
Proof.
  induction order as [|[slot frame] order IH]; intros promises w Hin Hok.
  - exists promises, w. cbn. rewrite Z.add_0_r.
    repeat split; [exact Hok | | apply rtc_refl].
    intros k frame _ [H | []]. exact H.
  - cbn [fold_left]. rewrite settle_eq.
    apply List.Forall_cons_iff in Hin. destruct Hin as [Hslot Hin].
    cbn [fst snd] in Hslot.
    set (reply := dns (probe_query frame) (probe_domain frame)) in *.
    set (w1 := snd (callback_resume frame reply w)).
    destruct (callback_resume_effect frame reply w)
      as (_ & Hq & Hc & Ht & Hch & _).
    fold w1 in Hq, Hc, Ht, Hch.
    assert (Hok1 : Forall2 slot_ok frames
                     (<[slot := Done (fulfilled (valueOf frame))]> promises)).
    { rewrite <- (list_insert_id frames slot frame Hslot).
      apply Forall2_insert; [exact Hok | now right]. }
    destruct (IH _ w1 Hin Hok1)
      as (promises' & w' & Heq & Hok' & Hdone & Hq' & Hc' & Ht' & Hch' & Hst).
    exists promises', w'. split; [exact Heq|]. split; [exact Hok'|].
    split.
    { intros k frame0 Hk Hcase. apply (Hdone k frame0 Hk).
      assert (Hlen : slot < length promises).
      { rewrite <- (Forall2_length _ _ _ Hok).
        apply lookup_lt_is_Some. now exists frame. }
      destruct (Nat.eq_dec k slot) as [->|Hne].
      - left. assert (frame0 = frame) by congruence. subst frame0.
        now apply list_lookup_insert_eq.
      - destruct Hcase as [Hp | [Heq0 | Hrest]].
        + left. rewrite list_lookup_insert_ne by congruence. exact Hp.
        + congruence.
        + now right. }
    split; [congruence|]. split; [congruence|]. split; [congruence|].
    split.
    { rewrite Hch', Hch. unfold js_length. cbn [length]. lia. }
    eapply rtc_l; [apply (step_settle frame reply w) | exact Hst].
Qed.

(** A whole batch. *)
Lemma runBatch_spec (batch : list jsstring) (w : World) :
  exists (frames : list ProbeFrame) (w' : World),
    runBatch dns arrival batch w
    = (map (fun frame => Done (fulfilled (valueOf frame))) frames, w')
    /\ map probe_domain frames = batch
    /\ queries w' = queries w ++ batch
    /\ concurrentChecks (this w') = concurrentChecks (this w)
    /\ total (stats (this w')) = total (stats (this w))
    /\ checked (stats (this w'))
       = (checked (stats (this w)) + js_length batch)%Z
    /\ rtc run_step w w'
    /\ map probe_query frames = seq (length (queries w)) (length batch).
Proof using arrival_perm.
  unfold runBatch.
  destruct (launch_all batch [] w)
    as (frames & w1 & -> & Hd & Hq & Hs & Hc & Hst & Hn).
  cbn [app].
  set (tasks := suspended 0 (map Awaiting frames)).
  assert (Hin : Forall (fun t => frames !! fst t = Some (snd t))
                  (arrival tasks)).
  { apply List.Forall_forall. intros [slot frame] Ht.
    apply (Permutation_in _ (Permutation_sym (arrival_perm tasks))) in Ht.
    apply suspended_lookup in Ht. cbn. destruct Ht as [_ Ht].
    now rewrite Nat.sub_0_r in Ht. }
  assert (Hok : Forall2 slot_ok frames (map Awaiting frames)).
  { clear. induction frames; cbn; constructor; [now left | assumption]. }
  destruct (settle_all frames (arrival tasks) _ w1 Hin Hok)
    as (promises' & w' & -> & Hok' & Hdone & Hq' & Hc' & Ht' & Hch' & Hst').
  exists frames, w'. split.
  { f_equal. apply list_eq. intros k.
    change (map (fun frame => Done (fulfilled (valueOf frame))) frames)
      with ((fun frame => Done (fulfilled (valueOf frame))) <$> frames).
    rewrite list_lookup_fmap.
    destruct (frames !! k) as [frame|] eqn:Hk; cbn.
    - apply (Hdone k frame Hk). right.
      apply (Permutation_in _ (arrival_perm tasks)).
      apply suspended_lookup. split; [lia|]. now rewrite Nat.sub_0_r.
    - apply lookup_ge_None. rewrite <- (Forall2_length _ _ _ Hok').
      now apply lookup_ge_None. }
  split; [exact Hd|]. split; [congruence|]. split; [congruence|].
  split; [congruence|]. split.
  { rewrite Hch', Hs. f_equal. unfold js_length. f_equal.
    rewrite <- (Permutation_length (arrival_perm tasks)).
    assert (Hlen : forall k, length (suspended k (map Awaiting frames))
                             = length frames).
    { clear. induction frames; intros k; cbn; [reflexivity|].
      now rewrite IHframes. }
    unfold tasks. rewrite Hlen, <- Hd. now rewrite length_map. }
  split; [eapply rtc_run_step_trans; eassumption | exact Hn].
Qed.

End BatchFacts.

(** ** The loop over the batches *)

Lemma slice_batch {A : Type} (l : list A) (n : nat) (size : Z) :
  n < length l -> (1 <= size)%Z ->
  slice l (Z.of_nat n) (Z.of_nat n + size)
  = firstn (Z.to_nat size) (skipn n l).
Proof.
  intros Hn Hsize. unfold slice, relativeIndex, js_length. case_Z.
  - replace (Z.to_nat (Z.min (Z.of_nat n) (Z.of_nat (length l)))) with n by lia.
    destruct (Z.le_gt_cases (Z.of_nat n + size) (Z.of_nat (length l))).
    + f_equal. lia.
    + rewrite !firstn_all2; [reflexivity | |]; rewrite length_skipn; lia.
Qed.

Lemma batches_concat (size : Z) (domains : list jsstring) :
  (1 <= size)%Z ->
  forall (fuel n : nat),
    length domains - n <= fuel ->
    concat (batches fuel size domains (Z.of_nat n)) = skipn n domains.
Proof.
  intros Hsize. induction fuel as [|fuel IH]; intros n Hfuel.
  - cbn. unfold js_length. case_Z. symmetry. apply skipn_all2. lia.
  - cbn [batches]. unfold js_length. case_Z.
    + rewrite slice_batch by lia. cbn [concat].
      replace (Z.of_nat n + size)%Z with (Z.of_nat (n + Z.to_nat size)) by lia.
      rewrite IH by lia.
      etransitivity; [|apply (firstn_skipn (Z.to_nat size))].
      f_equal. rewrite skipn_skipn. f_equal. lia.
    + symmetry. apply skipn_all2. lia.
Qed.

Lemma batches_sizes (size : Z) (domains : list jsstring) :
  (1 <= size)%Z ->
  forall (fuel n : nat),
    Forall (fun batch => 1 <= length batch /\ (js_length batch <= size)%Z)
      (batches fuel size domains (Z.of_nat n)).
Proof.
  intros Hsize. induction fuel as [|fuel IH]; intros n.
  - cbn. destruct (_ <? _)%Z; constructor.
  - cbn [batches]. case_Z; [|constructor]. unfold js_length in *.
    constructor.
    + rewrite slice_batch by lia.
      rewrite length_firstn, length_skipn. lia.
    + replace (Z.of_nat n + size)%Z with (Z.of_nat (n + Z.to_nat size)) by lia.
      apply IH.
Qed.

Section LoopFacts.

Variable dns : nat -> jsstring -> DnsOutcome.
Variable arrival : list (nat * ProbeFrame) -> list (nat * ProbeFrame).
Variable roundedFill : Z -> Z -> jsnumber.
Hypothesis arrival_perm : forall l, Permutation l (arrival l).

(** Rounding is monotone, so for counters with [0 <= checked <= total] and
    [0 < total] the filled width of the bar is between 0 and 40. *)
Hypothesis roundedFill_in_range :
  forall c t, (0 <= c <= t)%Z -> (0 < t)%Z ->
    exists n, roundedFill c t = Finite n /\ (0 <= n <= 40)%Z.

Local Abbreviation settled := (fun frame => fulfilled (valueOf dns frame)).

(** With the counters in range the bar is built and the snapshot printed. *)
Lemma displayProgress_in_range (w : World) :
  (0 <= checked (stats (this w)) <= total (stats (this w)))%Z ->
  (0 < total (stats (this w)))%Z ->
  displayProgress roundedFill w = (Normal tt, printProgress w).
Proof using roundedFill_in_range.
  intros Hrange Hpos. unfold displayProgress.
  destruct (roundedFill_in_range _ _ Hrange Hpos) as (n & -> & Hn).
  cbn. case_Z. reflexivity.
Qed.

(** A turn that ends leaves the batch size as it was. *)
Lemma turn_concurrentChecks (batch : list jsstring)
    (results : list Settlement) (w : World)
    (c : Completion (list Settlement)) (w' : World) :
  turn dns arrival roundedFill batch results w = Some (c, w') ->
  concurrentChecks (this w') = concurrentChecks (this w).
Proof using arrival_perm.
  unfold turn.
  destruct (runBatch_spec dns arrival arrival_perm batch w)
    as (frames & w1 & -> & _ & _ & Hc & _).
  rewrite <- (map_map settled Done), allSettled_map_Done.
  destruct (_ || _); [|now intros [= <- <-]].
  unfold displayProgress. destruct (_ && _); now intros [= <- <-].
Qed.

(** One turn of the loop, on counters that stay in range: it ends without
    throwing, with every promise fulfilled. *)
Lemma turn_spec (batch : list jsstring) (results : list Settlement)
    (w : World) :
  (0 <= checked (stats (this w)))%Z ->
  (checked (stats (this w)) + js_length batch <= total (stats (this w)))%Z ->
  (0 < total (stats (this w)))%Z ->
  exists (frames : list ProbeFrame) (w' : World),
    turn dns arrival roundedFill batch results w
    = Some (Normal (results ++ map settled frames), w')
    /\ map probe_domain frames = batch
    /\ queries w' = queries w ++ batch
    /\ concurrentChecks (this w') = concurrentChecks (this w)
    /\ total (stats (this w')) = total (stats (this w))
    /\ checked (stats (this w'))
       = (checked (stats (this w)) + js_length batch)%Z
    /\ rtc run_step w w'
    /\ map probe_query frames = seq (length (queries w)) (length batch).
Proof using arrival_perm roundedFill_in_range.
  intros Hch0 Hroom Hpos. unfold turn.
  destruct (runBatch_spec dns arrival arrival_perm batch w)
    as (frames & w1 & -> & Hd & Hq & Hc & Ht & Hch & Hst & Hn).
  rewrite <- (map_map settled Done), allSettled_map_Done.
  destruct ((Z.rem (checked (stats (this w1))) 5 =? 0)%Z
            || (checked (stats (this w1)) =? total (stats (this w1)))%Z).
  - rewrite displayProgress_in_range
      by (rewrite ?Hch, ?Ht; unfold js_length in *; lia).
    exists frames, (printProgress w1). cbn.
    repeat split; try assumption.
    eapply rtc_r; [exact Hst | apply step_display].
  - exists frames, w1. repeat split; assumption.
Qed.

(** The turns on a list of batches. *)
Lemma turns_spec (todo : list (list jsstring)) :
  forall (results : list Settlement) (w : World),
    (0 <= checked (stats (this w)))%Z ->
    (checked (stats (this w)) + js_length (concat todo)
     <= total (stats (this w)))%Z ->
    (0 < total (stats (this w)))%Z ->
    exists (frames : list ProbeFrame) (w' : World),
      turns dns arrival roundedFill todo results w
      = Some (Normal (results ++ map settled frames), w')
      /\ map probe_domain frames = concat todo
      /\ queries w' = queries w ++ concat todo
      /\ concurrentChecks (this w') = concurrentChecks (this w)
      /\ total (stats (this w')) = total (stats (this w))
      /\ checked (stats (this w'))
         = (checked (stats (this w)) + js_length (concat todo))%Z
      /\ rtc run_step w w'
      /\ map probe_query frames
         = seq (length (queries w)) (length (concat todo)).
Proof using arrival_perm roundedFill_in_range.
  induction todo as [|batch todo IH]; intros results w Hch0 Hroom Hpos.
  - exists [], w. cbn. rewrite !app_nil_r, Z.add_0_r.
    repeat split. apply rtc_refl.
  - cbn [turns concat]. cbn [concat] in Hroom.
    unfold js_length in Hroom. rewrite length_app in Hroom.
    destruct (turn_spec batch results w)
      as (frames1 & w1 & -> & Hd1 & Hq1 & Hc1 & Ht1 & Hch1 & Hst1 & Hn1);
      [unfold js_length; lia..|].
    destruct (IH (results ++ map settled frames1) w1)
      as (frames2 & w2 & -> & Hd2 & Hq2 & Hc2 & Ht2 & Hch2 & Hst2 & Hn2);
      [rewrite ?Hch1, ?Ht1; unfold js_length; lia..|].
    exists (frames1 ++ frames2), w2.
    rewrite !map_app, <- app_assoc.
    split; [reflexivity|]. split; [congruence|].
    split; [now rewrite Hq2, Hq1, <- app_assoc|].
    split; [congruence|]. split; [congruence|]. split.
    + rewrite Hch2, Hch1. unfold js_length. rewrite length_app. lia.
    + split; [eapply rtc_run_step_trans; eassumption|].
      rewrite Hn1, Hn2, Hq1, !length_app. symmetry. apply seq_app.
Qed.

(** With a positive batch size the loop is the sequence of its turns on
    the consecutive slices, and its fuel suffices. *)
Lemma batchLoop_turns (domains : list jsstring) :
  forall (fuel n : nat) (results : list Settlement) (w : World),
    (1 <= concurrentChecks (this w))%Z ->
    length domains - n <= fuel ->
    batchLoop dns arrival roundedFill fuel domains (Z.of_nat n) results w
    = turns dns arrival roundedFill
        (batches fuel (concurrentChecks (this w)) domains (Z.of_nat n))
        results w.
Proof using arrival_perm.
  induction fuel as [|fuel IH]; intros n results w Hsize Hfuel.
  - cbn. unfold js_length. case_Z. reflexivity.
  - cbn [batchLoop batches]. unfold js_length. case_Z; [|reflexivity].
    cbn [turns].
    destruct (turn dns arrival roundedFill
                (slice domains (Z.of_nat n)
                   (Z.of_nat n + concurrentChecks (this w))) results w)
      as [[[results1|e] w1]|] eqn:Hturn; [|reflexivity..].
    pose proof (turn_concurrentChecks _ _ _ _ _ Hturn) as Hc1.
    rewrite Hc1.
    replace (Z.of_nat n + concurrentChecks (this w))%Z
      with (Z.of_nat (n + Z.to_nat (concurrentChecks (this w)))) by lia.
    rewrite <- Hc1. apply IH; [lia|]. rewrite Hc1. lia.
Qed.

(** [processDomainBatch] on a finder with a positive batch size whose
    counters leave room for the candidates. *)
Lemma processDomainBatch_spec (domains : list jsstring) (w : World) :
  (1 <= concurrentChecks (this w))%Z ->
  (0 <= checked (stats (this w)))%Z ->
  (checked (stats (this w)) + js_length domains
   <= total (stats (this w)))%Z ->
  exists (frames : list ProbeFrame) (w' : World),
    processDomainBatch dns arrival roundedFill domains w
    = Some (Normal (map settled frames), w')
    /\ processDomainBatch dns arrival roundedFill domains w
       = turns dns arrival roundedFill
           (batches (length domains) (concurrentChecks (this w)) domains 0)
           [] w
    /\ map probe_domain frames = domains
    /\ queries w' = queries w ++ domains
    /\ concurrentChecks (this w') = concurrentChecks (this w)
    /\ total (stats (this w')) = total (stats (this w))
    /\ checked (stats (this w'))
       = (checked (stats (this w)) + js_length domains)%Z
    /\ rtc run_step w w'
    /\ map probe_query frames = seq (length (queries w)) (length domains).
Proof using arrival_perm roundedFill_in_range.
  intros Hsize Hch0 Hroom. unfold processDomainBatch.
  pose proof (batchLoop_turns domains (length domains) 0 [] w Hsize) as Hloop.
  change (Z.of_nat 0) with 0%Z in Hloop. rewrite Hloop by lia.
  destruct domains as [|domain domains].
  { exists [], w. cbn. rewrite app_nil_r, Z.add_0_r.
    repeat split. apply rtc_refl. }
  pose proof (batches_concat (concurrentChecks (this w)) (domain :: domains)
                Hsize (length (domain :: domains)) 0) as Hcat.
  change (Z.of_nat 0) with 0%Z in Hcat. cbn [skipn] in Hcat.
  destruct (turns_spec
              (batches (length (domain :: domains))
                 (concurrentChecks (this w)) (domain :: domains) 0) [] w)
    as (frames & w' & Heq & Hd & Hq & Hc & Ht & Hch & Hst & Hn);
    [rewrite ?Hcat by lia; unfold js_length in *; cbn [length] in *; lia..|].
  rewrite Hcat in Hd, Hq, Hch, Hn by lia.
  exists frames, w'. rewrite Heq. cbn [app]. repeat split; assumption.
Qed.

End LoopFacts.

(** ** The generator: number, distinctness and shape of the candidates *)

Lemma CONFIG_ALPHABET_NoDup : List.NoDup (ALPHABET CONFIG).
Proof.
  apply (List.NoDup_count_occ' ascii_dec). intros c Hc.
  cbn in Hc.
  repeat (destruct Hc as [<- | Hc]; [vm_compute; reflexivity|]).
  destruct Hc.
Qed.

(** C1. For every pattern with [k] wildcard markers and every alphabet of
    [n] distinct characters, [generateDomains] returns exactly [n ^ k]
    candidates, all distinct, and each candidate is the pattern with every
    marker replaced by a character of the alphabet and every other position
    unchanged. This holds with and without shuffling, the shuffle being any
    rearrangement of the characters. *)
Theorem generateDomains_cartesian (cfg : Configuration)
    (sort_random : list jsstring -> list jsstring) (baseDomain : jsstring)
    (randomize : option bool) :
  (forall l, Permutation l (sort_random l)) ->
  List.NoDup (ALPHABET cfg) ->
  length (generateDomains cfg sort_random baseDomain randomize)
  = length (ALPHABET cfg) ^ wildcards baseDomain
  /\ List.NoDup (generateDomains cfg sort_random baseDomain randomize)
  /\ Forall (instantiates (ALPHABET cfg) baseDomain)
       (generateDomains cfg sort_random baseDomain randomize).
Proof.
  intros Hperm Hnodup.
  destruct (generateDomains_expansions cfg sort_random Hperm baseDomain
              randomize) as (alphabet' & Hp & _ & ->).
  split; [|split].
  - rewrite expansions_length. now rewrite (Permutation_length Hp).
  - apply expansions_NoDup. apply (Permutation_NoDup Hp Hnodup).
  - eapply List.Forall_impl; [|apply expansions_instantiate].
    intros candidate. now apply instantiates_perm.
Qed.

Lemma generateDomains_cartesian_witness :
  (forall l : list jsstring, Permutation l (rev l))
  /\ List.NoDup (ALPHABET CONFIG)
  /\ length (generateDomains CONFIG (@rev jsstring) (js "a*c*.com") None)
  = length (ALPHABET CONFIG) ^ wildcards (js "a*c*.com")
  /\ List.NoDup (generateDomains CONFIG (@rev jsstring) (js "a*c*.com") None)
  /\ Forall (instantiates (ALPHABET CONFIG) (js "a*c*.com"))
       (generateDomains CONFIG (@rev jsstring) (js "a*c*.com") None).
Proof.
  split; [intros l; apply Permutation_rev|].
  split; [exact CONFIG_ALPHABET_NoDup|].
  apply (generateDomains_cartesian CONFIG (@rev jsstring) (js "a*c*.com") None).
  - intros l. apply Permutation_rev.
  - exact CONFIG_ALPHABET_NoDup.
Defined.

(** The scenario of the specification: pattern [te*t.com], alphabet
    [{a, b}], no shuffle. *)
Example generateDomains_teat_tebt :
  generateDomains
    {| ALPHABET := js "ab"; CONCURRENT_CHECKS := 10; TIMEOUT := 5000;
       OUTPUT_FILE := js "available_domains.txt";
       PROGRESS_UPDATE_INTERVAL := 50 |}
    (fun chars => chars) (js "te*t.com") (Some false)
  = [js "teat.com"; js "tebt.com"].
Proof. reflexivity. Qed.

(** C9. For every pattern with no wildcard marker (the empty pattern
    included), every alphabet and every value of the shuffle flag,
    [generateDomains] returns the one-element sequence holding the pattern
    itself. *)
Theorem generateDomains_no_wildcard (cfg : Configuration)
    (sort_random : list jsstring -> list jsstring) (baseDomain : jsstring)
    (randomize : option bool) :
  wildcards baseDomain = 0 ->
  generateDomains cfg sort_random baseDomain randomize = [baseDomain].
Proof.
  intros Hk. apply includes_wildcards in Hk.
  unfold generateDomains. now rewrite Hk.
Qed.

Lemma generateDomains_no_wildcard_witness :
  wildcards (js "example.com") = 0
  /\ generateDomains CONFIG (@rev jsstring) (js "example.com") (Some true)
     = [js "example.com"].
Proof.
  split; [reflexivity|].
  apply (generateDomains_no_wildcard CONFIG (@rev jsstring) (js "example.com")
           (Some true)).
  reflexivity.
Defined.

Lemma idealFill_in_range (c t : Z) :
  (0 <= c <= t)%Z -> (0 < t)%Z ->
  exists n, idealFill c t = Finite n /\ (0 <= n <= 40)%Z.
Proof.
  intros Hc Ht. unfold idealFill.
  destruct (Z.eqb_spec t 0) as [->|_]; [lia|].
  eexists. split; [reflexivity|]. split.
  - apply Z.div_pos; lia.
  - apply Z.lt_succ_r. apply Z.div_lt_upper_bound; lia.
Qed.

(** ** The run: what [findAvailableDomains] hands to the scheduler *)

Section RunFacts.

Variable cfg : Configuration.
Variable sort_random : list jsstring -> list jsstring.
Variable dns : nat -> jsstring -> DnsOutcome.
Variable arrival : list (nat * ProbeFrame) -> list (nat * ProbeFrame).
Variable Date_now : Z.
Variable readFileSync_throws : bool.
Variable roundedFill : Z -> Z -> jsnumber.
Hypothesis arrival_perm : forall l, Permutation l (arrival l).
Hypothesis roundedFill_in_range :
  forall c t, (0 <= c <= t)%Z -> (0 < t)%Z ->
    exists n, roundedFill c t = Finite n /\ (0 <= n <= 40)%Z.

Lemma printSummary_effect (w : World) :
  queries (printSummary readFileSync_throws w) = queries w
  /\ stats (this (printSummary readFileSync_throws w)) = stats (this w)
  /\ written (printSummary readFileSync_throws w) = written w.
Proof.
  unfold printSummary.
  destruct (0 <? js_length (recentlyFound (this w)))%Z;
    [|repeat split].
  destruct (available (stats (this w)) <=? 10)%Z;
    [destruct readFileSync_throws|]; repeat split.
Qed.

(** A run on a finder that has checked nothing yet and has a positive batch
    size ends without throwing; it has queried the generated candidates in
    order, each once, and counted each. *)
Lemma findAvailableDomains_spec (baseDomain : jsstring) (w : World) :
  (1 <= concurrentChecks (this w))%Z ->
  checked (stats (this w)) = 0%Z ->
  exists w',
    findAvailableDomains cfg sort_random dns arrival Date_now
      readFileSync_throws roundedFill baseDomain w = Some (Normal tt, w')
    /\ queries w'
       = queries w ++ generateDomains cfg sort_random baseDomain None
    /\ total (stats (this w'))
       = js_length (generateDomains cfg sort_random baseDomain None)
    /\ checked (stats (this w'))
       = js_length (generateDomains cfg sort_random baseDomain None)
    /\ ended w' = true.
Proof using arrival_perm roundedFill_in_range.
  intros Hsize Hch0. unfold findAvailableDomains.
  set (domains := generateDomains cfg sort_random baseDomain None).
  set (w2 := withEnded false _).
  destruct (processDomainBatch_spec dns arrival roundedFill arrival_perm
              roundedFill_in_range domains w2 Hsize)
    as (frames & w3 & -> & _ & _ & Hq & _ & Ht & Hch & _);
    [subst w2; cbn; rewrite Hch0; lia..|].
  eexists. split; [reflexivity|].
  destruct (printSummary_effect w3) as (Hq' & Hs' & _).
  cbn [queries withEnded stats this]. rewrite Hq', Hs', Hq, Ht, Hch.
  subst w2. cbn. rewrite Hch0. repeat split.
Qed.

End RunFacts.

(** C10. [findAvailableDomains] calls the generator with one argument, so
    [randomize] takes its default [true]: the call equals the one with the
    flag set, the alphabet is the one the random sort left, and the names
    the run queries are, in order, the depth-first enumeration over that
    rearranged alphabet. The unshuffled order is produced only if the sort
    happens to leave the alphabet as it was. *)
Theorem findAvailableDomains_shuffles (cfg : Configuration)
    (sort_random : list jsstring -> list jsstring)
    (dns : nat -> jsstring -> DnsOutcome)
    (arrival : list (nat * ProbeFrame) -> list (nat * ProbeFrame))
    (Date_now : Z) (readFileSync_throws : bool)
    (roundedFill : Z -> Z -> jsnumber) (baseDomain : jsstring) (w : World) :
  (forall l, Permutation l (sort_random l)) ->
  (forall l, Permutation l (arrival l)) ->
  (forall c t, (0 <= c <= t)%Z -> (0 < t)%Z ->
     exists n, roundedFill c t = Finite n /\ (0 <= n <= 40)%Z) ->
  (1 <= concurrentChecks (this w))%Z ->
  checked (stats (this w)) = 0%Z ->
  generateDomains cfg sort_random baseDomain None
  = generateDomains cfg sort_random baseDomain (Some true)
  /\ exists (alphabet' : jsstring) (w' : World),
       sort_random (split_chars (ALPHABET cfg)) = split_chars alphabet'
       /\ Permutation (ALPHABET cfg) alphabet'
       /\ generateDomains cfg sort_random baseDomain (Some true)
          = expansions alphabet' baseDomain
       /\ findAvailableDomains cfg sort_random dns arrival Date_now
            readFileSync_throws roundedFill baseDomain w
          = Some (Normal tt, w')
       /\ queries w' = queries w ++ expansions alphabet' baseDomain.
Proof.
  intros Hsort Harrival Hfill Hsize Hch0. split; [reflexivity|].
  destruct (sort_random_split sort_random Hsort (ALPHABET cfg))
    as (alphabet' & Hsplit & Hp).
  destruct (findAvailableDomains_spec cfg sort_random dns arrival Date_now
              readFileSync_throws roundedFill Harrival Hfill baseDomain w
              Hsize Hch0)
    as (w' & Hrun & Hq & _).
  assert (Hgen : generateDomains cfg sort_random baseDomain (Some true)
                 = expansions alphabet' baseDomain).
  { unfold generateDomains. cbn [defaultArg].
    destruct (includes WILDCARD baseDomain) eqn:Hinc; cbn [negb].
    - rewrite Hsplit. apply generateWithWildcard_top.
    - symmetry. apply expansions_no_wildcard. now apply includes_wildcards. }
  exists alphabet', w'. repeat split; try assumption.
  rewrite Hq. f_equal. exact Hgen.
Qed.

Lemma findAvailableDomains_shuffles_witness :
  (1 <= concurrentChecks (this newFinder))%Z
  /\ generateDomains CONFIG (@rev jsstring) (js "a*.io") None
     = generateDomains CONFIG (@rev jsstring) (js "a*.io") (Some true)
  /\ exists (alphabet' : jsstring) (w' : World),
       rev (split_chars (ALPHABET CONFIG)) = split_chars alphabet'
       /\ Permutation (ALPHABET CONFIG) alphabet'
       /\ generateDomains CONFIG (@rev jsstring) (js "a*.io") (Some true)
          = expansions alphabet' (js "a*.io")
       /\ findAvailableDomains CONFIG (@rev jsstring)
            (fun _ _ => Resolved []) (@rev (nat * ProbeFrame)) 0 false
            idealFill (js "a*.io") newFinder
          = Some (Normal tt, w')
       /\ queries w' = queries newFinder ++ expansions alphabet' (js "a*.io").
Proof.
  split; [cbn; lia|].
  apply (findAvailableDomains_shuffles CONFIG (@rev jsstring)
           (fun _ _ => Resolved []) (@rev (nat * ProbeFrame)) 0 false
           idealFill (js "a*.io")).
  - intros l. apply Permutation_rev.
  - intros l. apply Permutation_rev.
  - exact idealFill_in_range.
  - cbn. lia.
  - reflexivity.
Defined.

(** With a sort that reverses the array, the run queries the candidates in
    an order the unshuffled generator does not give. *)
Example run_order_differs_from_unshuffled :
  option_map (fun r => queries (snd r))
    (findAvailableDomains
       {| ALPHABET := js "ab"; CONCURRENT_CHECKS := 10; TIMEOUT := 5000;
          OUTPUT_FILE := js "out.txt"; PROGRESS_UPDATE_INTERVAL := 50 |}
       (@rev jsstring) (fun _ _ => Resolved []) (fun tasks => tasks) 0 false
       idealFill (js "*.io") newFinder)
  = Some [js "b.io"; js "a.io"]
  /\ generateDomains
       {| ALPHABET := js "ab"; CONCURRENT_CHECKS := 10; TIMEOUT := 5000;
          OUTPUT_FILE := js "out.txt"; PROGRESS_UPDATE_INTERVAL := 50 |}
       (@rev jsstring) (js "*.io") (Some false)
     = [js "a.io"; js "b.io"].
Proof. split; reflexivity. Qed.

(** ** Validation: the generator and [main] *)

(** C5, as stated, fails: on the empty pattern the generator raises
    nothing; it returns the one-element sequence holding the empty string. *)
Lemma generateDomains_empty_pattern_returns :
  generateDomains CONFIG (fun chars => chars) (js "") None = [js ""]
  /\ generateDomains CONFIG (fun chars => chars) (js "") None <> [].
Proof. split; [reflexivity | discriminate]. Qed.

(** C5, amended. The generator has no precondition: on the empty pattern it
    returns the one-element sequence holding the empty string, and on a
    pattern without a ['.'] it returns the enumeration, as on any other. It
    is [main] that rejects an empty pattern, and a pattern without a ['.'],
    with exit status 1, before a finder is made: nothing is queried and
    nothing is written. *)
Theorem empty_pattern_is_rejected_by_main (cfg : Configuration)
    (sort_random : list jsstring -> list jsstring)
    (dns : nat -> jsstring -> DnsOutcome)
    (arrival : list (nat * ProbeFrame) -> list (nat * ProbeFrame))
    (Date_now : Z) (readFileSync_throws : bool)
    (roundedFill : Z -> Z -> jsnumber) :
  (forall l, Permutation l (sort_random l)) ->
  (forall randomize,
      generateDomains cfg sort_random [] randomize = [[]])
  /\ (forall baseDomain randomize,
        includes "."%char baseDomain = false ->
        length (generateDomains cfg sort_random baseDomain randomize)
        = length (ALPHABET cfg) ^ wildcards baseDomain)
  /\ (forall options w,
        arg_help options = false ->
        arg_domain options = None \/ arg_domain options = Some [] ->
        main cfg sort_random dns arrival Date_now readFileSync_throws
          roundedFill options [] w = Some (exited 1, w))
  /\ (forall options answer domain w,
        arg_help options = false ->
        arg_domain options = Some domain ->
        domain <> [] ->
        includes "."%char domain = false ->
        main cfg sort_random dns arrival Date_now readFileSync_throws
          roundedFill options answer w = Some (exited 1, w)).
Proof.
  intros Hsort. split; [|split; [|split]].
  - intros randomize. reflexivity.
  - intros baseDomain randomize _.
    destruct (generateDomains_expansions cfg sort_random Hsort baseDomain
                randomize) as (alphabet' & Hp & _ & ->).
    rewrite expansions_length. now rewrite (Permutation_length Hp).
  - intros options w Hhelp Hdomain. unfold main. rewrite Hhelp.
    now destruct Hdomain as [-> | ->].
  - intros options answer domain w Hhelp Hdomain Hne Hdot. unfold main.
    rewrite Hhelp, Hdomain. destruct domain as [|c s]; [congruence|].
    now rewrite Hdot.
Qed.

Lemma empty_pattern_is_rejected_by_main_witness :
  (forall randomize,
      generateDomains CONFIG (@rev jsstring) [] randomize = [[]])
  /\ (forall baseDomain randomize,
        includes "."%char baseDomain = false ->
        length (generateDomains CONFIG (@rev jsstring) baseDomain randomize)
        = length (ALPHABET CONFIG) ^ wildcards baseDomain)
  /\ (forall options w,
        arg_help options = false ->
        arg_domain options = None \/ arg_domain options = Some [] ->
        main CONFIG (@rev jsstring) (fun _ _ => Resolved [])
          (@rev (nat * ProbeFrame)) 0 false idealFill options [] w
        = Some (exited 1, w))
  /\ (forall options answer domain w,
        arg_help options = false ->
        arg_domain options = Some domain ->
        domain <> [] ->
        includes "."%char domain = false ->
        main CONFIG (@rev jsstring) (fun _ _ => Resolved [])
          (@rev (nat * ProbeFrame)) 0 false idealFill options answer
          w
        = Some (exited 1, w)).
Proof.
  apply (empty_pattern_is_rejected_by_main CONFIG (@rev jsstring)
           (fun _ _ => Resolved []) (@rev (nat * ProbeFrame)) 0 false
           idealFill).
  intros l. apply Permutation_rev.
Defined.

(** The same test rejects a pattern without ['.'] that the operator types
    when asked, no pattern being given on the command line. *)
Lemma main_rejects_typed_pattern_without_dot (cfg : Configuration)
    (sort_random : list jsstring -> list jsstring)
    (dns : nat -> jsstring -> DnsOutcome)
    (arrival : list (nat * ProbeFrame) -> list (nat * ProbeFrame))
    (Date_now : Z) (readFileSync_throws : bool)
    (roundedFill : Z -> Z -> jsnumber) (options : ParsedArgs)
    (answer : jsstring) (w : World) :
  arg_help options = false ->
  arg_domain options = None \/ arg_domain options = Some [] ->
  includes "."%char answer = false ->
  main cfg sort_random dns arrival Date_now readFileSync_throws roundedFill
    options answer w = Some (exited 1, w).
Proof.
  intros Hhelp Hdomain Hdot. unfold main. rewrite Hhelp.
  destruct Hdomain as [-> | ->]; destruct answer as [|c s];
    try reflexivity; now rewrite Hdot.
Qed.

(** [main] on an empty pattern, and on one without a ['.']: exit status 1,
    an untouched world. *)
Example main_rejects_empty_and_dotless :
  main CONFIG (@rev jsstring) (fun _ _ => Resolved [])
    (@rev (nat * ProbeFrame)) 0 false idealFill
    {| arg_domain := None; arg_concurrentChecks := 10; arg_timeout := 5000;
       arg_outputFile := None; arg_help := false |}
    (js "") newFinder
  = Some (exited 1, newFinder)
  /\ main CONFIG (@rev jsstring) (fun _ _ => Resolved [])
       (@rev (nat * ProbeFrame)) 0 false idealFill
       {| arg_domain := Some (js "te*t"); arg_concurrentChecks := 10;
          arg_timeout := 5000; arg_outputFile := None; arg_help := false |}
       (js "") newFinder
     = Some (exited 1, newFinder).
Proof. split; reflexivity. Qed.

(** ** The prober: classification and effects *)

Lemma strictEq_eq (a b : jsstring) : strictEq a b = true <-> a = b.
Proof.
  unfold strictEq. destruct (List.list_eq_dec ascii_dec a b); split;
    congruence.
Qed.

Lemma codeIs_eq (error : JsError) (name : string) :
  codeIs error name = true <-> code error = Some (js name).
Proof.
  unfold codeIs. destruct (code error) as [c|].
  - rewrite strictEq_eq. split; congruence.
  - split; discriminate.
Qed.

Lemma notFoundClass_eq (error : JsError) :
  notFoundClass error = true
  <-> code error = Some (js "ENOTFOUND") \/ code error = Some (js "ENODATA").
Proof.
  unfold notFoundClass. rewrite orb_true_iff, !codeIs_eq. reflexivity.
Qed.

(** A whole call of the prober: its value, and what it does to the world. *)
Lemma isDomainAvailable_effect (domain : jsstring) (reply : DnsOutcome)
    (w : World) :
  fst (isDomainAvailable domain reply w) = Normal (isAvailable reply)
  /\ total (stats (this (snd (isDomainAvailable domain reply w))))
     = total (stats (this w))
  /\ checked (stats (this (snd (isDomainAvailable domain reply w))))
     = checked (stats (this w))
  /\ available (stats (this (snd (isDomainAvailable domain reply w))))
     = available (stats (this w))
  /\ errors (stats (this (snd (isDomainAvailable domain reply w))))
     = (errors (stats (this w)) + if isError reply then 1 else 0)%Z
  /\ recentlyFound (this (snd (isDomainAvailable domain reply w)))
     = recentlyFound (this w)
  /\ currentlyChecking (this (snd (isDomainAvailable domain reply w)))
     = currentlyChecking (this w)
  /\ written (snd (isDomainAvailable domain reply w)) = written w
  /\ queries (snd (isDomainAvailable domain reply w)) = queries w ++ [domain].
Proof.
  unfold isDomainAvailable, bind, isAvailable, isError, classify.
  cbn [isDomainAvailable_begin bind newAbortController gets setTimeout
       dns_resolve ret].
  rewrite isDomainAvailable_resume_eq.
  destruct reply as [records|error].
  - cbn. rewrite Z.add_0_r. repeat split.
  - destruct (notFoundClass error); cbn; rewrite ?Z.add_0_r; repeat split.
Qed.

(** C2. The prober classifies every resolution as the specification says:
    [Unavailable] exactly when the resolution succeeds, [Available] exactly
    when it fails with code [ENOTFOUND] or [ENODATA], [Error] otherwise. It
    returns [true] for [Available] and [false] for the two others, and adds
    one to the error counter for [Error] and nothing otherwise. The
    scheduler writes the domain's line to the sink for [Available] only, so
    an [Error] is never written. *)
Theorem isDomainAvailable_classifies (domain : jsstring) (reply : DnsOutcome)
    (frame : ProbeFrame) (w w0 : World) :
  (classify reply = Unavailable <-> exists records, reply = Resolved records)
  /\ (classify reply = Available
      <-> exists error,
            reply = Failed error
            /\ (code error = Some (js "ENOTFOUND")
                \/ code error = Some (js "ENODATA")))
  /\ fst (isDomainAvailable domain reply w)
     = Normal match classify reply with
              | Available => true
              | Unavailable => false
              | Error => false
              end
  /\ errors (stats (this (snd (isDomainAvailable domain reply w))))
     = (errors (stats (this w))
        + match classify reply with
          | Error => 1
          | Available => 0
          | Unavailable => 0
          end)%Z
  /\ written (snd (callback_resume frame reply w0))
     = written w0
       ++ match classify reply with
          | Available => [line (probe_domain frame)]
          | Unavailable => []
          | Error => []
          end.
Proof.
  split; [|split; [|split; [|split]]].
  - destruct reply as [records|error]; cbn.
    + split; [eauto | reflexivity].
    + destruct (notFoundClass error); split; try discriminate;
        intros [records H]; discriminate.
  - destruct reply as [records|error]; cbn.
    + split; [discriminate | intros (error & H & _); discriminate].
    + destruct (notFoundClass error) eqn:Hnf.
      * split; [|reflexivity]. intros _. exists error.
        split; [reflexivity | now apply notFoundClass_eq].
      * split; [discriminate|]. intros (error' & H & Hcode).
        injection H as <-. apply notFoundClass_eq in Hcode. congruence.
  - destruct (isDomainAvailable_effect domain reply w) as (-> & _).
    unfold isAvailable. now destruct (classify reply).
  - destruct (isDomainAvailable_effect domain reply w)
      as (_ & _ & _ & _ & -> & _).
    unfold isError. now destruct (classify reply).
  - destruct (callback_resume_effect frame reply w0)
      as (_ & _ & _ & _ & _ & _ & _ & -> & _).
    unfold isAvailable. now destruct (classify reply).
Qed.

(** The scenario of the specification: three candidates answered
    [ENOTFOUND], success and [ETIMEOUT] give total 3, checked 3,
    available 1, errors 1, and one line in the sink. *)
Example three_candidates_scenario :
  option_map
    (fun r => (fst r, stats (this (snd r)), written (snd r)))
    (findAvailableDomains
       {| ALPHABET := js "abc"; CONCURRENT_CHECKS := 10; TIMEOUT := 5000;
          OUTPUT_FILE := js "out.txt"; PROGRESS_UPDATE_INTERVAL := 50 |}
       (fun chars => chars)
       (fun rank _ =>
          match rank with
          | 0 => Failed {| code := Some (js "ENOTFOUND") |}
          | 1 => Resolved [js "192.0.2.1"]
          | _ => Failed {| code := Some (js "ETIMEOUT") |}
          end)
       (@rev (nat * ProbeFrame)) 7 false idealFill (js "*.io") newFinder)
  = Some (Normal tt,
          {| total := 3; checked := 3; available := 1; errors := 1;
             startTime := Some 7%Z |},
          [line (js "a.io")]).
Proof. reflexivity. Qed.

(** C6, as stated, fails: a resolution that fails with [ETIMEOUT] makes the
    prober itself change the run statistics. *)
Lemma isDomainAvailable_touches_errors :
  stats (this (snd (isDomainAvailable (js "a.com")
                      (Failed {| code := Some (js "ETIMEOUT") |}) newFinder)))
  <> stats (this newFinder)
  /\ errors (stats (this (snd (isDomainAvailable (js "a.com")
                      (Failed {| code := Some (js "ETIMEOUT") |}) newFinder))))
     = 1%Z.
Proof. split; [discriminate | reflexivity]. Qed.

(** C6, amended. The prober returns a boolean and leaves [total],
    [checked], [available], the recent hits and the sink as they were; it
    adds one to [errors] itself exactly when the outcome is [Error], and
    leaves [errors] alone otherwise. The updates of [checked] and
    [available], the write to the sink and the push on the recent hits are
    made by the callback of the scheduler. *)
Theorem isDomainAvailable_frame (domain : jsstring) (reply : DnsOutcome)
    (frame : ProbeFrame) (w w0 : World) :
  (exists b, fst (isDomainAvailable domain reply w) = Normal b)
  /\ total (stats (this (snd (isDomainAvailable domain reply w))))
     = total (stats (this w))
  /\ checked (stats (this (snd (isDomainAvailable domain reply w))))
     = checked (stats (this w))
  /\ available (stats (this (snd (isDomainAvailable domain reply w))))
     = available (stats (this w))
  /\ recentlyFound (this (snd (isDomainAvailable domain reply w)))
     = recentlyFound (this w)
  /\ written (snd (isDomainAvailable domain reply w)) = written w
  /\ errors (stats (this (snd (isDomainAvailable domain reply w))))
     = (errors (stats (this w))
        + match classify reply with
          | Error => 1
          | Available => 0
          | Unavailable => 0
          end)%Z
  /\ checked (stats (this (snd (callback_resume frame reply w0))))
     = (checked (stats (this w0)) + 1)%Z
  /\ available (stats (this (snd (callback_resume frame reply w0))))
     = (available (stats (this w0))
        + match classify reply with
          | Available => 1
          | Unavailable => 0
          | Error => 0
          end)%Z.
Proof.
  destruct (isDomainAvailable_effect domain reply w)
    as (Hv & Ht & Hc & Ha & He & Hr & _ & Hw & _).
  destruct (callback_resume_effect frame reply w0)
    as (_ & _ & _ & _ & Hc0 & Ha0 & _).
  split; [eauto|]. repeat (split; [assumption|]).
  split; [|split; [assumption|]].
  - rewrite He. unfold isError. now destruct (classify reply).
  - rewrite Ha0. unfold isAvailable. now destruct (classify reply).
Qed.

(** ** The timeout *)

(** What the timer does when it fires: the flag of its controller, and the
    list of timers; the object, the sink and the queries are as before. *)
Lemma fireTimer_frame (id : nat) (w : World) :
  this (Timing.fireTimer id w) = this w
  /\ written (Timing.fireTimer id w) = written w
  /\ queries (Timing.fireTimer id w) = queries w.
Proof.
  unfold Timing.fireTimer. destruct (List.find _ (timers w)); repeat split.
Qed.

(** C3, on the code. A call of the prober settles when the resolver
    answers, whatever [this.timeout] is: if the resolver never answers, the
    call never settles; if it answers after [latency], the call settles at
    [latency], with the value of that answer, also when [latency] exceeds
    the timeout. *)
Theorem isDomainAvailable_settles_with_resolver (domain : jsstring)
    (w : World) :
  Timing.settledAt (Timing.runProbe domain Timing.neverReplies w) = None
  /\ Timing.result (Timing.runProbe domain Timing.neverReplies w) = None
  /\ forall latency outcome,
       Timing.settledAt
         (Timing.runProbe domain (Timing.repliesAfter latency outcome) w)
       = Some latency
       /\ Timing.result
            (Timing.runProbe domain (Timing.repliesAfter latency outcome) w)
          = Some (Normal (isAvailable outcome)).
Proof.
  split; [reflexivity|]. split; [reflexivity|].
  intros latency outcome. unfold Timing.runProbe.
  cbn [isDomainAvailable_begin bind newAbortController gets setTimeout
       dns_resolve ret].
  rewrite isDomainAvailable_resume_eq.
  destruct outcome as [records|error]; [now split|].
  unfold isAvailable, classify. now destruct (notFoundClass error).
Qed.

(** A finder with the default timeout of 5000 ms and a resolver that never
    answers: the timer fires and aborts its controller, and the call stays
    pending. *)
Example probe_never_answered :
  Timing.settledAt
    (Timing.runProbe (js "a.com") Timing.neverReplies newFinder) = None
  /\ controllers
       (Timing.final
          (Timing.runProbe (js "a.com") Timing.neverReplies newFinder)) = [true]
  /\ timers
       (Timing.final
          (Timing.runProbe (js "a.com") Timing.neverReplies newFinder)) = [].
Proof. repeat split. Qed.

(** The same finder and a resolver that answers with an address after
    9000 ms: the call settles at 9000 ms, not at 5000 ms, returns [false],
    and counts no error. *)
Example probe_answered_late :
  Timing.settledAt
    (Timing.runProbe (js "a.com")
       (Timing.repliesAfter 9000 (Resolved [js "192.0.2.1"])) newFinder)
  = Some 9000%Z
  /\ Timing.result
       (Timing.runProbe (js "a.com")
          (Timing.repliesAfter 9000 (Resolved [js "192.0.2.1"])) newFinder)
     = Some (Normal false)
  /\ errors
       (stats (this (Timing.final
          (Timing.runProbe (js "a.com")
             (Timing.repliesAfter 9000 (Resolved [js "192.0.2.1"]))
             newFinder))))
     = 0%Z.
Proof. repeat split. Qed.

(** ** The scheduler: batches, counters, containment of failures *)

(** C4. For every candidate list and every batch size of at least 1, on
    counters that leave room for the candidates (as they do in a run, where
    [checked] starts at 0 and [total] is the number of candidates),
    [processDomainBatch] ends normally; its turns are exactly the
    consecutive slices [batches], which concatenate to the candidate list
    and hold between 1 and [concurrentChecks] elements each; every
    candidate is queried once, in order, and has its settled entry in the
    result, in order; [checked] has grown by the number of candidates and
    [total] is unchanged. So from [checked = 0] and [total] the number of
    candidates the run ends with [checked = total]. *)
Theorem processDomainBatch_partitions_and_counts
    (dns : nat -> jsstring -> DnsOutcome)
    (arrival : list (nat * ProbeFrame) -> list (nat * ProbeFrame))
    (roundedFill : Z -> Z -> jsnumber)
    (domains : list jsstring) (w : World) :
  (forall l, Permutation l (arrival l)) ->
  (forall c t, (0 <= c <= t)%Z -> (0 < t)%Z ->
     exists n, roundedFill c t = Finite n /\ (0 <= n <= 40)%Z) ->
  (1 <= concurrentChecks (this w))%Z ->
  (0 <= checked (stats (this w)))%Z ->
  (checked (stats (this w)) + js_length domains
   <= total (stats (this w)))%Z ->
  concat (batches (length domains) (concurrentChecks (this w)) domains 0)
  = domains
  /\ Forall
       (fun batch =>
          1 <= length batch
          /\ (js_length batch <= concurrentChecks (this w))%Z)
       (batches (length domains) (concurrentChecks (this w)) domains 0)
  /\ exists (frames : list ProbeFrame) (w' : World),
       processDomainBatch dns arrival roundedFill domains w
       = Some (Normal (map (fun frame => fulfilled (valueOf dns frame))
                         frames), w')
       /\ processDomainBatch dns arrival roundedFill domains w
          = turns dns arrival roundedFill
              (batches (length domains) (concurrentChecks (this w))
                 domains 0)
              [] w
       /\ map probe_domain frames = domains
       /\ map probe_query frames
          = seq (length (queries w)) (length domains)
       /\ queries w' = queries w ++ domains
       /\ total (stats (this w')) = total (stats (this w))
       /\ checked (stats (this w'))
          = (checked (stats (this w)) + js_length domains)%Z
       /\ (checked (stats (this w)) = 0%Z ->
           total (stats (this w)) = js_length domains ->
           checked (stats (this w')) = total (stats (this w'))).
Proof.
  intros Harrival Hfill Hsize Hch0 Hroom. split; [|split].
  - apply (batches_concat _ domains Hsize (length domains) 0). lia.
  - apply (batches_sizes _ domains Hsize (length domains) 0).
  - destruct (processDomainBatch_spec dns arrival roundedFill Harrival Hfill
                domains w Hsize Hch0 Hroom)
      as (frames & w' & Heq & Hturns & Hd & Hq & _ & Ht & Hch & _ & Hn).
    exists frames, w'. repeat split; try assumption.
    intros H0 Htotal. rewrite Hch, Ht, H0, Htotal. reflexivity.
Qed.

Lemma processDomainBatch_partitions_and_counts_witness :
  (1 <= concurrentChecks (this batchDemo))%Z
  /\ checked (stats (this batchDemo)) = 0%Z
  /\ total (stats (this batchDemo)) = 5%Z
  /\ concat (batches 5 2 [js "a.io"; js "b.io"; js "c.io"; js "d.io";
                          js "e.io"] 0)
     = [js "a.io"; js "b.io"; js "c.io"; js "d.io"; js "e.io"]
  /\ batches 5 2 [js "a.io"; js "b.io"; js "c.io"; js "d.io"; js "e.io"] 0
     = [[js "a.io"; js "b.io"]; [js "c.io"; js "d.io"]; [js "e.io"]].
Proof.
  split; [apply Z.leb_le; reflexivity|].
  split; [reflexivity|]. split; [reflexivity|]. split; [|reflexivity].
  apply (processDomainBatch_partitions_and_counts
           (fun _ _ => Failed {| code := Some (js "ENOTFOUND") |})
           (@rev (nat * ProbeFrame)) idealFill
           [js "a.io"; js "b.io"; js "c.io"; js "d.io"; js "e.io"]
           batchDemo).
  - intros l. apply Permutation_rev.
  - exact idealFill_in_range.
  - apply Z.leb_le. reflexivity.
  - apply Z.leb_le. reflexivity.
  - apply Z.leb_le. reflexivity.
Defined.

(** The run as the application makes it, from a new finder: it ends with
    [checked = total]. *)
Lemma findAvailableDomains_checked_total (cfg : Configuration)
    (sort_random : list jsstring -> list jsstring)
    (dns : nat -> jsstring -> DnsOutcome)
    (arrival : list (nat * ProbeFrame) -> list (nat * ProbeFrame))
    (Date_now : Z) (readFileSync_throws : bool)
    (roundedFill : Z -> Z -> jsnumber) (options : FinderOptions)
    (baseDomain : jsstring) :
  (forall l, Permutation l (arrival l)) ->
  (forall c t, (0 <= c <= t)%Z -> (0 < t)%Z ->
     exists n, roundedFill c t = Finite n /\ (0 <= n <= 40)%Z) ->
  (1 <= concurrentChecks (constructor cfg options))%Z ->
  exists w',
    findAvailableDomains cfg sort_random dns arrival Date_now
      readFileSync_throws roundedFill baseDomain
      (freshWorld (constructor cfg options))
    = Some (Normal tt, w')
    /\ checked (stats (this w')) = total (stats (this w')).
Proof.
  intros Harrival Hfill Hsize.
  destruct (findAvailableDomains_spec cfg sort_random dns arrival Date_now
              readFileSync_throws roundedFill Harrival Hfill baseDomain
              (freshWorld (constructor cfg options)) Hsize eq_refl)
    as (w' & Hrun & _ & Ht & Hch & _).
  exists w'. split; [exact Hrun|]. rewrite Hch, Ht. reflexivity.
Qed.

(** The scheduler run directly on a new finder, whose [total] is still 0:
    after five checks [displayProgress] divides by zero, [repeat] is handed
    an infinite width, and the [RangeError] it throws ends the scheduler.
    The counters have to leave room, as they do in a run. *)
Example processDomainBatch_without_total :
  option_map fst
    (processDomainBatch (fun _ _ => Resolved []) (fun tasks => tasks)
       idealFill
       [js "a.io"; js "b.io"; js "c.io"; js "d.io"; js "e.io"; js "f.io"]
       (freshWorld (constructor CONFIG
          {| opt_concurrentChecks := Some 5%Z; opt_timeout := None;
             opt_outputFile := None |})))
  = Some (Throw RangeError).
Proof. reflexivity. Qed.

(** C8. Whatever the resolver answers to each query, failures included, no
    call of the prober throws, no callback throws, and every promise of a
    batch ends fulfilled, none rejected. A resolution that fails outside
    the not-found class gives the entry [available = false] and one more
    error, nothing else. So on a finder with a batch size of at least 1,
    on counters that leave room for the candidates (as they do in a run),
    the scheduler ends normally: it returns one fulfilled entry per
    candidate, in order, and has counted every candidate. *)
Theorem processDomainBatch_contains_failures
    (dns : nat -> jsstring -> DnsOutcome)
    (arrival : list (nat * ProbeFrame) -> list (nat * ProbeFrame))
    (roundedFill : Z -> Z -> jsnumber)
    (domains : list jsstring) (w : World) :
  (forall l, Permutation l (arrival l)) ->
  (forall c t, (0 <= c <= t)%Z -> (0 < t)%Z ->
     exists n, roundedFill c t = Finite n /\ (0 <= n <= 40)%Z) ->
  (1 <= concurrentChecks (this w))%Z ->
  (0 <= checked (stats (this w)))%Z ->
  (checked (stats (this w)) + js_length domains
   <= total (stats (this w)))%Z ->
  (forall domain reply w0,
      fst (isDomainAvailable domain reply w0) = Normal (isAvailable reply))
  /\ (forall frame reply w0,
        fst (callback_resume frame reply w0)
        = Normal (probeValue frame reply))
  /\ (forall frame error w0,
        notFoundClass error = false ->
        fst (callback_resume frame (Failed error) w0)
        = Normal {| res_domain := probe_domain frame;
                    res_available := false |}
        /\ errors (stats (this (snd (callback_resume frame (Failed error)
                                       w0))))
           = (errors (stats (this w0)) + 1)%Z
        /\ written (snd (callback_resume frame (Failed error) w0))
           = written w0)
  /\ (forall batch w0,
        exists values : list ProbeResult,
          allSettled (fst (runBatch dns arrival batch w0))
          = Some (map fulfilled values)
          /\ map res_domain values = batch)
  /\ exists (values : list ProbeResult) (w' : World),
       processDomainBatch dns arrival roundedFill domains w
       = Some (Normal (map fulfilled values), w')
       /\ map res_domain values = domains
       /\ checked (stats (this w'))
          = (checked (stats (this w)) + js_length domains)%Z.
Proof.
  intros Harrival Hfill Hsize Hch0 Hroom.
  split; [|split; [|split; [|split]]].
  - intros domain reply w0.
    now destruct (isDomainAvailable_effect domain reply w0) as (-> & _).
  - intros frame reply w0.
    now destruct (callback_resume_effect frame reply w0) as (-> & _).
  - intros frame error w0 Hnf.
    destruct (callback_resume_effect frame (Failed error) w0)
      as (-> & _ & _ & _ & _ & _ & -> & -> & _).
    unfold probeValue, isAvailable, isError, classify. rewrite Hnf.
    rewrite app_nil_r. repeat split.
  - intros batch w0.
    destruct (runBatch_spec dns arrival Harrival batch w0)
      as (frames & w1 & -> & Hd & _).
    exists (map (valueOf dns) frames). cbn [fst].
    rewrite <- (map_map (fun frame => fulfilled (valueOf dns frame)) Done).
    rewrite allSettled_map_Done, !map_map. split; [reflexivity | exact Hd].
  - destruct (processDomainBatch_spec dns arrival roundedFill Harrival Hfill
                domains w Hsize Hch0 Hroom)
      as (frames & w' & Heq & _ & Hd & _ & _ & _ & Hch & _).
    exists (map (valueOf dns) frames), w'. rewrite map_map.
    split; [exact Heq|]. split; [|exact Hch].
    rewrite map_map. exact Hd.
Qed.

Lemma processDomainBatch_contains_failures_witness :
  (1 <= concurrentChecks (this batchDemo))%Z
  /\ (0 <= checked (stats (this batchDemo)))%Z
  /\ (checked (stats (this batchDemo))
      + js_length [js "a.io"; js "b.io"; js "c.io"]
      <= total (stats (this batchDemo)))%Z
  /\ exists (values : list ProbeResult) (w' : World),
       processDomainBatch
         (fun _ _ => Failed {| code := Some (js "ECONNREFUSED") |})
         (@rev (nat * ProbeFrame)) idealFill
         [js "a.io"; js "b.io"; js "c.io"] batchDemo
       = Some (Normal (map fulfilled values), w')
       /\ map res_domain values = [js "a.io"; js "b.io"; js "c.io"]
       /\ checked (stats (this w'))
          = (checked (stats (this batchDemo))
             + js_length [js "a.io"; js "b.io"; js "c.io"])%Z.
Proof.
  split; [apply Z.leb_le; reflexivity|].
  split; [apply Z.leb_le; reflexivity|].
  split; [apply Z.leb_le; reflexivity|].
  apply (processDomainBatch_contains_failures
           (fun _ _ => Failed {| code := Some (js "ECONNREFUSED") |})
           (@rev (nat * ProbeFrame)) idealFill
           [js "a.io"; js "b.io"; js "c.io"] batchDemo).
  - intros l. apply Permutation_rev.
  - exact idealFill_in_range.
  - apply Z.leb_le. reflexivity.
  - apply Z.leb_le. reflexivity.
  - apply Z.leb_le. reflexivity.
Defined.

(** ** The recent hits *)

Lemma pushRecent_firstn (domain : jsstring) (ring : list jsstring)
    (found : list jsstring) :
  map line ring = firstn 3 found ->
  map line (pushRecent domain ring) = firstn 3 (line domain :: found).
Proof.
  destruct ring as [|a [|b [|c [|e ring]]]];
    destruct found as [|x [|y [|z found]]]; cbn; intros H;
    first [ discriminate H
          | reflexivity
          | injection H; intros; subst; reflexivity ].
Qed.

Lemma run_step_ring (w w' : World) :
  run_step w w' -> ring_reflects_sink w -> ring_reflects_sink w'.
Proof.
  unfold ring_reflects_sink. intros Hstep Hinv. destruct Hstep.
  - destruct (callback_begin_effect domain w) as (_ & _ & _ & -> & ->).
    exact Hinv.
  - destruct (callback_resume_effect frame reply w)
      as (_ & _ & _ & _ & _ & _ & _ & -> & ->).
    destruct (isAvailable reply).
    + rewrite rev_app_distr. cbn [rev app]. now apply pushRecent_firstn.
    + now rewrite app_nil_r.
  - exact Hinv.
Qed.

Lemma run_steps_ring (w w' : World) :
  rtc run_step w w' -> ring_reflects_sink w -> ring_reflects_sink w'.
Proof.
  induction 1 as [w|w1 w2 w3 Hstep _ IH]; [tauto|].
  intros Hinv. apply IH. now apply (run_step_ring w1).
Qed.

Lemma run_steps_ring_bounded (w0 w : World) :
  recentlyFound (this w0) = [] ->
  written w0 = [] ->
  rtc run_step w0 w ->
  length (recentlyFound (this w)) <= 3
  /\ map line (recentlyFound (this w)) = firstn 3 (rev (written w)).
Proof.
  intros Hring Hsink Hsteps.
  assert (Hinv : ring_reflects_sink w).
  { apply (run_steps_ring w0 w Hsteps).
    unfold ring_reflects_sink. now rewrite Hring, Hsink. }
  split; [|exact Hinv].
  unfold ring_reflects_sink in Hinv.
  rewrite <- (length_map line), Hinv, length_firstn. lia.
Qed.

(** Pushing on the three newest of a list gives the three newest of the
    list with the pushed domain in front. *)
Lemma pushRecent_newest (domain : jsstring) (found : list jsstring) :
  pushRecent domain (firstn 3 found) = firstn 3 (domain :: found).
Proof. destruct found as [|a [|b [|c found]]]; reflexivity. Qed.

(** One event: what it does to the ring and to the sink. *)
Lemma happen_effect (w : World) (event : Event) :
  recentlyFound (this (happen w event))
  = fold_right pushRecent (recentlyFound (this w)) (discovered [event])
  /\ written (happen w event) = written w ++ map line (discovered [event]).
Proof.
  destruct event as [domain|frame reply|id|]; cbn [happen discovered flat_map].
  - destruct (callback_begin_effect domain w) as (_ & _ & _ & -> & ->).
    cbn. now rewrite app_nil_r.
  - destruct (callback_resume_effect frame reply w)
      as (_ & _ & _ & _ & _ & _ & _ & -> & ->).
    rewrite app_nil_r. now destruct (isAvailable reply).
  - destruct (fireTimer_frame id w) as (-> & -> & _).
    cbn. now rewrite app_nil_r.
  - cbn. now rewrite app_nil_r.
Qed.

Lemma discovered_app (events events' : list Event) :
  discovered (events ++ events') = discovered events ++ discovered events'.
Proof. unfold discovered. now rewrite flat_map_app. Qed.

(** A sequence of events adds to the sink the lines of its discoveries,
    in order. *)
Lemma replay_written (events : list Event) :
  forall w : World,
    written (replay events w) = written w ++ map line (discovered events).
Proof.
  induction events as [|event events IH]; intros w.
  - cbn. now rewrite app_nil_r.
  - change (replay (event :: events) w)
      with (replay events (happen w event)).
    change (event :: events) with ([event] ++ events).
    rewrite IH, discovered_app, map_app, app_assoc.
    now destruct (happen_effect w event) as [_ ->].
Qed.

(** A sequence of events, from a ring that holds the three newest of what
    was found before: the ring holds the three newest of what has been
    found by the end, and the sink has one more line per discovery. *)
Lemma replay_effect (events : list Event) :
  forall (found : list jsstring) (w : World),
    recentlyFound (this w) = firstn 3 (rev found) ->
    recentlyFound (this (replay events w))
    = firstn 3 (rev (found ++ discovered events))
    /\ written (replay events w) = written w ++ map line (discovered events).
Proof.
  induction events as [|event events IH]; intros found w Hring.
  - cbn. now rewrite !app_nil_r.
  - change (replay (event :: events) w)
      with (replay events (happen w event)).
    change (event :: events) with ([event] ++ events).
    rewrite discovered_app, app_assoc, map_app, app_assoc.
    destruct (happen_effect w event) as [Hr Hw]. rewrite <- Hw.
    apply IH. rewrite Hr, Hring.
    destruct event as [domain|frame reply|id|]; cbn; rewrite ?app_nil_r;
      try reflexivity.
    destruct (isAvailable reply); cbn; rewrite ?app_nil_r; [|reflexivity].
    rewrite rev_app_distr. apply pushRecent_newest.
Qed.

(** What the summary does to the ring: nothing when at most 10 domains
    were found and the file was read back; it reverses it otherwise. *)
Lemma printSummary_ring (readFileSync_throws : bool) (w : World) :
  recentlyFound (this (printSummary readFileSync_throws w))
  = if (available (stats (this w)) <=? 10)%Z && negb readFileSync_throws
    then recentlyFound (this w)
    else rev (recentlyFound (this w)).
Proof.
  unfold printSummary.
  destruct (recentlyFound (this w)) as [|d ring] eqn:Hr.
  - cbn. rewrite ?Hr. now destruct (_ && _).
  - replace (0 <? js_length (d :: ring))%Z with true
      by (symmetry; apply Z.ltb_lt; unfold js_length; cbn; lia).
    destruct (available (stats (this w)) <=? 10)%Z;
      [destruct readFileSync_throws|]; cbn; now rewrite ?Hr.
Qed.

(** C7, as the code has it. The ring of a new finder is empty. From an
    empty ring and after any sequence of events of a run (callbacks
    started, replies handled in any order, timers fired, progress shown)
    the ring has at most 3 entries and holds exactly the domains of the
    last replies whose outcome is [Available], newest first, each of which
    has its line in the sink; it is not empty once a domain has been
    discovered. The final summary then leaves it as it is when at most 10
    domains were found and the file was read back, and reverses it in
    place otherwise: oldest first. *)
Theorem recentlyFound_reflects_last_hits (cfg : Configuration)
    (options : FinderOptions) (readFileSync_throws : bool)
    (events : list Event) (w0 : World) :
  recentlyFound (this w0) = [] ->
  recentlyFound (constructor cfg options) = []
  /\ length (recentlyFound (this (replay events w0))) <= 3
  /\ recentlyFound (this (replay events w0))
     = firstn 3 (rev (discovered events))
  /\ (discovered events <> [] -> recentlyFound (this (replay events w0)) <> [])
  /\ written (replay events w0) = written w0 ++ map line (discovered events)
  /\ recentlyFound
       (this (printSummary readFileSync_throws (replay events w0)))
     = if (available (stats (this (replay events w0))) <=? 10)%Z
          && negb readFileSync_throws
       then firstn 3 (rev (discovered events))
       else rev (firstn 3 (rev (discovered events))).
Proof.
  intros Hring. split; [reflexivity|].
  destruct (replay_effect events [] w0) as [Hr Hw]; [now rewrite Hring|].
  cbn [app] in Hr.
  split; [rewrite Hr, length_firstn; lia|].
  split; [exact Hr|].
  split.
  { rewrite Hr. intros Hsome Hnone. apply Hsome.
    destruct (discovered events) as [|d found] using rev_ind;
      [reflexivity|].
    rewrite rev_app_distr in Hnone. discriminate Hnone. }
  split; [exact Hw|].
  now rewrite printSummary_ring, Hr.
Qed.

(** The scheduler only takes steps of the run, so the ring reflects the
    sink when it returns. *)
Lemma processDomainBatch_ring (dns : nat -> jsstring -> DnsOutcome)
    (arrival : list (nat * ProbeFrame) -> list (nat * ProbeFrame))
    (roundedFill : Z -> Z -> jsnumber)
    (domains : list jsstring) (w : World) :
  (forall l, Permutation l (arrival l)) ->
  (forall c t, (0 <= c <= t)%Z -> (0 < t)%Z ->
     exists n, roundedFill c t = Finite n /\ (0 <= n <= 40)%Z) ->
  (1 <= concurrentChecks (this w))%Z ->
  (0 <= checked (stats (this w)))%Z ->
  (checked (stats (this w)) + js_length domains
   <= total (stats (this w)))%Z ->
  recentlyFound (this w) = [] ->
  written w = [] ->
  exists results w',
    processDomainBatch dns arrival roundedFill domains w
    = Some (Normal results, w')
    /\ length (recentlyFound (this w')) <= 3
    /\ map line (recentlyFound (this w')) = firstn 3 (rev (written w')).
Proof.
  intros Harrival Hfill Hsize Hch0 Hroom Hring Hsink.
  destruct (processDomainBatch_spec dns arrival roundedFill Harrival Hfill
              domains w Hsize Hch0 Hroom)
    as (frames & w' & Heq & _ & _ & _ & _ & _ & _ & Hsteps & _).
  eexists _, w'. split; [exact Heq|].
  now apply (run_steps_ring_bounded w w').
Qed.

Lemma recentlyFound_reflects_last_hits_witness :
  recentlyFound (this (replay ringEvents newFinder))
  = [js "d.io"; js "c.io"; js "b.io"]
  /\ recentlyFound (constructor CONFIG noOptions) = []
  /\ length (recentlyFound (this (replay ringEvents newFinder))) <= 3
  /\ recentlyFound (this (replay ringEvents newFinder))
     = firstn 3 (rev (discovered ringEvents))
  /\ (discovered ringEvents <> []
      -> recentlyFound (this (replay ringEvents newFinder)) <> [])
  /\ written (replay ringEvents newFinder)
     = written newFinder ++ map line (discovered ringEvents)
  /\ recentlyFound (this (printSummary true (replay ringEvents newFinder)))
     = if (available (stats (this (replay ringEvents newFinder))) <=? 10)%Z
          && negb true
       then firstn 3 (rev (discovered ringEvents))
       else rev (firstn 3 (rev (discovered ringEvents))).
Proof.
  split; [reflexivity|].
  apply (recentlyFound_reflects_last_hits CONFIG noOptions true ringEvents
           newFinder).
  reflexivity.
Defined.

(** C7, the counterexample. All 36 candidates of [a*.io] are answered
    [ENOTFOUND], in order. The run completes; the last three lines of the
    sink are those of [a9.io], [a8.io] and [a7.io], newest first, and the
    ring holds the three domains oldest first. *)
Lemma recentlyFound_oldest_first_after_summary :
  option_map
    (fun r =>
       (fst r, firstn 3 (rev (written (snd r))),
        recentlyFound (this (snd r))))
    (findAvailableDomains CONFIG (fun chars => chars)
       (fun _ _ => Failed {| code := Some (js "ENOTFOUND") |})
       (fun tasks => tasks) 0 false idealFill (js "a*.io") newFinder)
  = Some
      (Normal tt,
       [line (js "a9.io"); line (js "a8.io"); line (js "a7.io")],
       [js "a7.io"; js "a8.io"; js "a9.io"]).
Proof. vm_compute. reflexivity. Qed.

(** Every step of a run is an event, so what holds after every sequence
    of events holds after every sequence of steps. *)
Lemma run_steps_replay (w w' : World) :
  rtc run_step w w' -> exists events, w' = replay events w.
Proof.
  induction 1 as [w|w1 w2 w3 Hstep _ (events & ->)]; [now exists []|].
  destruct Hstep.
  - now exists (callbackStarts domain :: events).
  - now exists (replyArrives frame reply :: events).
  - now exists (progressShown :: events).
Qed.

(** * Further properties *)

(** ** The generator: exhaustive, wildcard-free, insensitive to the shuffle *)

Lemma instantiates_in_expansions (alphabet pattern candidate : jsstring) :
  instantiates alphabet pattern candidate ->
  In candidate (expansions alphabet pattern).
Proof.
  unfold instantiates. intros H.
  induction H as [|p c pattern candidate Hpc _ IH]; [now left|].
  cbn [expansions]. destruct (Ascii.eqb p WILDCARD).
  - apply in_flat_map. exists c. split; [exact Hpc|]. now apply in_map.
  - subst c. now apply in_map.
Qed.

Lemma in_expansions_iff (alphabet pattern candidate : jsstring) :
  In candidate (expansions alphabet pattern)
  <-> instantiates alphabet pattern candidate.
Proof.
  split; [|apply instantiates_in_expansions].
  intros Hin.
  exact (proj1 (List.Forall_forall _ _)
           (expansions_instantiate alphabet pattern) candidate Hin).
Qed.

Lemma instantiates_shape (alphabet pattern candidate : jsstring) :
  includes WILDCARD alphabet = false ->
  instantiates alphabet pattern candidate ->
  length candidate = length pattern
  /\ includes WILDCARD candidate = false.
Proof.
  intros Hfree H. unfold instantiates in H.
  induction H as [|p c pattern candidate Hpc _ [IHlen IHfree]];
    [now split|].
  split; [cbn; now rewrite IHlen|].
  unfold includes in *. cbn [existsb]. rewrite IHfree, orb_false_r.
  destruct (Ascii.eqb p WILDCARD) eqn:Hp.
  - destruct (Ascii.eqb WILDCARD c) eqn:Hc; [|reflexivity].
    apply Ascii.eqb_eq in Hc. subst c.
    assert (Hex : existsb (Ascii.eqb WILDCARD) alphabet = true).
    { apply existsb_exists. exists WILDCARD.
      split; [exact Hpc | apply Ascii.eqb_refl]. }
    congruence.
  - subst c. now rewrite Ascii.eqb_sym.
Qed.

Lemma flat_map_cons_perm (alphabet alphabet' : jsstring)
    (l l' : list jsstring) :
  Permutation alphabet alphabet' -> Permutation l l' ->
  Permutation (flat_map (fun a => map (cons a) l) alphabet)
    (flat_map (fun a => map (cons a) l') alphabet').
Proof.
  intros Ha Hl.
  transitivity (flat_map (fun a => map (cons a) l) alphabet').
  - now apply Permutation_flat_map.
  - clear Ha. induction alphabet' as [|a alphabet' IH]; cbn; [constructor|].
    apply Permutation_app; [now apply Permutation_map | exact IH].
Qed.

Lemma expansions_perm (alphabet alphabet' pattern : jsstring) :
  Permutation alphabet alphabet' ->
  Permutation (expansions alphabet pattern) (expansions alphabet' pattern).
Proof.
  intros Ha. induction pattern as [|p pattern IH]; cbn; [reflexivity|].
  destruct (Ascii.eqb p WILDCARD).
  - now apply flat_map_cons_perm.
  - now apply Permutation_map.
Qed.

(** X1. The generator is exhaustive and sound: a string is among the
    candidates exactly when it is the pattern with every marker replaced by
    a character of the alphabet and every other position unchanged. *)
Theorem generateDomains_exhaustive (cfg : Configuration)
    (sort_random : list jsstring -> list jsstring) (baseDomain : jsstring)
    (randomize : option bool) (candidate : jsstring) :
  (forall l, Permutation l (sort_random l)) ->
  In candidate (generateDomains cfg sort_random baseDomain randomize)
  <-> instantiates (ALPHABET cfg) baseDomain candidate.
Proof.
  intros Hperm.
  destruct (generateDomains_expansions cfg sort_random Hperm baseDomain
              randomize) as (alphabet' & Hp & _ & ->).
  rewrite in_expansions_iff. split.
  - now apply instantiates_perm.
  - apply instantiates_perm. now symmetry.
Qed.

Lemma generateDomains_exhaustive_witness :
  In (js "a7c.io") (generateDomains CONFIG (@rev jsstring) (js "a*c.io") None)
  <-> instantiates (ALPHABET CONFIG) (js "a*c.io") (js "a7c.io").
Proof.
  apply (generateDomains_exhaustive CONFIG (@rev jsstring) (js "a*c.io") None
           (js "a7c.io")).
  intros l. apply Permutation_rev.
Defined.

(** X2. When the alphabet holds no ['*'], every candidate has the length
    of the pattern and holds no ['*']: no marker is left unfilled, whatever
    the number of markers. *)
Theorem generateDomains_fills_every_wildcard (cfg : Configuration)
    (sort_random : list jsstring -> list jsstring) (baseDomain : jsstring)
    (randomize : option bool) :
  (forall l, Permutation l (sort_random l)) ->
  includes WILDCARD (ALPHABET cfg) = false ->
  Forall
    (fun candidate =>
       length candidate = length baseDomain
       /\ includes WILDCARD candidate = false)
    (generateDomains cfg sort_random baseDomain randomize).
Proof.
  intros Hperm Hfree. apply List.Forall_forall. intros candidate Hin.
  apply (instantiates_shape (ALPHABET cfg)); [exact Hfree|].
  destruct (generateDomains_expansions cfg sort_random Hperm baseDomain
              randomize) as (alphabet' & Hp & _ & Heq).
  rewrite Heq in Hin. apply in_expansions_iff in Hin.
  now apply (instantiates_perm _ alphabet').
Qed.

Lemma generateDomains_fills_every_wildcard_witness :
  includes WILDCARD (ALPHABET CONFIG) = false
  /\ Forall
       (fun candidate =>
          length candidate = length (js "*x*.org")
          /\ includes WILDCARD candidate = false)
       (generateDomains CONFIG (@rev jsstring) (js "*x*.org") None).
Proof.
  split; [reflexivity|].
  apply (generateDomains_fills_every_wildcard CONFIG (@rev jsstring)
           (js "*x*.org") None).
  - intros l. apply Permutation_rev.
  - reflexivity.
Defined.

(** X3. Shuffling changes the order of the candidates and nothing else:
    the list returned with [randomize] set is a rearrangement of the list
    returned without it. *)
Theorem generateDomains_shuffle_rearranges (cfg : Configuration)
    (sort_random : list jsstring -> list jsstring) (baseDomain : jsstring) :
  (forall l, Permutation l (sort_random l)) ->
  Permutation (generateDomains cfg sort_random baseDomain (Some true))
    (generateDomains cfg sort_random baseDomain (Some false)).
Proof.
  intros Hperm.
  destruct (generateDomains_expansions cfg sort_random Hperm baseDomain
              (Some true)) as (alphabet' & Hp & _ & ->).
  destruct (generateDomains_expansions cfg sort_random Hperm baseDomain
              (Some false)) as (alphabet0 & _ & Hsame & ->).
  rewrite (Hsame eq_refl). apply expansions_perm. now symmetry.
Qed.

Lemma generateDomains_shuffle_rearranges_witness :
  Permutation (generateDomains CONFIG (@rev jsstring) (js "t*.c*") (Some true))
    (generateDomains CONFIG (@rev jsstring) (js "t*.c*") (Some false)).
Proof.
  apply (generateDomains_shuffle_rearranges CONFIG (@rev jsstring)
           (js "t*.c*")).
  intros l. apply Permutation_rev.
Defined.

(** ** The accounts of a run: counters, sink, snapshots *)

Lemma picked_perm (p : DnsOutcome -> bool)
    (dns : nat -> jsstring -> DnsOutcome) (l l' : list ProbeFrame) :
  Permutation l l' -> Permutation (picked p dns l) (picked p dns l').
Proof.
  intros H. unfold picked. apply Permutation_map.
  induction H as [|x l l' _ IH|x y l|l l' l'' _ IH1 _ IH2]; cbn.
  - constructor.
  - destruct (p _); [now constructor | exact IH].
  - destruct (p (dns (probe_query y) _)), (p (dns (probe_query x) _));
      try reflexivity. apply perm_swap.
  - now transitivity (List.filter
        (fun frame => p (dns (probe_query frame) (probe_domain frame))) l').
Qed.

Lemma picked_selectFrom (p : DnsOutcome -> bool)
    (dns : nat -> jsstring -> DnsOutcome) (frames : list ProbeFrame) :
  forall (rank : nat) (domains : list jsstring),
    map probe_domain frames = domains ->
    map probe_query frames = seq rank (length domains) ->
    picked p dns frames = selectFrom p dns rank domains.
Proof.
  induction frames as [|frame frames IH]; intros rank domains Hd Hq.
  - cbn in Hd. now subst domains.
  - cbn in Hd. subst domains. cbn in Hq. injection Hq as Hq0 Hq.
    rewrite length_map in Hq. unfold picked. cbn [List.filter selectFrom].
    rewrite Hq0.
    destruct (p (dns rank (probe_domain frame))); cbn [map app];
      [f_equal|]; apply (IH (S rank)); try reflexivity;
      now rewrite length_map.
Qed.

Lemma selectFrom_app (p : DnsOutcome -> bool)
    (dns : nat -> jsstring -> DnsOutcome) (l l' : list jsstring) :
  forall rank,
    selectFrom p dns rank (l ++ l')
    = selectFrom p dns rank l ++ selectFrom p dns (rank + length l) l'.
Proof.
  induction l as [|d l IH]; intros rank; cbn.
  - now rewrite Nat.add_0_r.
  - rewrite IH, <- app_assoc. do 3 f_equal. lia.
Qed.

Lemma suspended_frames (frames : list ProbeFrame) :
  forall k, map snd (suspended k (map Awaiting frames)) = frames.
Proof.
  induction frames as [|frame frames IH]; intros k; cbn; [reflexivity|].
  now rewrite IH.
Qed.

Lemma launch_all_written (batch : list jsstring) :
  forall (promises : list Promise) (w : World),
    written (snd (fold_left launch batch (promises, w))) = written w.
Proof.
  induction batch as [|domain batch IH]; intros promises w; [reflexivity|].
  cbn [fold_left]. unfold launch at 2.
  rewrite (surjective_pairing (callback_begin domain w)), callback_begin_eq.
  rewrite IH.
  now destruct (callback_begin_effect domain w) as (_ & _ & _ & _ & ->).
Qed.

Lemma accounted_refl (dns : nat -> jsstring -> DnsOutcome) (w : World) :
  accounted dns [] w w.
Proof.
  exists []. cbn. rewrite !app_nil_r, !Z.add_0_r. repeat split. constructor.
Qed.

Lemma accounted_trans (dns : nat -> jsstring -> DnsOutcome)
    (batch batch' : list jsstring) (w w1 w2 : World) :
  accounted dns batch w w1 -> accounted dns batch' w1 w2 ->
  accounted dns (batch ++ batch') w w2.
Proof.
  intros (new & Hw & Hp & Hq & Ha & He) (new' & Hw' & Hp' & Hq' & Ha' & He').
  assert (Hrank : length (queries w1) = length (queries w) + length batch)
    by (rewrite Hq; apply length_app).
  rewrite Hrank in *.
  exists (new ++ new'). rewrite !selectFrom_app, map_app.
  split; [now rewrite Hw', Hw, <- app_assoc|].
  split; [now apply Permutation_app|].
  split; [now rewrite Hq', Hq, <- app_assoc|].
  unfold js_length in *. rewrite !length_app. split; lia.
Qed.

Section AccountFacts.

Variable dns : nat -> jsstring -> DnsOutcome.
Variable arrival : list (nat * ProbeFrame) -> list (nat * ProbeFrame).
Variable roundedFill : Z -> Z -> jsnumber.
Hypothesis arrival_perm : forall l, Permutation l (arrival l).

(** The replies of a batch, in the order they come: each reply of the
    not-found class adds its line to the sink, in that order. *)
Lemma settle_world (order : list (nat * ProbeFrame)) :
  forall (promises : list Promise) (w : World),
    written (snd (fold_left (settle dns) order (promises, w)))
    = written w ++ map line (picked isAvailable dns (map snd order))
    /\ queries (snd (fold_left (settle dns) order (promises, w)))
       = queries w
    /\ available (stats (this (snd (fold_left (settle dns) order
                                       (promises, w)))))
       = (available (stats (this w))
          + js_length (picked isAvailable dns (map snd order)))%Z
    /\ errors (stats (this (snd (fold_left (settle dns) order
                                    (promises, w)))))
       = (errors (stats (this w))
          + js_length (picked isError dns (map snd order)))%Z.
Proof.
  induction order as [|[slot frame] order IH]; intros promises w.
  - cbn. rewrite app_nil_r, !Z.add_0_r. repeat split.
  - cbn [fold_left]. rewrite settle_eq.
    set (reply := dns (probe_query frame) (probe_domain frame)).
    destruct (IH (<[slot := Done (fulfilled (valueOf dns frame))]> promises)
                 (snd (callback_resume frame reply w)))
      as (-> & -> & -> & ->).
    destruct (callback_resume_effect frame reply w)
      as (_ & -> & _ & _ & _ & -> & -> & -> & _).
    unfold picked, js_length. cbn [map snd List.filter]. fold reply.
    destruct (isAvailable reply), (isError reply);
      cbn [map app length]; rewrite <- ?app_assoc, ?app_nil_r;
      repeat split; lia.
Qed.

(** A whole batch is accounted for, whatever the order of the replies. *)
Lemma runBatch_accounted (batch : list jsstring) (w : World) :
  accounted dns batch w (snd (runBatch dns arrival batch w)).
Proof using arrival_perm.
  unfold runBatch.
  pose proof (launch_all_written batch [] w) as Hw1.
  destruct (launch_all batch [] w)
    as (frames & w1 & Heq & Hd & Hq & Hs & _ & _ & Hn).
  rewrite Heq in Hw1 |- *. cbn [app snd] in Hw1 |- *.
  set (tasks := suspended 0 (map Awaiting frames)).
  destruct (settle_world (arrival tasks) (map Awaiting frames) w1)
    as (Hw & Hq' & Ha & He).
  assert (Hframes : Permutation (map snd (arrival tasks)) frames).
  { rewrite <- (suspended_frames frames 0). apply Permutation_map.
    symmetry. apply arrival_perm. }
  assert (Hsel : forall p,
             picked p dns frames
             = selectFrom p dns (length (queries w)) batch).
  { intros p. now apply picked_selectFrom. }
  exists (map line (picked isAvailable dns (map snd (arrival tasks)))).
  split; [now rewrite Hw, Hw1|].
  split; [rewrite <- Hsel; apply Permutation_map; now apply picked_perm|].
  split; [now rewrite Hq', Hq|].
  rewrite Ha, He, Hs, <- !Hsel. unfold js_length.
  rewrite (Permutation_length (picked_perm isAvailable dns _ _ Hframes)).
  rewrite (Permutation_length (picked_perm isError dns _ _ Hframes)).
  now split.
Qed.

(** A turn that ends, normally or by the throw of [displayProgress], has
    accounted for its batch. *)
Lemma turn_accounted (batch : list jsstring) (results : list Settlement)
    (w : World) (c : Completion (list Settlement)) (w' : World) :
  turn dns arrival roundedFill batch results w = Some (c, w') ->
  accounted dns batch w w'.
Proof using arrival_perm.
  unfold turn. pose proof (runBatch_accounted batch w) as Hacc.
  destruct (runBatch dns arrival batch w) as [promises w1]. cbn [snd] in Hacc.
  destruct (allSettled promises); [|discriminate].
  destruct (_ || _); [|now intros [= <- <-]].
  unfold displayProgress. destruct (_ && _); intros [= <- <-];
    [|exact Hacc].
  destruct Hacc as (new & H). exists new. exact H.
Qed.

Lemma turns_accounted (todo : list (list jsstring)) :
  forall (results : list Settlement) (w : World)
         (results' : list Settlement) (w' : World),
    turns dns arrival roundedFill todo results w
    = Some (Normal results', w') ->
    accounted dns (concat todo) w w'.
Proof using arrival_perm.
  induction todo as [|batch todo IH]; intros results w results' w'.
  - cbn. intros [= <- <-]. apply accounted_refl.
  - cbn [turns concat].
    destruct (turn dns arrival roundedFill batch results w)
      as [[[results1|e] w1]|] eqn:Hturn; try discriminate.
    intros Hrest. apply (accounted_trans dns batch (concat todo) w w1 w').
    + exact (turn_accounted _ _ _ _ _ Hturn).
    + exact (IH _ _ _ _ Hrest).
Qed.

(** The scheduler, when it returns, has accounted for every candidate. *)
Lemma processDomainBatch_accounted (domains : list jsstring) (w : World)
    (results : list Settlement) (w' : World) :
  (1 <= concurrentChecks (this w))%Z ->
  processDomainBatch dns arrival roundedFill domains w
  = Some (Normal results, w') ->
  accounted dns domains w w'.
Proof using arrival_perm.
  intros Hsize. unfold processDomainBatch.
  pose proof (batchLoop_turns dns arrival roundedFill arrival_perm domains
                (length domains) 0 [] w Hsize) as Hloop.
  change (Z.of_nat 0) with 0%Z in Hloop. rewrite Hloop by lia.
  intros Hturns. apply turns_accounted in Hturns.
  pose proof (batches_concat (concurrentChecks (this w)) domains Hsize
                (length domains) 0) as Hcat.
  change (Z.of_nat 0) with 0%Z in Hcat. cbn [skipn] in Hcat.
  now rewrite Hcat in Hturns by lia.
Qed.

End AccountFacts.

Lemma callback_console (domain : jsstring) (frame : ProbeFrame)
    (reply : DnsOutcome) (w : World) :
  console (snd (callback_begin domain w)) = console w
  /\ console (snd (callback_resume frame reply w)) = console w.
Proof.
  split; [reflexivity|].
  unfold callback_resume, bind. rewrite isDomainAvailable_resume_eq.
  destruct reply as [records|error]; [reflexivity|].
  destruct (notFoundClass error); cbn; [|reflexivity].
  now destruct (3 <? _)%Z.
Qed.

Lemma run_step_adds_up (w w' : World) :
  run_step w w' ->
  stats_add_up w /\ Forall frame_adds_up (console w) ->
  stats_add_up w' /\ Forall frame_adds_up (console w').
Proof.
  unfold stats_add_up, counters_add_up.
  intros Hstep [Hstats Hframes]. destruct Hstep.
  - destruct (callback_begin_effect domain w) as (_ & -> & _).
    now rewrite (proj1 (callback_console domain
                          {| probe_domain := domain; probe_timeoutId := 0;
                             probe_query := 0 |} (Resolved []) w)).
  - rewrite (proj2 (callback_console [] frame reply w)).
    split; [|exact Hframes].
    destruct (callback_resume_effect frame reply w)
      as (_ & _ & _ & _ & -> & -> & -> & _).
    unfold isAvailable, isError. destruct (classify reply); lia.
  - split; [exact Hstats|]. cbn. apply Forall_app. split; [exact Hframes|].
    constructor; [exact Hstats | constructor].
Qed.

Lemma run_steps_add_up (w w' : World) :
  rtc run_step w w' ->
  stats_add_up w /\ Forall frame_adds_up (console w) ->
  stats_add_up w' /\ Forall frame_adds_up (console w').
Proof.
  induction 1 as [w|w1 w2 w3 Hstep _ IH]; [tauto|].
  intros Hinv. apply IH. now apply (run_step_adds_up w1).
Qed.

(** X4. On a finder whose counters add up (none negative, available plus
    errors at most checked), in a state a run can start the scheduler in,
    the scheduler returns with counters that add up, and every snapshot it
    has shown adds up as well. *)
Theorem processDomainBatch_counters_add_up
    (dns : nat -> jsstring -> DnsOutcome)
    (arrival : list (nat * ProbeFrame) -> list (nat * ProbeFrame))
    (roundedFill : Z -> Z -> jsnumber)
    (domains : list jsstring) (w : World) :
  (forall l, Permutation l (arrival l)) ->
  (forall c t, (0 <= c <= t)%Z -> (0 < t)%Z ->
     exists n, roundedFill c t = Finite n /\ (0 <= n <= 40)%Z) ->
  (1 <= concurrentChecks (this w))%Z ->
  (checked (stats (this w)) + js_length domains
   <= total (stats (this w)))%Z ->
  stats_add_up w ->
  Forall frame_adds_up (console w) ->
  exists (results : list Settlement) (w' : World),
    processDomainBatch dns arrival roundedFill domains w
    = Some (Normal results, w')
    /\ stats_add_up w'
    /\ Forall frame_adds_up (console w').
Proof.
  intros Harrival Hfill Hsize Hroom Hstats Hframes.
  assert (Hch0 : (0 <= checked (stats (this w)))%Z).
  { destruct Hstats as (Ha & He & Hsum). lia. }
  destruct (processDomainBatch_spec dns arrival roundedFill Harrival Hfill
              domains w Hsize Hch0 Hroom)
    as (frames & w' & Heq & _ & _ & _ & _ & _ & _ & Hsteps & _).
  eexists _, w'. split; [exact Heq|].
  now apply (run_steps_add_up w w').
Qed.

Lemma processDomainBatch_counters_add_up_witness :
  stats_add_up batchDemo
  /\ exists (results : list Settlement) (w' : World),
       processDomainBatch
         (fun rank _ =>
            match rank with
            | 0 => Failed {| code := Some (js "ENOTFOUND") |}
            | 1 => Resolved [js "192.0.2.1"]
            | _ => Failed {| code := Some (js "ESERVFAIL") |}
            end)
         (@rev (nat * ProbeFrame)) idealFill
         [js "a.io"; js "b.io"; js "c.io"; js "d.io"; js "e.io"] batchDemo
       = Some (Normal results, w')
       /\ stats_add_up w'
       /\ Forall frame_adds_up (console w').
Proof.
  assert (Hdemo : stats_add_up batchDemo).
  { unfold stats_add_up, counters_add_up. cbn. lia. }
  split; [exact Hdemo|].
  apply (processDomainBatch_counters_add_up _ (@rev (nat * ProbeFrame))
           idealFill
           [js "a.io"; js "b.io"; js "c.io"; js "d.io"; js "e.io"]
           batchDemo).
  - intros l. apply Permutation_rev.
  - exact idealFill_in_range.
  - apply Z.leb_le. reflexivity.
  - apply Z.leb_le. reflexivity.
  - exact Hdemo.
  - constructor.
Defined.

(** X5. In a state a run can start the scheduler in, the scheduler returns
    having added to the sink, in some order, exactly the lines of the
    candidates whose resolution failed with [ENOTFOUND] or [ENODATA], one
    line each and nothing else; [available] has grown by their number and
    [errors] by the number of candidates whose resolution failed
    otherwise. *)
Theorem processDomainBatch_sink_and_counters
    (dns : nat -> jsstring -> DnsOutcome)
    (arrival : list (nat * ProbeFrame) -> list (nat * ProbeFrame))
    (roundedFill : Z -> Z -> jsnumber)
    (domains : list jsstring) (w : World) :
  (forall l, Permutation l (arrival l)) ->
  (forall c t, (0 <= c <= t)%Z -> (0 < t)%Z ->
     exists n, roundedFill c t = Finite n /\ (0 <= n <= 40)%Z) ->
  (1 <= concurrentChecks (this w))%Z ->
  (0 <= checked (stats (this w)))%Z ->
  (checked (stats (this w)) + js_length domains
   <= total (stats (this w)))%Z ->
  exists (results : list Settlement) (w' : World) (new : list jsstring),
    processDomainBatch dns arrival roundedFill domains w
    = Some (Normal results, w')
    /\ written w' = written w ++ new
    /\ Permutation new
         (map line (selectFrom isAvailable dns (length (queries w)) domains))
    /\ available (stats (this w'))
       = (available (stats (this w))
          + js_length
              (selectFrom isAvailable dns (length (queries w)) domains))%Z
    /\ errors (stats (this w'))
       = (errors (stats (this w))
          + js_length
              (selectFrom isError dns (length (queries w)) domains))%Z.
Proof.
  intros Harrival Hfill Hsize Hch0 Hroom.
  destruct (processDomainBatch_spec dns arrival roundedFill Harrival Hfill
              domains w Hsize Hch0 Hroom) as (frames & w' & Heq & _).
  destruct (processDomainBatch_accounted dns arrival roundedFill Harrival
              domains w _ w' Hsize Heq) as (new & Hw & Hp & _ & Ha & He).
  eexists _, w', new. split; [exact Heq|]. repeat split; assumption.
Qed.

Lemma processDomainBatch_sink_and_counters_witness :
  exists (results : list Settlement) (w' : World) (new : list jsstring),
    processDomainBatch
      (fun rank _ =>
         match rank with
         | 0 => Failed {| code := Some (js "ENOTFOUND") |}
         | 1 => Resolved [js "192.0.2.1"]
         | 2 => Failed {| code := Some (js "ESERVFAIL") |}
         | _ => Failed {| code := Some (js "ENODATA") |}
         end)
      (@rev (nat * ProbeFrame)) idealFill
      [js "a.io"; js "b.io"; js "c.io"; js "d.io"; js "e.io"] batchDemo
    = Some (Normal results, w')
    /\ written w' = written batchDemo ++ new
    /\ Permutation new [line (js "a.io"); line (js "d.io"); line (js "e.io")]
    /\ available (stats (this w')) = 3%Z
    /\ errors (stats (this w')) = 1%Z.
Proof.
  apply (processDomainBatch_sink_and_counters
           (fun rank _ =>
              match rank with
              | 0 => Failed {| code := Some (js "ENOTFOUND") |}
              | 1 => Resolved [js "192.0.2.1"]
              | 2 => Failed {| code := Some (js "ESERVFAIL") |}
              | _ => Failed {| code := Some (js "ENODATA") |}
              end)
           (@rev (nat * ProbeFrame)) idealFill
           [js "a.io"; js "b.io"; js "c.io"; js "d.io"; js "e.io"]
           batchDemo).
  - intros l. apply Permutation_rev.
  - exact idealFill_in_range.
  - apply Z.leb_le. reflexivity.
  - apply Z.leb_le. reflexivity.
  - apply Z.leb_le. reflexivity.
Defined.

(** X6. A run on a finder that has checked nothing yet: the output file is
    started anew, so at the end it holds, in some order, exactly the lines
    of the generated candidates answered with [ENOTFOUND] or [ENODATA],
    whatever it held before; [total] and [checked] are the number of
    candidates, [available] and [errors] have grown by the numbers of
    candidates found available and in error, and the stream is ended. *)
Theorem findAvailableDomains_accounts (cfg : Configuration)
    (sort_random : list jsstring -> list jsstring)
    (dns : nat -> jsstring -> DnsOutcome)
    (arrival : list (nat * ProbeFrame) -> list (nat * ProbeFrame))
    (Date_now : Z) (readFileSync_throws : bool)
    (roundedFill : Z -> Z -> jsnumber) (baseDomain : jsstring) (w : World) :
  (forall l, Permutation l (arrival l)) ->
  (forall c t, (0 <= c <= t)%Z -> (0 < t)%Z ->
     exists n, roundedFill c t = Finite n /\ (0 <= n <= 40)%Z) ->
  (1 <= concurrentChecks (this w))%Z ->
  checked (stats (this w)) = 0%Z ->
  exists w',
    findAvailableDomains cfg sort_random dns arrival Date_now
      readFileSync_throws roundedFill baseDomain w = Some (Normal tt, w')
    /\ Permutation (written w')
         (map line
            (selectFrom isAvailable dns (length (queries w))
               (generateDomains cfg sort_random baseDomain None)))
    /\ total (stats (this w'))
       = js_length (generateDomains cfg sort_random baseDomain None)
    /\ checked (stats (this w'))
       = js_length (generateDomains cfg sort_random baseDomain None)
    /\ available (stats (this w'))
       = (available (stats (this w))
          + js_length
              (selectFrom isAvailable dns (length (queries w))
                 (generateDomains cfg sort_random baseDomain None)))%Z
    /\ errors (stats (this w'))
       = (errors (stats (this w))
          + js_length
              (selectFrom isError dns (length (queries w))
                 (generateDomains cfg sort_random baseDomain None)))%Z
    /\ ended w' = true.
Proof.
  intros Harrival Hfill Hsize Hch0.
  destruct (findAvailableDomains_spec cfg sort_random dns arrival Date_now
              readFileSync_throws roundedFill Harrival Hfill baseDomain w
              Hsize Hch0) as (w' & Hrun & _ & Ht & Hch & Hend).
  exists w'. split; [exact Hrun|].
  unfold findAvailableDomains in Hrun.
  set (domains := generateDomains cfg sort_random baseDomain None) in *.
  set (w2 := withEnded false _) in Hrun.
  destruct (processDomainBatch dns arrival roundedFill domains w2)
    as [[[results|e] w3]|] eqn:Hbatch; try discriminate.
  injection Hrun as <-.
  destruct (processDomainBatch_accounted dns arrival roundedFill Harrival
              domains w2 results w3 Hsize Hbatch)
    as (new & Hw & Hp & _ & Ha & He).
  destruct (printSummary_effect readFileSync_throws w3) as (_ & Hs' & Hw').
  cbn [written withEnded stats this] in *. rewrite Hs', Hw' in *.
  rewrite Hw, Ha, He. subst w2. cbn. repeat split; assumption.
Qed.

Lemma findAvailableDomains_accounts_witness :
  exists w',
    findAvailableDomains CONFIG (@rev jsstring)
      (fun rank _ =>
         match rank with
         | 0 => Failed {| code := Some (js "ENOTFOUND") |}
         | _ => Resolved [js "192.0.2.1"]
         end)
      (@rev (nat * ProbeFrame)) 0 false idealFill (js "a*.io")
      (withWritten (fun _ => [line (js "old.io")]) newFinder)
    = Some (Normal tt, w')
    /\ Permutation (written w') [line (js "a9.io")]
    /\ total (stats (this w')) = 36%Z
    /\ checked (stats (this w')) = 36%Z
    /\ available (stats (this w')) = 1%Z
    /\ errors (stats (this w')) = 0%Z
    /\ ended w' = true.
Proof.
  apply (findAvailableDomains_accounts CONFIG (@rev jsstring)
           (fun rank _ =>
              match rank with
              | 0 => Failed {| code := Some (js "ENOTFOUND") |}
              | _ => Resolved [js "192.0.2.1"]
              end)
           (@rev (nat * ProbeFrame)) 0 false idealFill (js "a*.io")
           (withWritten (fun _ => [line (js "old.io")]) newFinder)).
  - intros l. apply Permutation_rev.
  - exact idealFill_in_range.
  - apply Z.leb_le. reflexivity.
  - reflexivity.
Defined.

(** ** A batch size that is not positive; [main] on a valid pattern *)

(** With a batch size that is not positive the index never reaches the
    length: whatever the number of turns, the loop is still running, or has
    been ended by a throw of [displayProgress]. *)
Lemma batchLoop_stalls (dns : nat -> jsstring -> DnsOutcome)
    (arrival : list (nat * ProbeFrame) -> list (nat * ProbeFrame))
    (roundedFill : Z -> Z -> jsnumber) (domains : list jsstring) :
  (forall l, Permutation l (arrival l)) ->
  forall (fuel : nat) (i : Z) (results : list Settlement) (w : World),
    (concurrentChecks (this w) <= 0)%Z ->
    (i < js_length domains)%Z ->
    batchLoop dns arrival roundedFill fuel domains i results w = None
    \/ exists e w',
         batchLoop dns arrival roundedFill fuel domains i results w
         = Some (Throw e, w').
Proof.
  intros Harrival.
  induction fuel as [|fuel IH]; intros i results w Hsize Hi; cbn [batchLoop].
  - destruct (Z.ltb_spec i (js_length domains)); [now left | lia].
  - destruct (Z.ltb_spec i (js_length domains)); [|lia].
    destruct (turn dns arrival roundedFill
                (slice domains i (i + concurrentChecks (this w))) results w)
      as [[[results1|e] w1]|] eqn:Hturn.
    + pose proof (turn_concurrentChecks dns arrival roundedFill Harrival
                    _ _ _ _ _ Hturn) as Hc.
      apply IH; [rewrite Hc; exact Hsize | rewrite Hc; lia].
    + right. now exists e, w1.
    + now left.
Qed.

(** X7. A batch size that is not positive (a negative [-c] reaches the
    finder unchanged) makes the scheduler loop for ever on a non-empty
    list: within any number of turns it has not returned a result, it is
    still running or has been ended by a throw of [displayProgress]. *)
Theorem processDomainBatch_needs_positive_size
    (dns : nat -> jsstring -> DnsOutcome)
    (arrival : list (nat * ProbeFrame) -> list (nat * ProbeFrame))
    (roundedFill : Z -> Z -> jsnumber) (domains : list jsstring)
    (fuel : nat) (w : World) :
  (forall l, Permutation l (arrival l)) ->
  (concurrentChecks (this w) <= 0)%Z ->
  domains <> [] ->
  (batchLoop dns arrival roundedFill fuel domains 0 [] w = None
   \/ exists e w',
        batchLoop dns arrival roundedFill fuel domains 0 [] w
        = Some (Throw e, w'))
  /\ (processDomainBatch dns arrival roundedFill domains w = None
      \/ exists e w',
           processDomainBatch dns arrival roundedFill domains w
           = Some (Throw e, w')).
Proof.
  intros Harrival Hsize Hne.
  assert (Hlen : (0 < js_length domains)%Z).
  { destruct domains; [congruence|]. unfold js_length. cbn. lia. }
  split; [|unfold processDomainBatch];
    now apply batchLoop_stalls.
Qed.

Lemma processDomainBatch_needs_positive_size_witness :
  (batchLoop (fun _ _ => Resolved []) (@rev (nat * ProbeFrame)) idealFill
     1000 [js "a.io"; js "b.io"] 0 []
     (freshWorld (constructor CONFIG
        {| opt_concurrentChecks := Some (-5)%Z; opt_timeout := None;
           opt_outputFile := None |})) = None
   \/ exists e w',
        batchLoop (fun _ _ => Resolved []) (@rev (nat * ProbeFrame))
          idealFill 1000 [js "a.io"; js "b.io"] 0 []
          (freshWorld (constructor CONFIG
             {| opt_concurrentChecks := Some (-5)%Z; opt_timeout := None;
                opt_outputFile := None |}))
        = Some (Throw e, w'))
  /\ (processDomainBatch (fun _ _ => Resolved []) (@rev (nat * ProbeFrame))
        idealFill [js "a.io"; js "b.io"]
        (freshWorld (constructor CONFIG
           {| opt_concurrentChecks := Some (-5)%Z; opt_timeout := None;
              opt_outputFile := None |})) = None
      \/ exists e w',
           processDomainBatch (fun _ _ => Resolved [])
             (@rev (nat * ProbeFrame)) idealFill [js "a.io"; js "b.io"]
             (freshWorld (constructor CONFIG
                {| opt_concurrentChecks := Some (-5)%Z; opt_timeout := None;
                   opt_outputFile := None |}))
           = Some (Throw e, w')).
Proof.
  apply (processDomainBatch_needs_positive_size (fun _ _ => Resolved [])
           (@rev (nat * ProbeFrame)) idealFill [js "a.io"; js "b.io"] 1000
           (freshWorld (constructor CONFIG
              {| opt_concurrentChecks := Some (-5)%Z; opt_timeout := None;
                 opt_outputFile := None |}))).
  - intros l. apply Permutation_rev.
  - apply Z.leb_le. reflexivity.
  - discriminate.
Defined.

Lemma generateDomains_nonempty (cfg : Configuration)
    (sort_random : list jsstring -> list jsstring) (baseDomain : jsstring)
    (randomize : option bool) :
  (forall l, Permutation l (sort_random l)) ->
  ALPHABET cfg <> [] ->
  generateDomains cfg sort_random baseDomain randomize <> [].
Proof.
  intros Hperm Hne Hnil.
  destruct (generateDomains_expansions cfg sort_random Hperm baseDomain
              randomize) as (alphabet' & Hp & _ & Heq).
  rewrite Heq in Hnil. apply (f_equal (@length jsstring)) in Hnil.
  rewrite expansions_length in Hnil. cbn in Hnil.
  apply Nat.pow_eq_0_iff in Hnil. destruct Hnil as [_ Hzero].
  apply Hne. apply Permutation_sym in Hp.
  destruct (ALPHABET cfg); [reflexivity|].
  apply Permutation_length in Hp. cbn in Hp. lia.
Qed.

(** X8. [main] with a valid pattern and a negative concurrency never
    returns: the search loops for ever, or the process exits with status 1
    after a throw of [displayProgress]. *)
Theorem main_hangs_on_negative_concurrency (cfg : Configuration)
    (sort_random : list jsstring -> list jsstring)
    (dns : nat -> jsstring -> DnsOutcome)
    (arrival : list (nat * ProbeFrame) -> list (nat * ProbeFrame))
    (Date_now : Z) (readFileSync_throws : bool)
    (roundedFill : Z -> Z -> jsnumber) (options : ParsedArgs)
    (answer domain : jsstring) (w : World) :
  (forall l, Permutation l (sort_random l)) ->
  (forall l, Permutation l (arrival l)) ->
  ALPHABET cfg <> [] ->
  arg_help options = false ->
  arg_domain options = Some domain ->
  includes "."%char domain = true ->
  (arg_concurrentChecks options < 0)%Z ->
  main cfg sort_random dns arrival Date_now readFileSync_throws roundedFill
    options answer w = None
  \/ exists w',
       main cfg sort_random dns arrival Date_now readFileSync_throws
         roundedFill options answer w = Some (exited 1, w').
Proof.
  intros Hsort Harrival Halpha Hhelp Hdomain Hdot Hneg. unfold main.
  rewrite Hhelp, Hdomain. destruct domain as [|c s]; [discriminate|].
  rewrite Hdot. cbn [negb]. unfold findAvailableDomains.
  set (domains := generateDomains cfg sort_random (c :: s) None).
  set (w2 := withEnded false _).
  assert (Hlen : (0 < js_length domains)%Z).
  { pose proof (generateDomains_nonempty cfg sort_random (c :: s) None Hsort
                  Halpha) as Hne.
    fold domains in Hne. destruct domains; [congruence|].
    unfold js_length. cbn. lia. }
  assert (Hsize : (concurrentChecks (this w2) <= 0)%Z).
  { subst w2. cbn. destruct (Z.eqb_spec (arg_concurrentChecks options) 0);
      lia. }
  unfold processDomainBatch.
  destruct (batchLoop_stalls dns arrival roundedFill domains Harrival
              (length domains) 0 [] w2 Hsize Hlen)
    as [-> | (e & w3 & ->)]; [now left | right; eauto].
Qed.

Lemma main_hangs_on_negative_concurrency_witness :
  main CONFIG (@rev jsstring) (fun _ _ => Resolved [])
    (@rev (nat * ProbeFrame)) 0 false idealFill
    {| arg_domain := Some (js "ab*.io"); arg_concurrentChecks := (-3);
       arg_timeout := 5000; arg_outputFile := None; arg_help := false |}
    (js "") newFinder = None
  \/ exists w',
       main CONFIG (@rev jsstring) (fun _ _ => Resolved [])
         (@rev (nat * ProbeFrame)) 0 false idealFill
         {| arg_domain := Some (js "ab*.io"); arg_concurrentChecks := (-3);
            arg_timeout := 5000; arg_outputFile := None; arg_help := false |}
         (js "") newFinder = Some (exited 1, w').
Proof.
  apply (main_hangs_on_negative_concurrency CONFIG (@rev jsstring)
           (fun _ _ => Resolved []) (@rev (nat * ProbeFrame)) 0 false
           idealFill
           {| arg_domain := Some (js "ab*.io"); arg_concurrentChecks := (-3);
              arg_timeout := 5000; arg_outputFile := None;
              arg_help := false |}
           (js "") (js "ab*.io") newFinder).
  - intros l. apply Permutation_rev.
  - intros l. apply Permutation_rev.
  - discriminate.
  - reflexivity.
  - reflexivity.
  - reflexivity.
  - reflexivity.
Defined.

(** X9. [main] with a pattern that holds a ['.'], given on the command
    line or typed when asked, and a concurrency of at least 1: it makes a
    new finder, the search queries every generated candidate once, in
    order, [main] returns without calling [process.exit], the counters
    [checked] and [total] are the number of candidates, and the stream is
    ended. *)
Theorem main_runs_the_search (cfg : Configuration)
    (sort_random : list jsstring -> list jsstring)
    (dns : nat -> jsstring -> DnsOutcome)
    (arrival : list (nat * ProbeFrame) -> list (nat * ProbeFrame))
    (Date_now : Z) (readFileSync_throws : bool)
    (roundedFill : Z -> Z -> jsnumber) (options : ParsedArgs)
    (answer domain : jsstring) (w : World) :
  (forall l, Permutation l (arrival l)) ->
  (forall c t, (0 <= c <= t)%Z -> (0 < t)%Z ->
     exists n, roundedFill c t = Finite n /\ (0 <= n <= 40)%Z) ->
  arg_help options = false ->
  match arg_domain options with
  | Some (c :: s) => c :: s
  | _ => answer
  end = domain ->
  includes "."%char domain = true ->
  (1 <= arg_concurrentChecks options)%Z ->
  exists w',
    main cfg sort_random dns arrival Date_now readFileSync_throws roundedFill
      options answer w = Some (returned, w')
    /\ queries w' = queries w ++ generateDomains cfg sort_random domain None
    /\ checked (stats (this w'))
       = js_length (generateDomains cfg sort_random domain None)
    /\ total (stats (this w'))
       = js_length (generateDomains cfg sort_random domain None)
    /\ ended w' = true.
Proof.
  intros Harrival Hfill Hhelp Hdomain Hdot Hsize. unfold main.
  rewrite Hhelp, Hdomain. destruct domain as [|c s]; [discriminate|].
  rewrite Hdot. cbn [negb].
  set (w1 := withThis _ w).
  destruct (findAvailableDomains_spec cfg sort_random dns arrival Date_now
              readFileSync_throws roundedFill Harrival Hfill (c :: s) w1)
    as (w' & -> & Hq & Ht & Hch & Hend).
  - subst w1. cbn. destruct (Z.eqb_spec (arg_concurrentChecks options) 0);
      lia.
  - reflexivity.
  - exists w'. repeat split; assumption.
Qed.

Lemma main_runs_the_search_witness :
  exists w',
    main CONFIG (@rev jsstring)
      (fun _ _ => Failed {| code := Some (js "ENOTFOUND") |})
      (@rev (nat * ProbeFrame)) 0 false idealFill
      {| arg_domain := None; arg_concurrentChecks := 4; arg_timeout := 5000;
         arg_outputFile := None; arg_help := false |}
      (js "x*.dev") newFinder = Some (returned, w')
    /\ queries w'
       = queries newFinder
         ++ generateDomains CONFIG (@rev jsstring) (js "x*.dev") None
    /\ checked (stats (this w'))
       = js_length (generateDomains CONFIG (@rev jsstring) (js "x*.dev") None)
    /\ total (stats (this w'))
       = js_length (generateDomains CONFIG (@rev jsstring) (js "x*.dev") None)
    /\ ended w' = true.
Proof.
  apply (main_runs_the_search CONFIG (@rev jsstring)
           (fun _ _ => Failed {| code := Some (js "ENOTFOUND") |})
           (@rev (nat * ProbeFrame)) 0 false idealFill
           {| arg_domain := None; arg_concurrentChecks := 4;
              arg_timeout := 5000; arg_outputFile := None;
              arg_help := false |}
           (js "x*.dev") (js "x*.dev") newFinder).
  - intros l. apply Permutation_rev.
  - exact idealFill_in_range.
  - reflexivity.
  - reflexivity.
  - reflexivity.
  - apply Z.leb_le. reflexivity.
Defined.

(** ** The command line *)

Section CliFacts.

Variable cfg : Configuration.
Variable parseInt : option jsstring -> jsnumber.

(** A property of the options that every assignment of the loop keeps is
    kept by the whole loop. *)
Lemma parseFrom_keeps (P : Cli.Options -> Prop) :
  (forall o v, P o -> P (Cli.withDomain v o)) ->
  (forall o n,
      P o ->
      P (Cli.withConcurrentChecks (Cli.orDefault n (CONCURRENT_CHECKS cfg))
           o)) ->
  (forall o n,
      P o -> P (Cli.withTimeout (Cli.orDefault n (TIMEOUT cfg)) o)) ->
  (forall o v, P o -> P (Cli.withOutputFile v o)) ->
  (forall o, P o -> P (Cli.withHelp o)) ->
  forall args o, P o -> P (Cli.parseFrom cfg parseInt args o).
Proof.
  intros Hd Hc Ht Ho Hh args.
  assert (H : forall n args, length args <= n ->
                forall o, P o -> P (Cli.parseFrom cfg parseInt args o)).
  { clear args. induction n as [|n IH]; intros args Hlen o HP.
    - destruct args; [exact HP | cbn in Hlen; lia].
    - destruct args as [|arg rest]; [exact HP|]. cbn in Hlen.
      cbn [Cli.parseFrom].
      repeat match goal with
             | |- context [if Cli.isFlag ?a ?s ?l then _ else _] =>
                 destruct (Cli.isFlag a s l)
             end;
        try (destruct rest as [|value rest']; [auto|];
             apply IH; [cbn in Hlen; lia | auto]).
      + apply IH; [lia | auto].
      + apply IH; [lia|].
        destruct (Cli.falsy (Cli.domain o) && negb (Cli.startsWithDash arg));
          auto. }
  intros o. now apply (H (length args)).
Qed.

(** Without a [-d] or [--domain] among the arguments, a domain that is set
    stays. *)
Lemma parseFrom_domain_kept (d : jsstring) :
  d <> [] ->
  forall n args,
    length args <= n ->
    Forall (fun arg => Cli.isFlag arg "-d" "--domain" = false) args ->
    forall o,
      Cli.domain o = Some d ->
      Cli.domain (Cli.parseFrom cfg parseInt args o) = Some d.
Proof.
  intros Hd. induction n as [|n IH]; intros args Hlen Hargs o Ho.
  - destruct args; [exact Ho | cbn in Hlen; lia].
  - destruct args as [|arg rest]; [exact Ho|]. cbn in Hlen.
    apply List.Forall_cons_iff in Hargs. destruct Hargs as [Harg Hrest].
    cbn [Cli.parseFrom]. rewrite Harg.
    repeat match goal with
           | |- context [if Cli.isFlag ?a ?s ?l then _ else _] =>
               destruct (Cli.isFlag a s l)
           end;
      try (destruct rest as [|value rest']; [exact Ho|];
           apply List.Forall_cons_iff in Hrest;
           destruct Hrest as [_ Hrest'];
           apply IH; [cbn in Hlen; lia | exact Hrest' | exact Ho]).
    + apply IH; [lia | exact Hrest | exact Ho].
    + apply IH; [lia | exact Hrest |].
      rewrite Ho. destruct d; [congruence | exact Ho].
Qed.

(** The loop never reads [options.help]: asking for help first and
    parsing the rest is parsing the rest and asking for help. *)
Lemma parseFrom_withHelp :
  forall n args,
    length args <= n ->
    forall o,
      Cli.parseFrom cfg parseInt args (Cli.withHelp o)
      = Cli.withHelp (Cli.parseFrom cfg parseInt args o).
Proof.
  induction n as [|n IH]; intros args Hlen o.
  - destruct args; [reflexivity | cbn in Hlen; lia].
  - destruct args as [|arg rest]; [reflexivity|]. cbn in Hlen.
    cbn [Cli.parseFrom].
    repeat match goal with
           | |- context [if Cli.isFlag ?a ?s ?l then _ else _] =>
               destruct (Cli.isFlag a s l)
           end;
      try (destruct rest as [|value rest']; [reflexivity|];
           rewrite <- IH by (cbn in Hlen; lia); reflexivity).
    + rewrite <- IH by lia. reflexivity.
    + rewrite <- IH by lia. cbn [Cli.withHelp Cli.domain].
      now destruct (Cli.falsy (Cli.domain o)
                    && negb (Cli.startsWithDash arg)).
Qed.

End CliFacts.

Lemma isFlag_startsWithDash (arg : jsstring) :
  Cli.startsWithDash arg = false ->
  Cli.isFlag arg "-d" "--domain" = false
  /\ Cli.isFlag arg "-c" "--concurrent" = false
  /\ Cli.isFlag arg "-t" "--timeout" = false
  /\ Cli.isFlag arg "-o" "--output" = false
  /\ Cli.isFlag arg "-h" "--help" = false.
Proof.
  intros Hdash.
  assert (H : forall short long,
             Cli.startsWithDash (js short) = true ->
             Cli.startsWithDash (js long) = true ->
             Cli.isFlag arg short long = false).
  { intros short long Hs Hl. unfold Cli.isFlag.
    apply orb_false_iff. split.
    - destruct (strictEq arg (js short)) eqn:E; [|reflexivity].
      apply strictEq_eq in E. congruence.
    - destruct (strictEq arg (js long)) eqn:E; [|reflexivity].
      apply strictEq_eq in E. congruence. }
  repeat split; now apply H.
Qed.

(** Decides the tests of the [switch] on a given argument. *)
Ltac eval_flags :=
  repeat match goal with
         | |- context [Cli.isFlag ?a ?s ?l] =>
             let b := eval vm_compute in (Cli.isFlag a s l) in
             change (Cli.isFlag a s l) with b
         end;
  cbv iota.

(** X10. Whatever is given to [-c] and [-t], the parsed concurrency and
    timeout are never [NaN] and never 0 (the defaults being non-zero): a
    value that [parseInt] turns into [NaN] or 0 is replaced by the
    default. Handed to the constructor, they are taken as they are: the
    finder's batch size and timeout are the parsed ones, so the batch size
    of the finder [main] makes is never 0. *)
Theorem parseArguments_numbers_are_truthy (cfg : Configuration)
    (parseInt : option jsstring -> jsnumber) (args : list jsstring) :
  CONCURRENT_CHECKS cfg <> 0%Z ->
  TIMEOUT cfg <> 0%Z ->
  Cli.truthy (Cli.concurrentChecks (Cli.parseArguments cfg parseInt args))
  = true
  /\ Cli.truthy (Cli.timeout (Cli.parseArguments cfg parseInt args)) = true
  /\ forall parsed,
       Cli.toMain (Cli.parseArguments cfg parseInt args) = Some parsed ->
       arg_concurrentChecks parsed <> 0%Z
       /\ concurrentChecks
            (constructor cfg
               {| opt_concurrentChecks := Some (arg_concurrentChecks parsed);
                  opt_timeout := Some (arg_timeout parsed);
                  opt_outputFile := arg_outputFile parsed |})
          = arg_concurrentChecks parsed
       /\ timeout
            (constructor cfg
               {| opt_concurrentChecks := Some (arg_concurrentChecks parsed);
                  opt_timeout := Some (arg_timeout parsed);
                  opt_outputFile := arg_outputFile parsed |})
          = arg_timeout parsed.
Proof.
  intros Hc Ht.
  assert (Hdefault : forall n d, d <> 0%Z ->
                       Cli.truthy (Cli.orDefault n d) = true).
  { intros n d Hd. destruct n as [n| | |]; cbn; try reflexivity.
    - destruct (Z.eqb_spec n 0); cbn; apply negb_true_iff;
        now apply Z.eqb_neq.
    - apply negb_true_iff. now apply Z.eqb_neq. }
  assert (Hboth :
            Cli.truthy
              (Cli.concurrentChecks (Cli.parseArguments cfg parseInt args))
            = true
            /\ Cli.truthy
                 (Cli.timeout (Cli.parseArguments cfg parseInt args))
               = true).
  { unfold Cli.parseArguments.
    apply (parseFrom_keeps cfg parseInt
             (fun o => Cli.truthy (Cli.concurrentChecks o) = true
                       /\ Cli.truthy (Cli.timeout o) = true)); cbn;
      try tauto.
    - intros o n [_ H]. split; [now apply Hdefault | exact H].
    - intros o n [H _]. split; [exact H | now apply Hdefault].
    - split; apply negb_true_iff; now apply Z.eqb_neq. }
  destruct Hboth as [Hcc Hto]. split; [exact Hcc|]. split; [exact Hto|].
  intros parsed. unfold Cli.toMain.
  destruct (Cli.concurrentChecks _) as [c| | |]; try discriminate.
  destruct (Cli.timeout _) as [t| | |]; try discriminate.
  intros [= <-]. cbn in *.
  apply negb_true_iff in Hcc, Hto. rewrite Hcc, Hto.
  apply Z.eqb_neq in Hcc. now repeat split.
Qed.

Lemma parseArguments_numbers_are_truthy_witness :
  Cli.concurrentChecks
    (Cli.parseArguments CONFIG Cli.parseDecimal
       [js "-c"; js "0"; js "-t"; js "soon"; js "ab*.io"])
  = Finite 10
  /\ Cli.truthy
       (Cli.concurrentChecks
          (Cli.parseArguments CONFIG Cli.parseDecimal
             [js "-c"; js "0"; js "-t"; js "soon"; js "ab*.io"])) = true
  /\ Cli.truthy
       (Cli.timeout
          (Cli.parseArguments CONFIG Cli.parseDecimal
             [js "-c"; js "0"; js "-t"; js "soon"; js "ab*.io"])) = true
  /\ forall parsed,
       Cli.toMain
         (Cli.parseArguments CONFIG Cli.parseDecimal
            [js "-c"; js "0"; js "-t"; js "soon"; js "ab*.io"])
       = Some parsed ->
       arg_concurrentChecks parsed <> 0%Z
       /\ concurrentChecks
            (constructor CONFIG
               {| opt_concurrentChecks := Some (arg_concurrentChecks parsed);
                  opt_timeout := Some (arg_timeout parsed);
                  opt_outputFile := arg_outputFile parsed |})
          = arg_concurrentChecks parsed
       /\ timeout
            (constructor CONFIG
               {| opt_concurrentChecks := Some (arg_concurrentChecks parsed);
                  opt_timeout := Some (arg_timeout parsed);
                  opt_outputFile := arg_outputFile parsed |})
          = arg_timeout parsed.
Proof.
  split; [reflexivity|].
  apply (parseArguments_numbers_are_truthy CONFIG Cli.parseDecimal
           [js "-c"; js "0"; js "-t"; js "soon"; js "ab*.io"]);
    discriminate.
Defined.

(** X11. [-h] or [--help] as the first argument does not end the
    parsing: the loop goes on, and the options are those of the remaining
    arguments with [help] set. [main] then returns after showing the help,
    whatever the other options are: no finder is made, nothing is queried,
    nothing is written. *)
Theorem help_first_parses_on_and_main_returns (cfg : Configuration)
    (sort_random : list jsstring -> list jsstring)
    (dns : nat -> jsstring -> DnsOutcome)
    (arrival : list (nat * ProbeFrame) -> list (nat * ProbeFrame))
    (Date_now : Z) (readFileSync_throws : bool)
    (roundedFill : Z -> Z -> jsnumber)
    (parseInt : option jsstring -> jsnumber) (flag : jsstring)
    (args : list jsstring) (parsed : ParsedArgs) (answer : jsstring)
    (w : World) :
  flag = js "-h" \/ flag = js "--help" ->
  Cli.toMain (Cli.parseArguments cfg parseInt (flag :: args)) = Some parsed ->
  Cli.parseArguments cfg parseInt (flag :: args)
  = Cli.withHelp (Cli.parseArguments cfg parseInt args)
  /\ Cli.help (Cli.parseArguments cfg parseInt (flag :: args)) = true
  /\ main cfg sort_random dns arrival Date_now readFileSync_throws
       roundedFill parsed answer w = Some (returned, w).
Proof.
  intros Hflag Hparsed.
  assert (Hon : Cli.parseArguments cfg parseInt (flag :: args)
                = Cli.withHelp (Cli.parseArguments cfg parseInt args)).
  { unfold Cli.parseArguments.
    destruct Hflag as [-> | ->]; cbn [Cli.parseFrom]; eval_flags;
      apply (parseFrom_withHelp cfg parseInt (length args) args);
      reflexivity. }
  assert (Hhelp : Cli.help (Cli.parseArguments cfg parseInt (flag :: args))
                  = true).
  { now rewrite Hon. }
  split; [exact Hon|]. split; [exact Hhelp|].
  unfold Cli.toMain in Hparsed.
  destruct (Cli.concurrentChecks _); try discriminate.
  destruct (Cli.timeout _); try discriminate.
  injection Hparsed as <-. unfold main. cbn [arg_help]. now rewrite Hhelp.
Qed.

Lemma help_first_parses_on_and_main_returns_witness :
  Cli.parseArguments CONFIG Cli.parseDecimal
    [js "--help"; js "-c"; js "20"; js "ab*.io"; js "-o"; js "x.txt"]
  = {| Cli.domain := Some (js "ab*.io"); Cli.concurrentChecks := Finite 20;
       Cli.timeout := Finite 5000; Cli.outputFile := Some (js "x.txt");
       Cli.help := true |}
  /\ Cli.parseArguments CONFIG Cli.parseDecimal
       [js "--help"; js "-c"; js "20"; js "ab*.io"; js "-o"; js "x.txt"]
     = Cli.withHelp
         (Cli.parseArguments CONFIG Cli.parseDecimal
            [js "-c"; js "20"; js "ab*.io"; js "-o"; js "x.txt"])
  /\ Cli.help
       (Cli.parseArguments CONFIG Cli.parseDecimal
          [js "--help"; js "-c"; js "20"; js "ab*.io"; js "-o"; js "x.txt"])
     = true
  /\ main CONFIG (@rev jsstring) (fun _ _ => Resolved [])
       (@rev (nat * ProbeFrame)) 0 false idealFill
       {| arg_domain := Some (js "ab*.io"); arg_concurrentChecks := 20;
          arg_timeout := 5000; arg_outputFile := Some (js "x.txt");
          arg_help := true |}
       (js "") newFinder
     = Some (returned, newFinder).
Proof.
  split; [reflexivity|].
  apply (help_first_parses_on_and_main_returns CONFIG (@rev jsstring)
           (fun _ _ => Resolved []) (@rev (nat * ProbeFrame)) 0 false
           idealFill Cli.parseDecimal (js "--help")
           [js "-c"; js "20"; js "ab*.io"; js "-o"; js "x.txt"]).
  - now right.
  - reflexivity.
Defined.

(** X12. A domain given with [-d] or [--domain] is taken as it stands,
    and a first argument that does not start with ['-'] is taken as the
    domain; in both cases, when it is not empty, nothing that follows
    replaces it, positional arguments included, as long as no [-d] or
    [--domain] follows. *)
Theorem parseArguments_domain_is_kept (cfg : Configuration)
    (parseInt : option jsstring -> jsnumber) (value : jsstring)
    (rest : list jsstring) :
  value <> [] ->
  Forall (fun arg => Cli.isFlag arg "-d" "--domain" = false) rest ->
  Cli.domain (Cli.parseArguments cfg parseInt (js "-d" :: value :: rest))
  = Some value
  /\ Cli.domain
       (Cli.parseArguments cfg parseInt (js "--domain" :: value :: rest))
     = Some value
  /\ (Cli.startsWithDash value = false ->
      Cli.domain (Cli.parseArguments cfg parseInt (value :: rest))
      = Some value).
Proof.
  intros Hvalue Hrest. unfold Cli.parseArguments.
  split; [|split].
  - cbn [Cli.parseFrom]. eval_flags.
    now apply (parseFrom_domain_kept cfg parseInt value Hvalue
                 (length rest) rest).
  - cbn [Cli.parseFrom]. eval_flags.
    now apply (parseFrom_domain_kept cfg parseInt value Hvalue
                 (length rest) rest).
  - intros Hdash. cbn [Cli.parseFrom].
    destruct (isFlag_startsWithDash value Hdash)
      as (-> & -> & -> & -> & ->).
    rewrite Hdash. cbn.
    now apply (parseFrom_domain_kept cfg parseInt value Hvalue
                 (length rest) rest).
Qed.

Lemma parseArguments_domain_is_kept_witness :
  Cli.domain
    (Cli.parseArguments CONFIG Cli.parseDecimal
       [js "-d"; js "my*site.org"; js "other.com"; js "-c"; js "7"])
  = Some (js "my*site.org")
  /\ Cli.domain
       (Cli.parseArguments CONFIG Cli.parseDecimal
          [js "--domain"; js "my*site.org"; js "other.com"; js "-c";
           js "7"])
     = Some (js "my*site.org")
  /\ (Cli.startsWithDash (js "my*site.org") = false ->
      Cli.domain
        (Cli.parseArguments CONFIG Cli.parseDecimal
           [js "my*site.org"; js "other.com"; js "-c"; js "7"])
      = Some (js "my*site.org")).
Proof.
  apply (parseArguments_domain_is_kept CONFIG Cli.parseDecimal
           (js "my*site.org") [js "other.com"; js "-c"; js "7"]).
  - discriminate.
  - repeat constructor.
Defined.

(** With [-d -h] the domain is ["-h"] and no help is asked for; a
    concurrency of [abc] or [0] gives the default 10, one of [-5] is
    kept. *)
Example parseArguments_edge_cases :
  Cli.parseArguments CONFIG Cli.parseDecimal [js "-d"; js "-h"]
  = {| Cli.domain := Some (js "-h"); Cli.concurrentChecks := Finite 10;
       Cli.timeout := Finite 5000;
       Cli.outputFile := Some (js "available_domains.txt");
       Cli.help := false |}
  /\ Cli.concurrentChecks
       (Cli.parseArguments CONFIG Cli.parseDecimal [js "-c"; js "abc"])
     = Finite 10
  /\ Cli.concurrentChecks
       (Cli.parseArguments CONFIG Cli.parseDecimal [js "a*.io"; js "-c"])
     = Finite 10
  /\ Cli.concurrentChecks
       (Cli.parseArguments CONFIG Cli.parseDecimal [js "-c"; js "-5"])
     = Finite (-5).
Proof. repeat split. Qed.

(** ** The timer of a probe; the ring after the summary *)

Lemma filter_keeps_all {A : Type} (f : A -> bool) (l : list A) :
  Forall (fun x => f x = true) l -> List.filter f l = l.
Proof.
  induction 1 as [|x l Hx _ IH]; cbn; [reflexivity|]. now rewrite Hx, IH.
Qed.

Lemma find_none {A : Type} (f : A -> bool) (l : list A) :
  Forall (fun x => f x = false) l -> List.find f l = None.
Proof.
  induction 1 as [|x l Hx _ IH]; cbn; [reflexivity|]. now rewrite Hx.
Qed.

Lemma find_last {A : Type} (f : A -> bool) (l : list A) (x : A) :
  Forall (fun y => f y = false) l -> f x = true ->
  List.find f (l ++ [x]) = Some x.
Proof.
  induction 1 as [|y l Hy _ IH]; cbn; intros Hx; [now rewrite Hx|].
  rewrite Hy. now apply IH.
Qed.

Section TimerFacts.

Variable domain : jsstring.
Variable w : World.
Hypothesis numbered : timers_numbered w.

Local Abbreviation armed :=
  {| timeoutId := timersMade w; delay := timeout (this w);
     controller := length (controllers w) |}.

(** The world when [dns.resolve] has been called. *)
Local Abbreviation asked :=
  (snd (isDomainAvailable_begin domain w)).

Lemma timers_are_older :
  Forall (fun t => Nat.eqb (timeoutId t) (timersMade w) = false) (timers w).
Proof using numbered.
  destruct numbered as [_ Hbelow].
  eapply List.Forall_impl; [|exact Hbelow].
  intros t Ht. cbn in Ht. apply Nat.eqb_neq. lia.
Qed.

Lemma timers_without_armed :
  List.filter (fun t => negb (Nat.eqb (timeoutId t) (timersMade w)))
    (timers w ++ [armed])
  = timers w.
Proof using numbered.
  rewrite List.filter_app. cbn. rewrite Nat.eqb_refl. cbn.
  rewrite app_nil_r. apply filter_keeps_all.
  eapply List.Forall_impl; [|exact timers_are_older].
  intros t Ht. cbn in Ht. now rewrite Ht.
Qed.

Lemma timers_keep_older :
  List.filter (fun t => negb (Nat.eqb (timeoutId t) (timersMade w)))
    (timers w)
  = timers w.
Proof using numbered.
  apply filter_keeps_all.
  eapply List.Forall_impl; [|exact timers_are_older].
  intros t Ht. cbn in Ht. now rewrite Ht.
Qed.

(** The timer of the call fires while it is pending. *)
Lemma fireTimer_armed (w1 : World) :
  timers w1 = timers w ++ [armed] ->
  controllers w1 = controllers w ++ [false] ->
  timers (Timing.fireTimer (timersMade w) w1) = timers w
  /\ controllers (Timing.fireTimer (timersMade w) w1)
     = controllers w ++ [true]
  /\ timersMade (Timing.fireTimer (timersMade w) w1) = timersMade w1.
Proof using numbered.
  intros Ht Hc. unfold Timing.fireTimer. rewrite Ht.
  rewrite (find_last _ _ armed timers_are_older) by apply Nat.eqb_refl.
  cbn. rewrite Ht, Hc, timers_without_armed. repeat split.
  rewrite insert_app_r_alt by lia. now rewrite Nat.sub_diag.
Qed.

(** The timer of the call fires when it is no longer pending: nothing
    happens. *)
Lemma fireTimer_gone (w1 : World) :
  timers w1 = timers w ->
  Timing.fireTimer (timersMade w) w1 = w1.
Proof using numbered.
  intros Ht. unfold Timing.fireTimer.
  now rewrite Ht, (find_none _ _ timers_are_older).
Qed.

End TimerFacts.

(** The call up to its [await]: a new controller, not aborted, and the
    timer of the call, pending. *)
Lemma begin_armed (domain : jsstring) (w : World) :
  exists w1,
    isDomainAvailable_begin domain w
    = (Normal {| probe_domain := domain; probe_timeoutId := timersMade w;
                 probe_query := length (queries w) |}, w1)
    /\ timers w1
       = timers w
         ++ [{| timeoutId := timersMade w; delay := timeout (this w);
                controller := length (controllers w) |}]
    /\ controllers w1 = controllers w ++ [false].
Proof. eexists. split; [reflexivity|]. now split. Qed.



(** A timeout of 500 ms and a failure [ETIMEOUT] that arrives after
    24000 ms: the timer has fired long before, nothing is pending when the
    call returns, and the controller is aborted. With an address that
    arrives after 120 ms the timer is cleared and the controller is not
    aborted. *)
Example probe_timer_cases :
  timers
    (snd (Timing.probeReturns (js "a.io") 24000
            (Failed {| code := Some (js "ETIMEOUT") |})
            (withThis (fun _ =>
               constructor CONFIG
                 {| opt_concurrentChecks := None; opt_timeout := Some 500%Z;
                    opt_outputFile := None |}) newFinder)))
  = []
  /\ controllers
       (snd (Timing.probeReturns (js "a.io") 24000
               (Failed {| code := Some (js "ETIMEOUT") |})
               (withThis (fun _ =>
                  constructor CONFIG
                    {| opt_concurrentChecks := None;
                       opt_timeout := Some 500%Z;
                       opt_outputFile := None |}) newFinder)))
     = [true]
  /\ controllers
       (Timing.final
          (Timing.runProbe (js "a.io")
             (Timing.repliesAfter 120 (Resolved [js "192.0.2.1"]))
             newFinder))
     = [false].
Proof. repeat split. Qed.

(** The untimed call is the timed one for a reply that arrives before the
    timer is due; for a later reply the two agree on the value, the
    object, the sink and the queries. *)
Lemma probeReturns_isDomainAvailable (domain : jsstring) (latency : Z)
    (outcome : DnsOutcome) (w : World) :
  ((latency < timeout (this w))%Z ->
   Timing.probeReturns domain latency outcome w
   = isDomainAvailable domain outcome w)
  /\ fst (Timing.probeReturns domain latency outcome w)
     = fst (isDomainAvailable domain outcome w)
  /\ this (snd (Timing.probeReturns domain latency outcome w))
     = this (snd (isDomainAvailable domain outcome w))
  /\ written (snd (Timing.probeReturns domain latency outcome w))
     = written (snd (isDomainAvailable domain outcome w))
  /\ queries (snd (Timing.probeReturns domain latency outcome w))
     = queries (snd (isDomainAvailable domain outcome w)).
Proof.
  destruct (begin_armed domain w) as (w1 & Hbegin & _).
  unfold Timing.probeReturns, isDomainAvailable, bind. rewrite Hbegin.
  cbn [probe_timeoutId].
  split.
  { intros Hearly. case_Z. reflexivity. }
  rewrite !isDomainAvailable_resume_eq. cbn [probe_timeoutId].
  destruct (fireTimer_frame (timersMade w) w1) as (Hthis & Hwritten & Hq).
  destruct (timeout (this w) <=? latency)%Z; [|now repeat split].
  destruct outcome as [records|error]; [|destruct (notFoundClass error)];
    cbn [fst snd clearTimeout update this written queries withTimers
         withThis];
    rewrite ?Hthis, ?Hwritten, ?Hq; now repeat split.
Qed.

(** X14. The ring when a run is over. On a finder with an empty ring that
    has checked nothing yet, the run ends with at most 3 entries in the
    ring, the domains of the last lines of the output file: newest first
    when at most 10 domains were found and the file could be read back,
    oldest first otherwise, the summary having reversed the ring in
    place. *)
Theorem findAvailableDomains_final_ring (cfg : Configuration)
    (sort_random : list jsstring -> list jsstring)
    (dns : nat -> jsstring -> DnsOutcome)
    (arrival : list (nat * ProbeFrame) -> list (nat * ProbeFrame))
    (Date_now : Z) (readFileSync_throws : bool)
    (roundedFill : Z -> Z -> jsnumber) (baseDomain : jsstring) (w : World) :
  (forall l, Permutation l (arrival l)) ->
  (forall c t, (0 <= c <= t)%Z -> (0 < t)%Z ->
     exists n, roundedFill c t = Finite n /\ (0 <= n <= 40)%Z) ->
  (1 <= concurrentChecks (this w))%Z ->
  checked (stats (this w)) = 0%Z ->
  recentlyFound (this w) = [] ->
  exists w',
    findAvailableDomains cfg sort_random dns arrival Date_now
      readFileSync_throws roundedFill baseDomain w = Some (Normal tt, w')
    /\ length (recentlyFound (this w')) <= 3
    /\ map line (recentlyFound (this w'))
       = if (available (stats (this w')) <=? 10)%Z
            && negb readFileSync_throws
         then firstn 3 (rev (written w'))
         else rev (firstn 3 (rev (written w'))).
Proof.
  intros Harrival Hfill Hsize Hch0 Hring. unfold findAvailableDomains.
  set (domains := generateDomains cfg sort_random baseDomain None).
  set (w2 := withEnded false _).
  destruct (processDomainBatch_ring dns arrival roundedFill domains w2
              Harrival Hfill Hsize)
    as (results & w3 & -> & Hlen & Hinv);
    [subst w2; cbn; rewrite ?Hch0; try lia; try assumption; reflexivity..|].
  eexists. split; [reflexivity|].
  cbn [this withEnded written stats].
  destruct (printSummary_effect readFileSync_throws w3) as (_ & -> & ->).
  assert (Hcase :
            recentlyFound (this (printSummary readFileSync_throws w3))
            = if (available (stats (this w3)) <=? 10)%Z
                 && negb readFileSync_throws
              then recentlyFound (this w3)
              else rev (recentlyFound (this w3))).
  { unfold printSummary.
    destruct (recentlyFound (this w3)) as [|d ring] eqn:Hr.
    - cbn. rewrite ?Hr. now destruct (_ && _).
    - replace (0 <? js_length (d :: ring))%Z with true
        by (symmetry; apply Z.ltb_lt; unfold js_length; cbn; lia).
      destruct (available (stats (this w3)) <=? 10)%Z;
        [destruct readFileSync_throws|]; cbn; now rewrite ?Hr. }
  rewrite Hcase.
  destruct ((available (stats (this w3)) <=? 10)%Z
            && negb readFileSync_throws).
  - now split.
  - rewrite length_rev, map_rev, Hinv. now split.
Qed.

Lemma findAvailableDomains_final_ring_witness :
  exists w',
    findAvailableDomains CONFIG (fun chars => chars)
      (fun _ _ => Failed {| code := Some (js "ENOTFOUND") |})
      (fun tasks => tasks) 0 false idealFill (js "a*.io") newFinder
    = Some (Normal tt, w')
    /\ length (recentlyFound (this w')) <= 3
    /\ map line (recentlyFound (this w'))
       = if (available (stats (this w')) <=? 10)%Z && negb false
         then firstn 3 (rev (written w'))
         else rev (firstn 3 (rev (written w'))).
Proof.
  apply (findAvailableDomains_final_ring CONFIG (fun chars => chars)
           (fun _ _ => Failed {| code := Some (js "ENOTFOUND") |})
           (fun tasks => tasks) 0 false idealFill (js "a*.io") newFinder).
  - intros l. reflexivity.
  - exact idealFill_in_range.
  - apply Z.leb_le. reflexivity.
  - reflexivity.
  - reflexivity.
Defined.

(** All 36 candidates of [a*.io] answered [ENOTFOUND], in order: more than
    10 are found, and the summary leaves the ring oldest first. *)
Example ring_is_reversed_after_a_large_run :
  option_map (fun r => recentlyFound (this (snd r)))
    (findAvailableDomains CONFIG (fun chars => chars)
       (fun _ _ => Failed {| code := Some (js "ENOTFOUND") |})
       (fun tasks => tasks) 0 false idealFill (js "a*.io") newFinder)
  = Some [js "a7.io"; js "a8.io"; js "a9.io"].
Proof. vm_compute. reflexivity. Qed.

(** ** The order of the sink; the domain shown as being checked *)

Lemma last_default {A : Type} (l : list A) :
  forall (x d d' : A), List.last (x :: l) d = List.last (x :: l) d'.
Proof.
  induction l as [|a l IH]; intros x d d'; [reflexivity|].
  change (List.last (a :: l) d = List.last (a :: l) d'). apply IH.
Qed.

Lemma last_of_app {A : Type} (l l' : list A) (d : A) :
  List.last (l ++ l') d = List.last l' (List.last l d).
Proof.
  destruct l' as [|x l']; [now rewrite app_nil_r|].
  induction l as [|a l IH]; [reflexivity|].
  replace (List.last ((a :: l) ++ x :: l') d)
    with (List.last (l ++ x :: l') d) by (destruct l; reflexivity).
  rewrite IH. apply last_default.
Qed.

Section OrderFacts.

Variable dns : nat -> jsstring -> DnsOutcome.
Variable arrival : list (nat * ProbeFrame) -> list (nat * ProbeFrame).
Variable roundedFill : Z -> Z -> jsnumber.
Hypothesis arrival_perm : forall l, Permutation l (arrival l).

(** The lines of one batch are written before those of the next. *)
Lemma turns_sink_by_batch (todo : list (list jsstring)) :
  forall (results : list Settlement) (w : World)
         (results' : list Settlement) (w' : World),
    turns dns arrival roundedFill todo results w
    = Some (Normal results', w') ->
    exists chunks,
      written w' = written w ++ concat chunks
      /\ Forall2 (fun chunk hits => Permutation chunk (map line hits))
           chunks (hitsByBatch dns (length (queries w)) todo).
Proof using arrival_perm.
  induction todo as [|batch todo IH]; intros results w results' w'.
  - cbn. intros [= <- <-]. exists []. cbn. rewrite app_nil_r.
    split; [reflexivity | constructor].
  - cbn [turns hitsByBatch].
    destruct (turn dns arrival roundedFill batch results w)
      as [[[results1|e] w1]|] eqn:Hturn; try discriminate.
    intros Hrest.
    destruct (turn_accounted dns arrival roundedFill arrival_perm _ _ _ _ _
                Hturn) as (new & Hw & Hp & Hq & _).
    destruct (IH _ _ _ _ Hrest) as (chunks & Hw' & Hchunks).
    exists (new :: chunks). cbn [concat].
    split; [now rewrite Hw', Hw, <- app_assoc|].
    constructor; [exact Hp|].
    rewrite Hq, length_app in Hchunks. exact Hchunks.
Qed.

Lemma launch_all_current (batch : list jsstring) :
  forall (promises : list Promise) (w : World),
    currentlyChecking (this (snd (fold_left launch batch (promises, w))))
    = List.last batch (currentlyChecking (this w)).
Proof.
  induction batch as [|domain batch IH]; intros promises w; [reflexivity|].
  cbn [fold_left]. unfold launch at 2.
  rewrite (surjective_pairing (callback_begin domain w)), callback_begin_eq.
  rewrite IH.
  change (currentlyChecking (this (snd (callback_begin domain w))))
    with domain.
  destruct batch as [|d batch]; [reflexivity|].
  change (List.last (domain :: d :: batch) (currentlyChecking (this w)))
    with (List.last (d :: batch) (currentlyChecking (this w))).
  apply last_default.
Qed.

Lemma callback_resume_current (frame : ProbeFrame) (reply : DnsOutcome)
    (w : World) :
  currentlyChecking (this (snd (callback_resume frame reply w)))
  = currentlyChecking (this w).
Proof.
  unfold callback_resume, bind. rewrite isDomainAvailable_resume_eq.
  destruct reply as [records|error]; [reflexivity|].
  destruct (notFoundClass error); cbn; [|reflexivity].
  now destruct (3 <? _)%Z.
Qed.

Lemma settle_current (order : list (nat * ProbeFrame)) :
  forall (promises : list Promise) (w : World),
    currentlyChecking
      (this (snd (fold_left (settle dns) order (promises, w))))
    = currentlyChecking (this w).
Proof.
  induction order as [|[slot frame] order IH]; intros promises w;
    [reflexivity|].
  cbn [fold_left]. rewrite settle_eq, IH. apply callback_resume_current.
Qed.

Lemma turn_current (batch : list jsstring) (results : list Settlement)
    (w : World) (c : Completion (list Settlement)) (w' : World) :
  turn dns arrival roundedFill batch results w = Some (c, w') ->
  currentlyChecking (this w') = List.last batch (currentlyChecking (this w)).
Proof.
  unfold turn, runBatch.
  pose proof (launch_all_current batch [] w) as Hlaunch.
  destruct (fold_left launch batch ([], w)) as [promises w1].
  cbn [snd] in Hlaunch.
  pose proof (settle_current (arrival (suspended 0 promises)) promises w1)
    as Hsettle.
  destruct (fold_left (settle dns) (arrival (suspended 0 promises))
              (promises, w1)) as [promises' w2].
  cbn [snd] in Hsettle.
  destruct (allSettled promises'); [|discriminate].
  destruct (_ || _); [|intros [= <- <-]; congruence].
  unfold displayProgress. destruct (_ && _); intros [= <- <-]; cbn;
    congruence.
Qed.

Lemma turns_current (todo : list (list jsstring)) :
  forall (results : list Settlement) (w : World)
         (results' : list Settlement) (w' : World),
    turns dns arrival roundedFill todo results w
    = Some (Normal results', w') ->
    currentlyChecking (this w')
    = List.last (concat todo) (currentlyChecking (this w)).
Proof.
  induction todo as [|batch todo IH]; intros results w results' w'.
  - cbn. now intros [= <- <-].
  - cbn [turns concat].
    destruct (turn dns arrival roundedFill batch results w)
      as [[[results1|e] w1]|] eqn:Hturn; try discriminate.
    intros Hrest. rewrite (IH _ _ _ _ Hrest), (turn_current _ _ _ _ _ Hturn).
    symmetry. apply last_of_app.
Qed.

End OrderFacts.

Lemma launch_all_console (batch : list jsstring) :
  forall (promises : list Promise) (w : World),
    console (snd (fold_left launch batch (promises, w))) = console w.
Proof.
  induction batch as [|domain batch IH]; intros promises w; [reflexivity|].
  cbn [fold_left]. unfold launch at 2.
  rewrite (surjective_pairing (callback_begin domain w)), callback_begin_eq.
  now rewrite IH.
Qed.

Lemma settle_console (dns : nat -> jsstring -> DnsOutcome)
    (order : list (nat * ProbeFrame)) :
  forall (promises : list Promise) (w : World),
    console (snd (fold_left (settle dns) order (promises, w))) = console w.
Proof.
  induction order as [|[slot frame] order IH]; intros promises w;
    [reflexivity|].
  cbn [fold_left]. rewrite settle_eq, IH.
  apply (callback_console [] frame).
Qed.

Section ShownFacts.

Variable dns : nat -> jsstring -> DnsOutcome.
Variable arrival : list (nat * ProbeFrame) -> list (nat * ProbeFrame).
Variable roundedFill : Z -> Z -> jsnumber.

(** A turn shows at most one snapshot, and the domain it shows as being
    checked is the last one of its batch. *)
Lemma turn_shown (batch : list jsstring) (results : list Settlement)
    (w : World) (c : Completion (list Settlement)) (w' : World) :
  batch <> [] ->
  turn dns arrival roundedFill batch results w = Some (c, w') ->
  exists shown,
    console w' = console w ++ shown
    /\ Forall (fun f => shown_current f = List.last batch []) shown.
Proof.
  intros Hne. unfold turn, runBatch.
  pose proof (launch_all_current batch [] w) as Hcur1.
  pose proof (launch_all_console batch [] w) as Hcon1.
  destruct (fold_left launch batch ([], w)) as [promises w1].
  cbn [snd] in Hcur1, Hcon1.
  pose proof (settle_current dns (arrival (suspended 0 promises)) promises w1)
    as Hcur2.
  pose proof (settle_console dns (arrival (suspended 0 promises)) promises w1)
    as Hcon2.
  destruct (fold_left (settle dns) (arrival (suspended 0 promises))
              (promises, w1)) as [promises' w2].
  cbn [snd] in Hcur2, Hcon2.
  assert (Hnone : console w2 = console w ++ []).
  { now rewrite app_nil_r, Hcon2, Hcon1. }
  destruct (allSettled promises'); [|discriminate].
  destruct (_ || _);
    [|intros [= <- <-]; exists []; split; [exact Hnone | constructor]].
  unfold displayProgress. destruct (_ && _); intros [= <- <-];
    [|exists []; split; [exact Hnone | constructor]].
  eexists [_]. cbn [console printProgress withConsole].
  split; [now rewrite Hcon2, Hcon1|].
  constructor; [|constructor]. cbn [shown_current].
  rewrite Hcur2, Hcur1. destruct batch as [|d batch]; [congruence|].
  apply last_default.
Qed.

Lemma turns_shown (todo : list (list jsstring)) :
  Forall (fun batch => batch <> []) todo ->
  forall (results : list Settlement) (w : World)
         (results' : list Settlement) (w' : World),
    turns dns arrival roundedFill todo results w
    = Some (Normal results', w') ->
    exists shown,
      console w' = console w ++ shown
      /\ Forall
           (fun f => exists batch,
                       In batch todo
                       /\ shown_current f = List.last batch [])
           shown.
Proof.
  induction 1 as [|batch todo Hne _ IH]; intros results w results' w'.
  - cbn. intros [= <- <-]. exists []. rewrite app_nil_r.
    split; [reflexivity | constructor].
  - cbn [turns].
    destruct (turn dns arrival roundedFill batch results w)
      as [[[results1|e] w1]|] eqn:Hturn; try discriminate.
    intros Hrest.
    destruct (turn_shown _ _ _ _ _ Hne Hturn) as (shown1 & Hc1 & Hs1).
    destruct (IH _ _ _ _ Hrest) as (shown2 & Hc2 & Hs2).
    exists (shown1 ++ shown2). split; [now rewrite Hc2, Hc1, <- app_assoc|].
    apply Forall_app. split.
    + eapply List.Forall_impl; [|exact Hs1]. intros f Hf.
      exists batch. split; [now left | exact Hf].
    + eapply List.Forall_impl; [|exact Hs2]. intros f (b & Hb & Hf).
      exists b. split; [now right | exact Hf].
Qed.

End ShownFacts.

(** X15. The lines of the sink follow the batches: the scheduler adds to
    the sink one chunk of lines per batch, in the order of the batches, and
    the chunk of a batch holds, in some order, the lines of its candidates
    answered with [ENOTFOUND] or [ENODATA]. A domain found in a batch is
    never written after a domain found in a later batch. *)
Theorem processDomainBatch_sink_in_batch_order
    (dns : nat -> jsstring -> DnsOutcome)
    (arrival : list (nat * ProbeFrame) -> list (nat * ProbeFrame))
    (roundedFill : Z -> Z -> jsnumber)
    (domains : list jsstring) (w : World) :
  (forall l, Permutation l (arrival l)) ->
  (forall c t, (0 <= c <= t)%Z -> (0 < t)%Z ->
     exists n, roundedFill c t = Finite n /\ (0 <= n <= 40)%Z) ->
  (1 <= concurrentChecks (this w))%Z ->
  (0 <= checked (stats (this w)))%Z ->
  (checked (stats (this w)) + js_length domains
   <= total (stats (this w)))%Z ->
  exists (results : list Settlement) (w' : World)
         (chunks : list (list jsstring)),
    processDomainBatch dns arrival roundedFill domains w
    = Some (Normal results, w')
    /\ written w' = written w ++ concat chunks
    /\ Forall2 (fun chunk hits => Permutation chunk (map line hits)) chunks
         (hitsByBatch dns (length (queries w))
            (batches (length domains) (concurrentChecks (this w)) domains
               0)).
Proof.
  intros Harrival Hfill Hsize Hch0 Hroom.
  destruct (processDomainBatch_spec dns arrival roundedFill Harrival Hfill
              domains w Hsize Hch0 Hroom)
    as (frames & w' & Heq & Hturns & _).
  rewrite Heq in Hturns. symmetry in Hturns.
  destruct (turns_sink_by_batch dns arrival roundedFill Harrival _ _ _ _ _
              Hturns) as (chunks & Hw & Hchunks).
  eexists _, w', chunks. split; [exact Heq|]. now split.
Qed.

Lemma processDomainBatch_sink_in_batch_order_witness :
  hitsByBatch
    (fun rank _ =>
       match rank with
       | 1 => Resolved [js "192.0.2.1"]
       | _ => Failed {| code := Some (js "ENOTFOUND") |}
       end)
    (length (queries batchDemo))
    (batches 5 (concurrentChecks (this batchDemo))
       [js "a.io"; js "b.io"; js "c.io"; js "d.io"; js "e.io"] 0)
  = [[js "a.io"]; [js "c.io"; js "d.io"]; [js "e.io"]]
  /\ exists (results : list Settlement) (w' : World)
            (chunks : list (list jsstring)),
       processDomainBatch
         (fun rank _ =>
            match rank with
            | 1 => Resolved [js "192.0.2.1"]
            | _ => Failed {| code := Some (js "ENOTFOUND") |}
            end)
         (@rev (nat * ProbeFrame)) idealFill
         [js "a.io"; js "b.io"; js "c.io"; js "d.io"; js "e.io"] batchDemo
       = Some (Normal results, w')
       /\ written w' = written batchDemo ++ concat chunks
       /\ Forall2 (fun chunk hits => Permutation chunk (map line hits))
            chunks
            (hitsByBatch
               (fun rank _ =>
                  match rank with
                  | 1 => Resolved [js "192.0.2.1"]
                  | _ => Failed {| code := Some (js "ENOTFOUND") |}
                  end)
               (length (queries batchDemo))
               (batches 5 (concurrentChecks (this batchDemo))
                  [js "a.io"; js "b.io"; js "c.io"; js "d.io"; js "e.io"]
                  0)).
Proof.
  split; [reflexivity|].
  apply (processDomainBatch_sink_in_batch_order
           (fun rank _ =>
              match rank with
              | 1 => Resolved [js "192.0.2.1"]
              | _ => Failed {| code := Some (js "ENOTFOUND") |}
              end)
           (@rev (nat * ProbeFrame)) idealFill
           [js "a.io"; js "b.io"; js "c.io"; js "d.io"; js "e.io"]
           batchDemo).
  - intros l. apply Permutation_rev.
  - exact idealFill_in_range.
  - apply Z.leb_le. reflexivity.
  - apply Z.leb_le. reflexivity.
  - apply Z.leb_le. reflexivity.
Defined.

(** X16. The domain shown as "currently checking" is never one in flight:
    every callback of a batch sets it before the first reply is handled, so
    each snapshot the scheduler shows names the last domain of a batch, and
    when the scheduler returns the field holds the last candidate of the
    list. *)
Theorem processDomainBatch_shows_last_of_batch
    (dns : nat -> jsstring -> DnsOutcome)
    (arrival : list (nat * ProbeFrame) -> list (nat * ProbeFrame))
    (roundedFill : Z -> Z -> jsnumber)
    (domains : list jsstring) (w : World) :
  (forall l, Permutation l (arrival l)) ->
  (forall c t, (0 <= c <= t)%Z -> (0 < t)%Z ->
     exists n, roundedFill c t = Finite n /\ (0 <= n <= 40)%Z) ->
  (1 <= concurrentChecks (this w))%Z ->
  (0 <= checked (stats (this w)))%Z ->
  (checked (stats (this w)) + js_length domains
   <= total (stats (this w)))%Z ->
  exists (results : list Settlement) (w' : World) (shown : list Frame),
    processDomainBatch dns arrival roundedFill domains w
    = Some (Normal results, w')
    /\ currentlyChecking (this w')
       = List.last domains (currentlyChecking (this w))
    /\ console w' = console w ++ shown
    /\ Forall
         (fun f =>
            exists batch,
              In batch
                (batches (length domains) (concurrentChecks (this w))
                   domains 0)
              /\ shown_current f = List.last batch [])
         shown.
Proof.
  intros Harrival Hfill Hsize Hch0 Hroom.
  destruct (processDomainBatch_spec dns arrival roundedFill Harrival Hfill
              domains w Hsize Hch0 Hroom)
    as (frames & w' & Heq & Hturns & _).
  rewrite Heq in Hturns. symmetry in Hturns.
  pose proof (turns_current dns arrival roundedFill _ _ _ _ _ Hturns)
    as Hcur.
  pose proof (batches_concat _ domains Hsize (length domains) 0) as Hall.
  change (Z.of_nat 0) with 0%Z in Hall. rewrite Hall in Hcur by lia.
  change (skipn 0 domains) with domains in Hcur.
  assert (Hne : Forall (fun batch : list jsstring => batch <> [])
                 (batches (length domains) (concurrentChecks (this w))
                    domains 0)).
  { eapply List.Forall_impl;
      [|apply (batches_sizes _ domains Hsize (length domains) 0)].
    intros batch [Hlen _] ->. cbn in Hlen. lia. }
  destruct (turns_shown dns arrival roundedFill _ Hne _ _ _ _ Hturns)
    as (shown & Hcon & Hshown).
  eexists _, w', shown. split; [exact Heq|]. now repeat split.
Qed.

Lemma processDomainBatch_shows_last_of_batch_witness :
  exists (results : list Settlement) (w' : World) (shown : list Frame),
    processDomainBatch
      (fun _ _ => Failed {| code := Some (js "ENOTFOUND") |})
      (@rev (nat * ProbeFrame)) idealFill
      [js "a.io"; js "b.io"; js "c.io"; js "d.io"; js "e.io"] batchDemo
    = Some (Normal results, w')
    /\ currentlyChecking (this w')
       = List.last [js "a.io"; js "b.io"; js "c.io"; js "d.io"; js "e.io"]
           (currentlyChecking (this batchDemo))
    /\ console w' = console batchDemo ++ shown
    /\ Forall
         (fun f =>
            exists batch,
              In batch
                (batches 5 (concurrentChecks (this batchDemo))
                   [js "a.io"; js "b.io"; js "c.io"; js "d.io"; js "e.io"]
                   0)
              /\ shown_current f = List.last batch [])
         shown.
Proof.
  apply (processDomainBatch_shows_last_of_batch
           (fun _ _ => Failed {| code := Some (js "ENOTFOUND") |})
           (@rev (nat * ProbeFrame)) idealFill
           [js "a.io"; js "b.io"; js "c.io"; js "d.io"; js "e.io"]
           batchDemo).
  - intros l. apply Permutation_rev.
  - exact idealFill_in_range.
  - apply Z.leb_le. reflexivity.
  - apply Z.leb_le. reflexivity.
  - apply Z.leb_le. reflexivity.
Defined.

(** ** The generator on a pattern split at a marker *)

Lemma generateDomains_unshuffled (cfg : Configuration)
    (sort_random : list jsstring -> list jsstring) (baseDomain : jsstring) :
  generateDomains cfg sort_random baseDomain (Some false)
  = expansions (ALPHABET cfg) baseDomain.
Proof.
  unfold generateDomains.
  destruct (includes WILDCARD baseDomain) eqn:Hinc; cbn [negb defaultArg].
  - apply generateWithWildcard_top.
  - symmetry. apply expansions_no_wildcard. now apply includes_wildcards.
Qed.

Lemma expansions_split (alphabet pre rest : jsstring) :
  wildcards pre = 0 ->
  expansions alphabet (pre ++ WILDCARD :: rest)
  = flat_map
      (fun a => map (fun tail => pre ++ a :: tail) (expansions alphabet rest))
      alphabet.
Proof.
  induction pre as [|c pre IH]; intros Hpre.
  - cbn [app expansions]. now rewrite Ascii.eqb_refl.
  - rewrite wildcards_cons in Hpre. cbn [app expansions].
    destruct (Ascii.eqb c WILDCARD); [discriminate|].
    rewrite (IH Hpre), map_flat_map. apply flat_map_ext. intros a.
    now rewrite map_map.
Qed.

(** X17. Without shuffling, the candidates of a pattern come in blocks,
    one per character of the alphabet in the alphabet's order: the block of
    a character is the list of the candidates of what follows the first
    marker, each behind the text before the marker and that character. The
    leftmost marker varies slowest. *)
Theorem generateDomains_blocks (cfg : Configuration)
    (sort_random : list jsstring -> list jsstring) (pre rest : jsstring) :
  wildcards pre = 0 ->
  generateDomains cfg sort_random (pre ++ WILDCARD :: rest) (Some false)
  = flat_map
      (fun a =>
         map (fun tail => pre ++ a :: tail)
           (generateDomains cfg sort_random rest (Some false)))
      (ALPHABET cfg).
Proof.
  intros Hpre. rewrite !generateDomains_unshuffled.
  now apply expansions_split.
Qed.

Lemma generateDomains_blocks_witness :
  wildcards (js "te") = 0
  /\ generateDomains CONFIG (@rev jsstring) (js "te" ++ WILDCARD :: js "t.*")
       (Some false)
     = flat_map
         (fun a =>
            map (fun tail => js "te" ++ a :: tail)
              (generateDomains CONFIG (@rev jsstring) (js "t.*") (Some false)))
         (ALPHABET CONFIG).
Proof.
  split; [reflexivity|].
  apply (generateDomains_blocks CONFIG (@rev jsstring) (js "te") (js "t.*")).
  reflexivity.
Defined.

(** ** The events of the scheduler *)

(** A call of the scheduler is a sequence of events of a run, and what
    these events discover is, batch by batch and in some order within a
    batch, the candidates answered as [Available]. *)
Lemma processDomainBatch_discovers
    (dns : nat -> jsstring -> DnsOutcome)
    (arrival : list (nat * ProbeFrame) -> list (nat * ProbeFrame))
    (roundedFill : Z -> Z -> jsnumber)
    (domains : list jsstring) (w : World) :
  (forall l, Permutation l (arrival l)) ->
  (forall c t, (0 <= c <= t)%Z -> (0 < t)%Z ->
     exists n, roundedFill c t = Finite n /\ (0 <= n <= 40)%Z) ->
  (1 <= concurrentChecks (this w))%Z ->
  (0 <= checked (stats (this w)))%Z ->
  (checked (stats (this w)) + js_length domains
   <= total (stats (this w)))%Z ->
  exists (results : list Settlement) (events : list Event)
         (chunks : list (list jsstring)),
    processDomainBatch dns arrival roundedFill domains w
    = Some (Normal results, replay events w)
    /\ map line (discovered events) = concat chunks
    /\ Forall2 (fun chunk hits => Permutation chunk (map line hits)) chunks
         (hitsByBatch dns (length (queries w))
            (batches (length domains) (concurrentChecks (this w)) domains
               0)).
Proof.
  intros Harrival Hfill Hsize Hch0 Hroom.
  destruct (processDomainBatch_spec dns arrival roundedFill Harrival Hfill
              domains w Hsize Hch0 Hroom)
    as (frames & w' & Heq & Hturns & _ & _ & _ & _ & _ & Hsteps & _).
  destruct (run_steps_replay w w' Hsteps) as (events & ->).
  rewrite Heq in Hturns. symmetry in Hturns.
  destruct (turns_sink_by_batch dns arrival roundedFill Harrival _ _ _ _ _
              Hturns) as (chunks & Hw & Hchunks).
  rewrite replay_written in Hw. apply app_inv_head in Hw.
  eexists _, events, chunks. split; [exact Heq|]. now split.
Qed.
